(** * FixFlow bounty bot: routes, ledger schema, scheduler and MNEE payment service

    A shallow embedding of the bot's JavaScript sources:
    - [routes/bounty.js]   (the express handlers for create / claim / escalate),
    - [services/mnee.js]   (the [MneePaymentService] class and [loadMneeSdk]),
    - [index.js]           ([startEscalationScheduler]),
    - [db.js]              ([initDb] and the DDL it executes),
    followed by the properties of the specification stated over it.

    Conventions of the embedding.
    - JavaScript values are the inductive [Js.Val]; a number is [NaN], an
      infinity or a rational, and [*], [+] and [-] round their exact result
      to the nearest IEEE 754 double, ties to even ([Js.round]).  The two
      zeros are not told apart.
    - [async] functions of the bot are run to completion: a promise that
      resolves is an outcome [Returned], a rejection or a [throw] is
      [Thrown].  The [AuthProvider] is also run event by event, each
      [await] on the network being a point where other events come in.
    - Code threads an explicit state; [try]/[catch] is [try_catch].
    - [logger.*] calls have no influence on control flow and are elided. *)

From Stdlib Require Import ZArith QArith Qround Qabs Qpower Lqa String Ascii List Bool Lia.
From stdpp Require Import base option gmap strings list pretty.
Import ListNotations.
Local Open Scope string_scope.

(* ===================================================================== *)
(** ** JavaScript values                                                  *)
(* ===================================================================== *)

Module Js.

(** A JavaScript number: [NaN], a finite value, or one of the two
    infinities. *)
Inductive Num : Type :=
| NaN
| Fin (q : Q)
| Inf (negative : bool).

(** The values a parsed request body, [process.env] or an SDK reply can
    hold.  Objects and arrays are opaque: [Object repr] carries their JSON
    text. *)
Inductive Val : Type :=
| Undefined
| Null
| Boolean (b : bool)
| Number (n : Num)
| Str (s : string)
| Object (repr : string).

(** [Error] objects: the constructor name and the message. *)
Record Error : Type := mkError { err_name : string; err_message : string }.

Definition error (msg : string) : Error := mkError "Error" msg.
Definition type_error (msg : string) : Error := mkError "TypeError" msg.

(** ToBoolean. *)
Definition num_truthy (n : Num) : bool :=
  match n with
  | NaN => false
  | Fin q => negb (Qeq_bool q 0)
  | Inf _ => true
  end.

Definition truthy (v : Val) : bool :=
  match v with
  | Undefined | Null => false
  | Boolean b => b
  | Number n => num_truthy n
  | Str s => negb (String.eqb s "")
  | Object _ => true
  end.

(** [a || b] (the right operand is a value here, so laziness is moot). *)
Definition or (a b : Val) : Val := if truthy a then a else b.

(** The parts of the language runtime the sources rely on and that are
    not written out here: StringToNumber, ToNumber on objects (through
    ToPrimitive), Number::toString (used by template literals) and the
    global [parseInt]. *)
Class Runtime : Type := {
  StringToNumber : string -> Num;
  ObjectToNumber : string -> Num;
  NumberToString : Num -> string;
  parseInt : string -> Num
}.

(** ToNumber. *)
Definition to_number `{Runtime} (v : Val) : Num :=
  match v with
  | Undefined => NaN
  | Null => Fin 0
  | Boolean true => Fin 1
  | Boolean false => Fin 0
  | Number n => n
  | Str s => StringToNumber s
  | Object r => ObjectToNumber r
  end.

(** *** Arithmetic on doubles

    IEEE 754 binary64: 53 bits of precision, the last place of a value at
    an exponent from -1074 up, round to nearest with ties to even, and
    overflow to infinity from [2^1024] on. *)

Definition pow2 (e : Z) : Q := (2 ^ e)%Q.

(** The nearest integer, the even one of two that are equally near. *)
Definition round_half_even (x : Q) : Z :=
  let f := Qfloor x in
  match Qcompare (x - inject_Z f) (1 # 2) with
  | Lt => f
  | Gt => (f + 1)%Z
  | Eq => if Z.even f then f else (f + 1)%Z
  end.

(** The exponent [e] of a positive rational: [2^e <= q < 2^(e+1)]. *)
Definition ilog2 (q : Q) : Z :=
  let k := (Z.log2 (Qnum q) - Z.log2 (Zpos (Qden q)))%Z in
  if Qle_bool (pow2 k) q then k else (k - 1)%Z.

(** The exponent of the last place of the double nearest to [q]. *)
Definition ulp_exponent (q : Q) : Z := Z.max (ilog2 (Qabs q) - 52) (-1074).

Definition negative (q : Q) : bool := negb (Qle_bool 0 q).

(** The double nearest to an exact result. *)
Definition round (q : Q) : Num :=
  if Qeq_bool q 0 then Fin 0
  else
    let u := ulp_exponent q in
    let r := Qred (inject_Z (round_half_even (q / pow2 u)) * pow2 u) in
    if Qle_bool (pow2 1024) (Qabs r) then Inf (negative q) else Fin r.

(** The rationals that are doubles. *)
Definition is_double (q : Q) : bool :=
  match round q with
  | Fin r => Qeq_bool r q
  | _ => false
  end.

(** [a * b] on numbers. *)
Definition num_mul (a b : Num) : Num :=
  match a, b with
  | NaN, _ | _, NaN => NaN
  | Fin x, Fin y => round (x * y)
  | Inf s, Inf t => Inf (xorb s t)
  | Inf s, Fin y | Fin y, Inf s => if Qeq_bool y 0 then NaN else Inf (xorb s (negative y))
  end.

(** [a + b] on numbers. *)
Definition num_add (a b : Num) : Num :=
  match a, b with
  | NaN, _ | _, NaN => NaN
  | Fin x, Fin y => round (x + y)
  | Inf s, Inf t => if Bool.eqb s t then Inf s else NaN
  | Inf s, Fin _ | Fin _, Inf s => Inf s
  end.

(** [- a] and [a - b] on numbers. *)
Definition num_neg (a : Num) : Num :=
  match a with
  | NaN => NaN
  | Fin x => Fin (- x)
  | Inf s => Inf (negb s)
  end.

Definition num_sub (a b : Num) : Num := num_add a (num_neg b).

(** [a * b] on arbitrary values. *)
Definition mul `{Runtime} (a b : Val) : Val :=
  Number (num_mul (to_number a) (to_number b)).

(** [a >= b] and [a <= b] on numbers: false as soon as one side is NaN. *)
Definition num_ge (a b : Num) : bool :=
  match a, b with
  | NaN, _ | _, NaN => false
  | Inf false, _ => true
  | Inf true, Inf true => true
  | Inf true, _ => false
  | Fin _, Inf s => s
  | Fin x, Fin y => Qle_bool y x
  end.

Definition num_le (a b : Num) : bool := num_ge b a.

(** The order of the numbers as a relation: [NaN] is comparable with
    nothing, the infinities lie below and above every other number. *)
Inductive le : Num -> Num -> Prop :=
| le_fin x y : (x <= y)%Q -> le (Fin x) (Fin y)
| le_below x : le (Inf true) (Fin x)
| le_above x : le (Fin x) (Inf false)
| le_inf s t : implb t s = true -> le (Inf s) (Inf t).

(** [a < b] on numbers. *)
Definition num_lt (a b : Num) : bool :=
  match a, b with
  | NaN, _ | _, NaN => false
  | Inf false, _ => false
  | Inf true, Inf true => false
  | Inf true, _ => true
  | Fin _, Inf s => negb s
  | Fin x, Fin y => negb (Qle_bool y x)
  end.

(** [process.env.KEY]: a string, or [undefined] when the variable is unset. *)
Definition env_get (env : gmap string string) (key : string) : Val :=
  match env !! key with
  | Some s => Str s
  | None => Undefined
  end.

(** [a !== b] where [b] is a string literal. *)
Definition strict_ne_str (a : Val) (lit : string) : bool :=
  match a with
  | Str s => negb (String.eqb s lit)
  | _ => true
  end.

End Js.

(* ===================================================================== *)
(** ** Outcomes and the state-and-exception monad                         *)
(* ===================================================================== *)

(** How a call ends: with a value, or with a thrown error. *)
Inductive Outcome (A : Type) : Type :=
| Returned (a : A)
| Thrown (e : Js.Error).
Arguments Returned {A} a.
Arguments Thrown {A} e.

(** A computation over a state [S] that may throw. *)
Definition Eff (S A : Type) : Type := S -> Outcome A * S.

Definition ret {S A} (a : A) : Eff S A := fun s => (Returned a, s).
Definition throw {S A} (e : Js.Error) : Eff S A := fun s => (Thrown e, s).

Definition bind {S A B} (c : Eff S A) (k : A -> Eff S B) : Eff S B :=
  fun s =>
    match c s with
    | (Returned a, s') => k a s'
    | (Thrown e, s') => (Thrown e, s')
    end.

(** [try { c } catch (error) { h error }].  State changes made before the
    throw stay, as in the language. *)
Definition try_catch {S A} (c : Eff S A) (h : Js.Error -> Eff S A) : Eff S A :=
  fun s =>
    match c s with
    | (Returned a, s') => (Returned a, s')
    | (Thrown e, s') => h e s'
    end.

Definition get {S} : Eff S S := fun s => (Returned s, s).
Definition modify {S} (f : S -> S) : Eff S unit := fun s => (Returned tt, f s).

Declare Scope eff_scope.
Delimit Scope eff_scope with eff.
Notation "x <- c ;; k" := (bind c (fun x => k))
  (at level 100, c at next level, right associativity) : eff_scope.
Notation "c ;;; k" := (bind c (fun _ => k))
  (at level 100, right associativity) : eff_scope.

(* ===================================================================== *)
(** ** Regular expressions of the shape used by the sources               *)
(* ===================================================================== *)

Module Regex.

(** A character class is a union of inclusive ranges, [[a-km-z]] being
    [[("a","k"); ("m","z")]]; a pattern anchored at both ends ([^...$],
    no flags) is a sequence of classes, each with its [{lo,hi}] bounds (a
    bare class is [{1,1}]).  Strings are compared character by character;
    a character outside ASCII is in none of the classes used here. *)
Definition CharClass : Type := list (ascii * ascii).

Record Item : Type := Rep { item_class : CharClass; item_lo : nat; item_hi : nat }.

Definition Anchored : Type := list Item.

Definition in_range (ch : ascii) (r : ascii * ascii) : bool :=
  (nat_of_ascii (fst r) <=? nat_of_ascii ch)%nat && (nat_of_ascii ch <=? nat_of_ascii (snd r))%nat.

Definition in_class (c : CharClass) (ch : ascii) : bool := existsb (in_range ch) c.

(** [n] further optional occurrences of the class, then the continuation. *)
Fixpoint optional (c : CharClass) (n : nat) (k : list ascii -> bool) (s : list ascii) : bool :=
  match n with
  | O => k s
  | S n' =>
    match s with
    | ch :: s' => (in_class c ch && optional c n' k s') || k s
    | [] => k s
    end
  end.

(** [n] mandatory occurrences of the class, then the continuation. *)
Fixpoint required (c : CharClass) (n : nat) (k : list ascii -> bool) (s : list ascii) : bool :=
  match n with
  | O => k s
  | S n' =>
    match s with
    | ch :: s' => in_class c ch && required c n' k s'
    | [] => false
    end
  end.

(** Backtracking matcher; the end of the pattern is the [$] anchor. *)
Fixpoint match_items (p : Anchored) : list ascii -> bool :=
  match p with
  | [] => fun s => match s with [] => true | _ :: _ => false end
  | i :: p' =>
    required (item_class i) (item_lo i)
      (optional (item_class i) (item_hi i - item_lo i) (match_items p'))
  end.

(** The language of an anchored pattern: what each item may consume, in
    order, up to the end of the subject. *)
Fixpoint matches (p : Anchored) (s : list ascii) : Prop :=
  match p with
  | [] => s = []
  | i :: p' =>
    exists s1 s2,
      s = (s1 ++ s2)%list
      /\ (item_lo i <= length s1 <= item_lo i + (item_hi i - item_lo i))%nat
      /\ forallb (in_class (item_class i)) s1 = true
      /\ matches p' s2
  end.

(** [regex.test(str)] for an anchored pattern without flags. *)
Definition test (p : Anchored) (str : string) : bool :=
  match_items p (list_ascii_of_string str).

End Regex.

(* ===================================================================== *)
(** ** services/mnee.js                                                   *)
(* ===================================================================== *)

Module Mnee.

(** One tier of the fee table of the remote configuration. *)
Record FeeTier : Type := mkFeeTier {
  tier_min : Js.Num;
  tier_max : Js.Num;
  tier_fee : Js.Num
}.

(** The object [mnee.config()] resolves to. *)
Record MneeConfig : Type := mkMneeConfig {
  decimals : Js.Num;
  tokenId : string;
  feeAddress : string;
  fees : list FeeTier
}.

(** The default export of [@mnee/ts-sdk]. *)
Inductive SdkClass : Type := MneeClass.

(** The object built by [new MneeClass(config)]: it keeps its [config]. *)
Record Client : Type := mkClient {
  environment : Js.Val;
  apiKey : Js.Val
}.

Record TransferResult : Type := mkTransferResult { transactionId : Js.Val }.
Record SdkBalance : Type := mkSdkBalance { sdk_amount : Js.Num; sdk_pending : option Js.Num }.

(** The calls that reach the payment rail. *)
Inductive RailCall : Type :=
| CallConfig
| CallTransfer (request : list (string * Js.Num)) (wif : Js.Val)
| CallBalance (address : Js.Val)
| CallFaucet (address : Js.Val).

(** The SDK and the network behind it, as a capability interface over an
    abstract external state [Ext].  [sdk_import] is the dynamic
    [import('@mnee/ts-sdk')] (its [default] export may be missing),
    [sdk_new] the constructor, the others the methods of a client. *)
Class Sdk (Ext : Type) : Type := {
  sdk_import : Ext -> Outcome (option SdkClass);
  sdk_new : Client -> Ext -> Outcome Client;
  sdk_config : Client -> Ext -> Outcome (option MneeConfig) * Ext;
  sdk_transfer : Client -> list (string * Js.Num) -> Js.Val -> Ext -> Outcome TransferResult * Ext;
  sdk_balance : Client -> Js.Val -> Ext -> Outcome SdkBalance * Ext;
  sdk_faucet : Client -> Js.Val -> Ext -> Outcome Js.Val * Ext;
  toAtomicAmount : Client -> Js.Num -> Js.Num;
  fromAtomicAmount : Client -> Js.Num -> Js.Num
}.

(** The module-level variables [Mnee] and [sdkLoaded], the fields of the
    exported [MneePaymentService] instance, [process.env], the external
    state and the log of rail calls made so far (oldest first). *)
Record State (Ext : Type) : Type := mkState {
  Mnee : option SdkClass;
  sdkLoaded : bool;
  mnee : option Client;
  mneeConfig : option MneeConfig;
  initialized : bool;
  env : gmap string string;
  ext : Ext;
  calls : list RailCall
}.
Arguments mkState {Ext}.
Arguments Mnee {Ext}.
Arguments sdkLoaded {Ext}.
Arguments mnee {Ext}.
Arguments mneeConfig {Ext}.
Arguments initialized {Ext}.
Arguments env {Ext}.
Arguments ext {Ext}.
Arguments calls {Ext}.

(** The object [sendPayment] resolves to. *)
Record Payment : Type := mkPayment {
  pay_success : bool;
  pay_transactionId : Js.Val;
  pay_amount : Js.Num;
  pay_recipient : string;
  pay_bountyId : string
}.

(** The object [getBalance] resolves to. *)
Record Balance : Type := mkBalance {
  bal_address : Js.Val;
  bal_balance : Js.Num;
  bal_pending : Js.Num;
  bal_total : Js.Num
}.

(** [const addressRegex = /^[13][a-km-zA-HJ-NP-Z1-9]{25,34}$/]: its two
    classes, then the pattern. *)
Definition class_13 : Regex.CharClass := [("1", "1"); ("3", "3")]%char.

Definition class_base58 : Regex.CharClass :=
  [("a", "k"); ("m", "z"); ("A", "H"); ("J", "N"); ("P", "Z"); ("1", "9")]%char.

Definition addressRegex : Regex.Anchored :=
  [ Regex.Rep class_13 1 1; Regex.Rep class_base58 25 34 ].

(** The Base58 alphabet: digits and letters without [0], [O], [I], [l]. *)
Definition base58 : string := "123456789ABCDEFGHJKLMNPQRSTUVWXYZabcdefghijkmnopqrstuvwxyz".

(** The accepted shape of a recipient address, in words: a [1] or a [3],
    then 25 to 34 characters of the Base58 alphabet, and nothing more. *)
Definition address_shape (address : string) : Prop :=
  exists c rest,
    list_ascii_of_string address = c :: rest
    /\ (c = "1"%char \/ c = "3"%char)
    /\ (25 <= length rest <= 34)%nat
    /\ Forall (fun ch => In ch (list_ascii_of_string base58)) rest.

Section Service.
Context {Ext : Type} `{Sdk Ext} `{Js.Runtime}.

Local Open Scope eff_scope.

(** [let Mnee = null; let sdkLoaded = false;] and [constructor()]. *)
Definition constructor (e : gmap string string) (x : Ext) : State Ext :=
  mkState None false None None false e x [].

Definition set_loaded (m : option SdkClass) (s : State Ext) : State Ext :=
  mkState m true (mnee s) (mneeConfig s) (initialized s) (env s) (ext s) (calls s).
Definition set_mnee (c : Client) (s : State Ext) : State Ext :=
  mkState (Mnee s) (sdkLoaded s) (Some c) (mneeConfig s) (initialized s) (env s) (ext s) (calls s).
Definition set_mneeConfig (c : option MneeConfig) (s : State Ext) : State Ext :=
  mkState (Mnee s) (sdkLoaded s) (mnee s) c (initialized s) (env s) (ext s) (calls s).
Definition set_initialized (s : State Ext) : State Ext :=
  mkState (Mnee s) (sdkLoaded s) (mnee s) (mneeConfig s) true (env s) (ext s) (calls s).
Definition set_ext (x : Ext) (c : RailCall) (s : State Ext) : State Ext :=
  mkState (Mnee s) (sdkLoaded s) (mnee s) (mneeConfig s) (initialized s) (env s) x (calls s ++ [c]).

(** A call of a network method of the SDK: logged, then answered by the rail. *)
Definition rail {A} (c : RailCall) (f : Ext -> Outcome A * Ext) : Eff (State Ext) A :=
  fun s => let '(o, x) := f (ext s) in (o, set_ext x c s).

(** [process.env.KEY]. *)
Definition getenv (key : string) : Eff (State Ext) Js.Val :=
  fun s => (Returned (Js.env_get (env s) key), s).

(** [this.mnee.method(...)]: a [TypeError] when [this.mnee] is [null]. *)
Definition this_mnee (method : string) : Eff (State Ext) Client :=
  fun s =>
    match mnee s with
    | Some c => (Returned c, s)
    | None =>
      (Thrown (Js.type_error ("Cannot read properties of null (reading '" ++ method ++ "')")), s)
    end.

(** [loadMneeSdk()]. *)
Definition loadMneeSdk : Eff (State Ext) (option SdkClass) :=
  s <- get ;;
  if sdkLoaded s then ret (Mnee s)
  else
    try_catch
      (fun s => match sdk_import (ext s) with
                | Returned m => (Returned m, set_loaded m s)
                | Thrown e => (Thrown e, s)
                end)
      (fun _ => ret None).

(** [initialize()]. *)
Definition initialize : Eff (State Ext) unit :=
  MneeClass <- loadMneeSdk ;;
  match MneeClass with
  | None => throw (Js.error "MNEE SDK not loaded. Please run: npm install @mnee/ts-sdk")
  | Some _ =>
    e <- getenv "MNEE_ENVIRONMENT" ;;
    let environment := Js.or e (Js.Str "sandbox") in
    apiKey <- getenv "MNEE_API_KEY" ;;
    if negb (Js.truthy apiKey) then
      throw (Js.error "MNEE_API_KEY not set in environment variables")
    else
      try_catch
        (let config := mkClient environment apiKey in
         c <- (fun s => (sdk_new config (ext s), s)) ;;
         modify (set_mnee c) ;;;
         c <- this_mnee "config" ;;
         cfg <- rail CallConfig (sdk_config c) ;;
         modify (set_mneeConfig cfg) ;;;
         modify set_initialized)
        (fun error => throw error)
  end.

(** [sendPayment(recipientAddress, amount, bountyId)]. *)
Definition sendPayment (recipientAddress : string) (amount : Js.Num) (bountyId : string)
  : Eff (State Ext) Payment :=
  s <- get ;;
  if negb (initialized s) then
    throw (Js.error "MNEE payment service not initialized")
  else
    try_catch
      (let request := [(recipientAddress, amount)] in
       wif <- getenv "MNEE_BOT_WIF" ;;
       if negb (Js.truthy wif) then throw (Js.error "MNEE bot WIF not configured")
       else
         c <- this_mnee "transfer" ;;
         result <- rail (CallTransfer request wif) (sdk_transfer c request wif) ;;
         ret (mkPayment true (transactionId result) amount recipientAddress bountyId))
      (fun error => throw error).

(** [getBalance()]. *)
Definition getBalance : Eff (State Ext) Balance :=
  s <- get ;;
  if negb (initialized s) then
    throw (Js.error "MNEE payment service not initialized")
  else
    try_catch
      (address <- getenv "MNEE_BOT_ADDRESS" ;;
       if negb (Js.truthy address) then throw (Js.error "MNEE bot address not configured")
       else
         c <- this_mnee "balance" ;;
         balance <- rail (CallBalance address) (sdk_balance c address) ;;
         let pending :=
           match sdk_pending balance with
           | Some p => if Js.num_truthy p then p else Js.Fin 0
           | None => Js.Fin 0
           end in
         ret (mkBalance address (sdk_amount balance) pending
                (Js.num_add (sdk_amount balance) pending)))
      (fun error => throw error).

(** The tier predicate of [calculateFee]:
    [atomicAmount >= tier.min && atomicAmount <= tier.max]. *)
Definition tier_applies (atomicAmount : Js.Num) (tier : FeeTier) : bool :=
  Js.num_ge atomicAmount (tier_min tier) && Js.num_le atomicAmount (tier_max tier).

(** [calculateFee(amount)]. *)
Definition calculateFee (amount : Js.Num) : Eff (State Ext) Js.Num :=
  s <- get ;;
  match mneeConfig s with
  | None => throw (Js.error "MNEE configuration not loaded")
  | Some config =>
    c <- this_mnee "toAtomicAmount" ;;
    let atomicAmount := toAtomicAmount c amount in
    let feeTier := List.find (tier_applies atomicAmount) (fees config) in
    match feeTier with
    | None =>
      throw (Js.error ("No fee tier found for amount " ++ Js.NumberToString amount ++ " MNEE"))
    | Some tier =>
      c <- this_mnee "fromAtomicAmount" ;;
      ret (fromAtomicAmount c (tier_fee tier))
    end
  end.

(** [validateAddress(address)]. *)
Definition validateAddress (address : string) : Eff (State Ext) bool :=
  try_catch
    (ret (Regex.test addressRegex address))
    (fun error => ret false).

(** [requestFromFaucet()]. *)
Definition requestFromFaucet : Eff (State Ext) Js.Val :=
  e <- getenv "MNEE_ENVIRONMENT" ;;
  if Js.strict_ne_str e "sandbox" then
    throw (Js.error "Faucet is only available in sandbox environment")
  else
    try_catch
      (address <- getenv "MNEE_BOT_ADDRESS" ;;
       if negb (Js.truthy address) then throw (Js.error "MNEE bot address not configured")
       else
         c <- this_mnee "faucet" ;;
         result <- rail (CallFaucet address) (sdk_faucet c address) ;;
         ret result)
      (fun error => throw error).

(** The methods a caller can invoke on the exported instance, and what
    they resolve to. *)
Inductive Op : Type :=
| OpInitialize
| OpSendPayment (recipientAddress : string) (amount : Js.Num) (bountyId : string)
| OpGetBalance
| OpCalculateFee (amount : Js.Num)
| OpValidateAddress (address : string)
| OpRequestFromFaucet.

Inductive Reply : Type :=
| ReplyUnit
| ReplyPayment (p : Payment)
| ReplyBalance (b : Balance)
| ReplyNum (n : Js.Num)
| ReplyBool (b : bool)
| ReplyVal (v : Js.Val).

Definition step (op : Op) : Eff (State Ext) Reply :=
  match op with
  | OpInitialize => _ <- initialize ;; ret ReplyUnit
  | OpSendPayment r a b => p <- sendPayment r a b ;; ret (ReplyPayment p)
  | OpGetBalance => b <- getBalance ;; ret (ReplyBalance b)
  | OpCalculateFee a => n <- calculateFee a ;; ret (ReplyNum n)
  | OpValidateAddress a => b <- validateAddress a ;; ret (ReplyBool b)
  | OpRequestFromFaucet => v <- requestFromFaucet ;; ret (ReplyVal v)
  end.

(** The state after a sequence of method calls, whatever their outcomes. *)
Fixpoint run (ops : list Op) (s : State Ext) : State Ext :=
  match ops with
  | [] => s
  | op :: ops' => run ops' (snd (step op s))
  end.

(** *** Vocabulary for the properties of the service *)

(** The fields of the service object (not the rail) are what the guards
    read; [same_object] says two states agree on them and on the module
    variables and the environment. *)
Definition same_object (s s' : State Ext) : Prop :=
  Mnee s' = Mnee s /\ sdkLoaded s' = sdkLoaded s /\ mnee s' = mnee s
  /\ mneeConfig s' = mneeConfig s /\ initialized s' = initialized s /\ env s' = env s.

(** What a successful [initialize] has done: the SDK is loaded, the API
    key is a non-empty string, a client was built with it, and the remote
    configuration was fetched by the one rail call made. *)
Definition init_succeeded (s s' : State Ext) : Prop :=
  exists key c cfg x',
    Mnee s' = Some MneeClass /\ sdkLoaded s' = true
    /\ env s !! "MNEE_API_KEY" = Some key /\ key <> ""
    /\ sdk_new (mkClient (Js.or (Js.env_get (env s) "MNEE_ENVIRONMENT") (Js.Str "sandbox"))
                  (Js.Str key)) (ext s) = Returned c
    /\ sdk_config c (ext s) = (Returned cfg, x')
    /\ mnee s' = Some c /\ mneeConfig s' = cfg /\ initialized s' = true
    /\ env s' = env s /\ ext s' = x' /\ calls s' = (calls s ++ [CallConfig])%list.

(** What a failed [initialize] leaves: the flag and the configuration as
    they were, and a client only where there was one or one was just built. *)
Definition init_failed (s s' : State Ext) : Prop :=
  initialized s' = initialized s /\ mneeConfig s' = mneeConfig s /\ env s' = env s
  /\ (mnee s' = mnee s \/ is_Some (mnee s')).

(** The invariant behind the guards: a loaded configuration or a raised
    flag comes with a client. *)
Definition has_client (s : State Ext) : Prop :=
  is_Some (mneeConfig s) \/ initialized s = true -> is_Some (mnee s).

(** The atomic amount lies in the tier's range [min, max]. *)
Definition in_tier (atomicAmount : Js.Num) (t : FeeTier) : Prop :=
  Js.le (tier_min t) atomicAmount /\ Js.le atomicAmount (tier_max t).

(** [t] is the first tier of the table whose range holds the amount. *)
Definition first_tier_holding (atomicAmount : Js.Num) (table : list FeeTier) (t : FeeTier)
  : Prop :=
  exists before after,
    table = (before ++ t :: after)%list
    /\ in_tier atomicAmount t
    /\ Forall (fun u => ~ in_tier atomicAmount u) before.

End Service.
End Mnee.

(* ===================================================================== *)
(** ** routes/bounty.js                                                   *)
(* ===================================================================== *)

Module Routes.

(** A JSON object sent back by [res.json]: its keys in order. *)
Definition Json : Type := list (string * Js.Val).

(** What a handler sends: [res.status(n).json(b)]; a bare [res.json(b)] is
    status 200. *)
Record Response : Type := mkResponse { status : nat; body : Json }.

(** A bounty document as [Bounty.findOne] resolves it: an object, read and
    written by property name. *)
Definition Doc : Type := gmap string Js.Val.

(** The argument of [bountyService.createBounty]. *)
Record CreateParams : Type := mkCreateParams {
  cp_repository : Js.Val;
  cp_issueId : Js.Val;
  cp_amount : Js.Val;
  cp_maxAmount : Js.Val;
  cp_issueUrl : Js.Val;
  cp_metadata : Js.Val
}.

(** The properties the handlers read of what the service calls resolve to. *)
Record CreateResult : Type := mkCreateResult {
  cr_bountyId : Js.Val;
  cr_transactionHash : Js.Val
}.

Record ClaimResult : Type := mkClaimResult {
  cl_amount : Js.Val;
  cl_transactionHash : Js.Val
}.

Record EscalateResult : Type := mkEscalateResult {
  es_success : Js.Val;
  es_oldAmount : Js.Val;
  es_newAmount : Js.Val;
  es_transactionHash : Js.Val;
  es_reason : Js.Val
}.

(** The calls a handler makes on [bountyService] and on the [Bounty] model. *)
Inductive Call : Type :=
| FindOne (bountyId : Js.Num)
| CreateBounty (p : CreateParams)
| ClaimBounty (bountyId : Js.Num) (solver paymentTxId : Js.Val)
| EscalateBounty (bountyId : Js.Num)
| Save (doc : Doc).

(** [services/bountyService.js] and [models/Bounty.js] are imported by the
    routes but are not among the sources: the handlers are embedded over
    this interface, for any world [W] (ledger, escrow, payout rail) and any
    behaviour of these five operations.  A call either throws or resolves
    to an object with the properties the handlers read.  [findOne] is a
    query: it reads the world and leaves it as it is. *)
Class Services (W : Type) : Type := {
  findOne : Js.Num -> W -> Outcome (option Doc);
  save : Doc -> W -> Outcome unit * W;
  createBounty : CreateParams -> W -> Outcome CreateResult * W;
  claimBounty : Js.Num -> Js.Val -> Js.Val -> W -> Outcome ClaimResult * W;
  escalateBounty : Js.Num -> W -> Outcome EscalateResult * W
}.

(** A handler runs over the world and the log of the calls it has made
    (oldest first). *)
Record HState (W : Type) : Type := mkHState { world : W; invoked : list Call }.
Arguments mkHState {W}.
Arguments world {W}.
Arguments invoked {W}.

Section Handlers.
Context {W : Type} `{Services W} `{Js.Runtime}.

Local Open Scope eff_scope.

(** An awaited call on a service: logged, then run on the world. *)
Definition call {A} (c : Call) (f : W -> Outcome A * W) : Eff (HState W) A :=
  fun s => let '(o, w) := f (world s) in (o, mkHState w (invoked s ++ [c])).

(** [req.body.key], [undefined] when the key is absent. *)
Definition field (b : gmap string Js.Val) (key : string) : Js.Val :=
  default Js.Undefined (b !! key).

(** [router.post('/', ...)]: create a new bounty. *)
Definition post_create (req_body : gmap string Js.Val) : Eff (HState W) Response :=
  try_catch
    (let repository := field req_body "repository" in
     let issueId := field req_body "issueId" in
     let issueUrl := field req_body "issueUrl" in
     let amount := field req_body "amount" in
     let maxAmount := field req_body "maxAmount" in
     let metadata := field req_body "metadata" in
     if negb (Js.truthy repository) || negb (Js.truthy issueId)
        || negb (Js.truthy issueUrl) || negb (Js.truthy amount) then
       ret (mkResponse 400
              [("error", Js.Str "Missing required fields: repository, issueId, issueUrl, amount")])
     else
       let p := mkCreateParams repository issueId amount
                  (Js.or maxAmount (Js.mul amount (Js.Number (Js.Fin 3))))
                  issueUrl metadata in
       result <- call (CreateBounty p) (createBounty p) ;;
       ret (mkResponse 201
              [("success", Js.Boolean true);
               ("bountyId", cr_bountyId result);
               ("transactionHash", cr_transactionHash result)]))
    (fun error =>
       ret (mkResponse 500
              [("error", Js.Str "Failed to create bounty");
               ("message", Js.Str (Js.err_message error))])).

(** [router.post('/:bountyId/claim', ...)]: claim a bounty. *)
Definition post_claim (bountyId : string) (req_body : gmap string Js.Val)
  : Eff (HState W) Response :=
  try_catch
    (let solver := field req_body "solver" in
     let pullRequestUrl := field req_body "pullRequestUrl" in
     let paymentTxId := field req_body "paymentTxId" in
     if negb (Js.truthy solver) || negb (Js.truthy pullRequestUrl) then
       ret (mkResponse 400 [("error", Js.Str "Missing required fields: solver, pullRequestUrl")])
     else
       bounty <- call (FindOne (Js.parseInt bountyId))
                   (fun w => (findOne (Js.parseInt bountyId) w, w)) ;;
       match bounty with
       | None => ret (mkResponse 404 [("error", Js.Str "Bounty not found")])
       | Some bounty =>
         if Js.strict_ne_str (field bounty "status") "active" then
           ret (mkResponse 400 [("error", Js.Str "Bounty is not active")])
         else
           result <- call (ClaimBounty (Js.parseInt bountyId) solver paymentTxId)
                       (claimBounty (Js.parseInt bountyId) solver paymentTxId) ;;
           let bounty := <["pullRequestUrl" := pullRequestUrl]> bounty in
           call (Save bounty) (save bounty) ;;;
           ret (mkResponse 200
                  [("success", Js.Boolean true);
                   ("amount", cl_amount result);
                   ("transactionHash", cl_transactionHash result);
                   ("solver", solver)])
       end)
    (fun error =>
       ret (mkResponse 500
              [("error", Js.Str "Failed to claim bounty");
               ("message", Js.Str (Js.err_message error))])).

(** [router.post('/:bountyId/escalate', ...)]: escalate a bounty. *)
Definition post_escalate (bountyId : string) : Eff (HState W) Response :=
  try_catch
    (bounty <- call (FindOne (Js.parseInt bountyId))
                 (fun w => (findOne (Js.parseInt bountyId) w, w)) ;;
     match bounty with
     | None => ret (mkResponse 404 [("error", Js.Str "Bounty not found")])
     | Some bounty =>
       if Js.strict_ne_str (field bounty "status") "active" then
         ret (mkResponse 400 [("error", Js.Str "Bounty is not active")])
       else
         result <- call (EscalateBounty (Js.parseInt bountyId))
                     (escalateBounty (Js.parseInt bountyId)) ;;
         if Js.truthy (es_success result) then
           ret (mkResponse 200
                  [("success", Js.Boolean true);
                   ("oldAmount", es_oldAmount result);
                   ("newAmount", es_newAmount result);
                   ("transactionHash", es_transactionHash result)])
         else
           ret (mkResponse 200
                  [("success", Js.Boolean false);
                   ("reason", es_reason result)])
     end)
    (fun error =>
       ret (mkResponse 500
              [("error", Js.Str "Failed to escalate bounty");
               ("message", Js.Str (Js.err_message error))])).

(** *** Vocabulary for the properties of the handlers *)

(** The reply of the required-fields guards: status 400 and an error text. *)
Definition bad_request (msg : string) : Response := mkResponse 400 [("error", Js.Str msg)].

(** A run that ended in a 400 reply with nothing done: no call on a
    service or on the model, the world as it was. *)
Definition rejected_untouched (st : HState W) (r : Outcome Response * HState W) : Prop :=
  exists msg, r = (Returned (bad_request msg), st).

(** A creation request with a numeric amount that is zero or negative, or
    without one of the four required fields. *)
Definition invalid_creation (req_body : gmap string Js.Val) : Prop :=
  (exists q, req_body !! "amount" = Some (Js.Number (Js.Fin q)) /\ (q <= 0)%Q)
  \/ req_body !! "repository" = None \/ req_body !! "issueId" = None
  \/ req_body !! "issueUrl" = None \/ req_body !! "amount" = None.

(** A creation request one of whose four required fields is missing or
    falsy ([null], [false], [0], [NaN], the empty string). *)
Definition lacks_required_field (req_body : gmap string Js.Val) : Prop :=
  Js.truthy (field req_body "repository") = false
  \/ Js.truthy (field req_body "issueId") = false
  \/ Js.truthy (field req_body "issueUrl") = false
  \/ Js.truthy (field req_body "amount") = false.

(** The run called [createBounty] once, with a maximum amount that is three
    times the requested amount and is not below the amount passed. *)
Definition created_with_default_cap (req_body : gmap string Js.Val) (st : HState W)
    (r : Outcome Response * HState W) : Prop :=
  exists p,
    invoked (snd r) = (invoked st ++ [CreateBounty p])%list
    /\ cp_amount p = field req_body "amount"
    /\ cp_maxAmount p = Js.mul (field req_body "amount") (Js.Number (Js.Fin 3))
    /\ Js.num_ge (Js.to_number (cp_maxAmount p)) (Js.to_number (cp_amount p)) = true.

(** The calls that settle a claim or write a bounty. *)
Definition settles_or_writes (c : Call) : Prop :=
  match c with
  | ClaimBounty _ _ _ | Save _ | CreateBounty _ | EscalateBounty _ => True
  | FindOne _ => False
  end.

End Handlers.
End Routes.

(* ===================================================================== *)
(** ** The lifecycle engine's escalate operation                          *)
(* ===================================================================== *)

Module Engine.

Inductive Status : Type := Active | Claimed | Expired | Cancelled.

Definition status_eqb (a b : Status) : bool :=
  match a, b with
  | Active, Active | Claimed, Claimed | Expired, Expired | Cancelled, Cancelled => true
  | _, _ => false
  end.

(** Modelled from the spec: the Bounty entity of the data model (section 3);
    [models/Bounty.js] is not among the sources. *)
Record Bounty : Type := mkBounty {
  repository : string;
  issueId : Z;
  initial_amount : Q;
  current_amount : Q;
  max_amount : Q;
  escalation_count : nat;
  last_escalation : option Z;
  status : Status
}.

(** The calls that reach the escrow or the payout rail. *)
Inductive RailCall : Type :=
| EscrowFund (amount : Q)
| EscrowEscalate (bountyId : Z) (newAmount : Q)
| EscrowRelease (bountyId : Z) (solver : string)
| PayoutTransfer (recipient : string) (amount : Q).

(** Modelled from the spec: the Escrow Client capability
    [escalate(bountyId, newAmount) -> {txRef}] over the state of the chain
    (section 6); [services/contract.js] is not among the sources. *)
Class Escrow (Chain : Type) : Type := {
  escrow_escalate : Z -> Q -> Chain -> Outcome string * Chain
}.

(** The ledger, the bounties with a claim in flight (the intent locks of
    section 5), the chain, the clock, and the rail calls made so far. *)
Record World (Chain : Type) : Type := mkWorld {
  ledger : gmap Z Bounty;
  claim_in_flight : gset Z;
  chain : Chain;
  now : Z;
  rail_calls : list RailCall
}.
Arguments mkWorld {Chain}.
Arguments ledger {Chain}.
Arguments claim_in_flight {Chain}.
Arguments chain {Chain}.
Arguments now {Chain}.
Arguments rail_calls {Chain}.

(** The discriminated result of [escalateBounty]:
    [{success, oldAmount, newAmount, escalationTxRef} | {success: false, reason}]. *)
Inductive EscalateResult : Type :=
| Escalated (oldAmount newAmount : Q) (escalationTxRef : string)
| NotEscalated (reason : string).

(** The proposed amount, capped at the maximum. *)
Definition capped (proposed maximum : Q) : Q :=
  if Qle_bool proposed maximum then proposed else maximum.

Definition escalated (b : Bounty) (newAmount : Q) (t : Z) : Bounty :=
  mkBounty (repository b) (issueId b) (initial_amount b) newAmount (max_amount b)
    (S (escalation_count b)) (Some t) (status b).

Section Escalate.
Context {Chain : Type} `{Escrow Chain}.

(** The escalation step policy is configuration: the next amount proposed
    for a current amount, before capping. *)
Variable step_policy : Q -> Q.

(** Modelled from the spec: [escalateBounty(bountyId)] of the Bounty
    Lifecycle Engine (section 4.1); [services/bountyService.js] is not among
    the sources.  A bounty whose current amount has reached its maximum gets
    [max_amount_reached] whatever else holds of it (section 8: always);
    then come the other preconditions (status [active], no claim in
    flight); otherwise the on-chain escalation is issued with the policy's
    amount capped at the maximum, and on its success the ledger row gets the
    new amount, one more escalation and the time of this one.  A failure of
    the rail is not an expected branch: it is thrown, ledger untouched. *)
Definition escalateBounty (bountyId : Z) : Eff (World Chain) EscalateResult :=
  fun w =>
    match ledger w !! bountyId with
    | None => (Returned (NotEscalated "bounty_not_found"), w)
    | Some b =>
      if Qeq_bool (current_amount b) (max_amount b) then
        (Returned (NotEscalated "max_amount_reached"), w)
      else if negb (status_eqb (status b) Active) then
        (Returned (NotEscalated "bounty_not_active"), w)
      else if bool_decide (bountyId ∈ claim_in_flight w) then
        (Returned (NotEscalated "claim_in_progress"), w)
      else
        let newAmount := capped (step_policy (current_amount b)) (max_amount b) in
        let '(o, c) := escrow_escalate bountyId newAmount (chain w) in
        let called := (rail_calls w ++ [EscrowEscalate bountyId newAmount])%list in
        match o with
        | Returned txRef =>
          (Returned (Escalated (current_amount b) newAmount txRef),
           mkWorld (<[bountyId := escalated b newAmount (now w)]> (ledger w))
             (claim_in_flight w) c (now w) called)
        | Thrown e =>
          (Thrown e, mkWorld (ledger w) (claim_in_flight w) c (now w) called)
        end
    end.

End Escalate.
End Engine.

(* ===================================================================== *)
(** ** db.js: the ledger schema                                           *)
(* ===================================================================== *)

Module Db.

(** The column types and constraints the DDL of [initDb] uses. *)
Inductive ColType : Type :=
| SERIAL
| INTEGER
| VARCHAR (n : nat)
| TEXT
| NUMERIC
| TIMESTAMP
| JSONB.

Inductive Value : Type :=
| VNull
| VInt (z : Z)
| VNumeric (q : Q)
| VText (s : string)
| VTimestamp (t : Z)
| VJson (s : string).

Inductive Default : Type :=
| DefaultText (s : string)
| DefaultInt (z : Z)
| CURRENT_TIMESTAMP.

Inductive Constraint : Type :=
| PRIMARY_KEY
| UNIQUE
| NOT_NULL
| DEFAULT (d : Default).

Record Column : Type := Col {
  col_name : string;
  col_type : ColType;
  col_constraints : list Constraint
}.

(** The statements of the script, [IF NOT EXISTS] being part of both forms.
    The sort direction of an index column has no bearing on what the index
    admits and is dropped. *)
Inductive Stmt : Type :=
| CREATE_TABLE (name : string) (cols : list Column)
| CREATE_INDEX (unique : bool) (name table : string) (cols : list string).

(** The columns of [CREATE TABLE IF NOT EXISTS bounties (...)]. *)
Definition bounties_columns : list Column :=
      [ Col "id" SERIAL [PRIMARY_KEY];
        Col "bounty_id" INTEGER [UNIQUE; NOT_NULL];
        Col "repository" (VARCHAR 255) [NOT_NULL];
        Col "issue_id" INTEGER [NOT_NULL];
        Col "issue_url" TEXT [NOT_NULL];
        Col "initial_amount" NUMERIC [NOT_NULL];
        Col "current_amount" NUMERIC [NOT_NULL];
        Col "max_amount" NUMERIC [NOT_NULL];
        Col "status" (VARCHAR 50) [DEFAULT (DefaultText "active")];
        Col "solver" (VARCHAR 255) [];
        Col "claimed_amount" NUMERIC [];
        Col "transaction_hash" (VARCHAR 255) [NOT_NULL];
        Col "claim_transaction_hash" (VARCHAR 255) [];
        Col "block_number" INTEGER [NOT_NULL];
        Col "pull_request_url" TEXT [];
        Col "escalation_count" INTEGER [DEFAULT (DefaultInt 0)];
        Col "last_escalation" TIMESTAMP [];
        Col "metadata" JSONB [];
        Col "claimed_at" TIMESTAMP [];
        Col "created_at" TIMESTAMP [DEFAULT CURRENT_TIMESTAMP];
        Col "updated_at" TIMESTAMP [DEFAULT CURRENT_TIMESTAMP] ].

(** The script [initDb] sends in its single [client.query]. *)
Definition initDb_script : list Stmt :=
  [ CREATE_TABLE "bounties" bounties_columns;
    CREATE_INDEX false "idx_bounties_repository_status_created_at" "bounties"
      ["repository"; "status"; "created_at"];
    CREATE_INDEX false "idx_bounties_status_last_escalation" "bounties"
      ["status"; "last_escalation"];
    CREATE_INDEX false "idx_bounties_repository" "bounties" ["repository"];
    CREATE_INDEX false "idx_bounties_bounty_id" "bounties" ["bounty_id"] ].

(** A row maps every column to a value; a table keeps its declaration, its
    indexes, its rows in insertion order and the next value of the sequence
    behind its [SERIAL] column. *)
Record Index : Type := mkIndex { idx_name : string; idx_unique : bool; idx_cols : list string }.

Record Table : Type := mkTable {
  columns : list Column;
  indexes : list Index;
  rows : list (gmap string Value);
  next_serial : Z
}.

Definition constraint_eqb (a b : Constraint) : bool :=
  match a, b with
  | PRIMARY_KEY, PRIMARY_KEY | UNIQUE, UNIQUE | NOT_NULL, NOT_NULL => true
  | _, _ => false
  end.

Definition has_constraint (k : Constraint) (c : Column) : bool :=
  existsb (constraint_eqb k) (col_constraints c).

(** The errors PostgreSQL raises on the statements modelled here, by
    SQLSTATE: 42P01, 42809, 42703, 23505. *)
Inductive SqlError : Type :=
| undefined_table
| wrong_object_type
| undefined_column
| unique_violation.

(** Tables and indexes share one name space: whether a relation of that
    name exists. *)
Definition relation_exists (name : string) (db : gmap string Table) : bool :=
  match db !! name with
  | Some _ => true
  | None => false
  end
  || existsb (fun nt => existsb (fun i => String.eqb (idx_name i) name) (indexes (snd nt)))
       (map_to_list db).

Definition has_column (t : Table) (n : string) : bool :=
  existsb (fun c => String.eqb (col_name c) n) (columns t).

(** SQL equality of two stored values: never true of a [NULL]. *)
Definition value_eqb (a b : Value) : bool :=
  match a, b with
  | VInt x, VInt y => Z.eqb x y
  | VNumeric x, VNumeric y => Qeq_bool x y
  | VText x, VText y => String.eqb x y
  | VTimestamp x, VTimestamp y => Z.eqb x y
  | VJson x, VJson y => String.eqb x y
  | _, _ => false
  end.

Definition cell (r : gmap string Value) (name : string) : Value :=
  default VNull (r !! name).

(** Whether no two of the rows agree on all of the columns [cols]. *)
Fixpoint rows_distinct (cols : list string) (rs : list (gmap string Value)) : bool :=
  match rs with
  | [] => true
  | r :: rs' =>
    forallb (fun o => negb (forallb (fun n => value_eqb (cell o n) (cell r n)) cols)) rs'
    && rows_distinct cols rs'
  end.

(** [CREATE TABLE IF NOT EXISTS] and [CREATE INDEX IF NOT EXISTS].  A table
    is created unless a relation of its name exists.  For an index the
    table and the indexed columns are looked up first, and a missing one is
    an error also when the index is there already (as is the name of an
    index where a table is expected); then the statement is skipped if a
    relation of the index's name exists; a unique index is refused by rows
    that repeat a key. *)
Definition exec (db : gmap string Table) (st : Stmt) : SqlError + gmap string Table :=
  match st with
  | CREATE_TABLE name cols =>
    if relation_exists name db then inr db
    else inr (<[name := mkTable cols [] [] 1]> db)
  | CREATE_INDEX unique name table cols =>
    match db !! table with
    | None => if relation_exists table db then inl wrong_object_type else inl undefined_table
    | Some t =>
      if negb (forallb (has_column t) cols) then inl undefined_column
      else if relation_exists name db then inr db
      else if unique && negb (rows_distinct cols (rows t)) then inl unique_violation
      else inr (<[table := mkTable (columns t) (indexes t ++ [mkIndex name unique cols])
                             (rows t) (next_serial t)]> db)
    end
  end.

(** A script sent as one query: the statements in order, up to the first
    error. *)
Fixpoint run (script : list Stmt) (db : gmap string Table) : SqlError + gmap string Table :=
  match script with
  | [] => inr db
  | st :: rest =>
    match exec db st with
    | inl e => inl e
    | inr db' => run rest db'
    end
  end.

(** The database after [initDb()]: the script runs as one transaction, so
    a script that fails leaves the database as it was. *)
Definition initDb (db : gmap string Table) : gmap string Table :=
  match run initDb_script db with
  | inr db' => db'
  | inl _ => db
  end.

(** *** Values and column types

    The database encoding is UTF-8: a character is a byte that is no
    continuation byte ([10xxxxxx]) together with the continuation bytes
    that follow it. *)
Definition continuation (b : ascii) : bool :=
  (128 <=? nat_of_ascii b)%nat && (nat_of_ascii b <? 192)%nat.

Fixpoint char_length (s : string) : nat :=
  match s with
  | EmptyString => 0%nat
  | String b s' => if continuation b then char_length s' else S (char_length s')
  end.

(** The first [n] characters of a text, and what follows them. *)
Fixpoint split_chars (n : nat) (s : string) : string * string :=
  match s with
  | EmptyString => (EmptyString, EmptyString)
  | String b s' =>
    if continuation b then
      let '(p, r) := split_chars n s' in (String b p, r)
    else
      match n with
      | O => (EmptyString, s)
      | S n' => let '(p, r) := split_chars n' s' in (String b p, r)
      end
  end.

Definition blank (s : string) : bool :=
  forallb (Ascii.eqb " ") (list_ascii_of_string s).

(** No text holds the character with code 0. *)
Fixpoint without_nul (s : string) : bool :=
  match s with
  | EmptyString => true
  | String b s' => negb (Ascii.eqb b zero) && without_nul s'
  end.

(** The values of a column type: [NULL], and the values of its kind within
    its range ([int4]) or length (characters). *)
Definition has_type (ty : ColType) (v : Value) : bool :=
  match v, ty with
  | VNull, _ => true
  | VInt z, (SERIAL | INTEGER) => (-2147483648 <=? z)%Z && (z <=? 2147483647)%Z
  | VText s, VARCHAR n => without_nul s && (char_length s <=? n)%nat
  | VText s, TEXT => without_nul s
  | VNumeric _, NUMERIC => true
  | VTimestamp _, TIMESTAMP => true
  | VJson _, JSONB => true
  | _, _ => false
  end.

(** The nearest integer, ties away from zero: how a numeric is cast to an
    integer. *)
Definition round_half_away (q : Q) : Z :=
  if Qle_bool 0 q then Qfloor (q + (1 # 2)) else (- Qfloor (- q + (1 # 2)))%Z.

Definition int4 (z : Z) : option Value :=
  if (-2147483648 <=? z)%Z && (z <=? 2147483647)%Z then Some (VInt z) else None.

(** A text stored in [VARCHAR(n)]: as it is up to [n] characters; cut to
    [n] characters when all that follows them is blanks; refused
    otherwise. *)
Definition varchar (n : nat) (s : string) : option Value :=
  let '(p, r) := split_chars n s in
  if without_nul s && blank r then Some (VText p) else None.

(** The assignment of a value to a column of type [ty]: the value stored,
    or [None] when the statement fails.  Values are typed SQL values; an
    untyped literal or parameter, which PostgreSQL reads by the input
    function of the column's type, is taken as the value read.  A text is
    a string of characters by its UTF-8 encoding, a JSON value is given by
    its text.  An integer goes to a numeric column as it is, to a text
    column by its decimal digits, and a numeric to an integer column
    rounded.  A text, a timestamp and a JSON value have no assignment cast
    to a column of another kind; the text of a numeric, a timestamp or a
    JSON value given to a text column is not modelled, and such a statement
    counts as failed. *)
Definition assign (ty : ColType) (v : Value) : option Value :=
  match v, ty with
  | VNull, _ => Some VNull
  | VInt z, (SERIAL | INTEGER) => int4 z
  | VNumeric q, (SERIAL | INTEGER) => int4 (round_half_away q)
  | VInt z, NUMERIC => Some (VNumeric (inject_Z z))
  | VNumeric _, NUMERIC => Some v
  | VText s, VARCHAR n => varchar n s
  | VInt z, VARCHAR n => varchar n (pretty z)
  | VText s, TEXT => if without_nul s then Some v else None
  | VInt z, TEXT => Some (VText (pretty z))
  | VTimestamp _, TIMESTAMP => Some v
  | VJson _, JSONB => Some v
  | _, _ => None
  end.

Fixpoint default_of (cs : list Constraint) : option Default :=
  match cs with
  | [] => None
  | DEFAULT d :: _ => Some d
  | _ :: cs' => default_of cs'
  end.

(** The value the statement has for a column: the one it gives, or the
    column's default, the next value of the sequence, or [NULL]. *)
Definition supplied (t : Table) (time : Z) (given : gmap string Value) (c : Column) : Value :=
  match given !! col_name c with
  | Some v => v
  | None =>
    match default_of (col_constraints c), col_type c with
    | Some (DefaultText s), _ => VText s
    | Some (DefaultInt z), _ => VInt z
    | Some CURRENT_TIMESTAMP, _ => VTimestamp time
    | None, SERIAL => VInt (next_serial t)
    | None, _ => VNull
    end
  end.

(** The value a column gets: the supplied one as assigned to the column's
    type ([NULL] standing in where the assignment fails, which fails the
    statement). *)
Definition stored (t : Table) (time : Z) (given : gmap string Value) (c : Column) : Value :=
  default VNull (assign (col_type c) (supplied t time given c)).

Definition assignable (t : Table) (time : Z) (given : gmap string Value) (c : Column) : bool :=
  match assign (col_type c) (supplied t time given c) with
  | Some _ => true
  | None => false
  end.

(** What a column admits of a new row [r], given the rows already there. *)
Definition column_admits (old : list (gmap string Value)) (r : gmap string Value) (c : Column)
  : bool :=
  let v := cell r (col_name c) in
  has_type (col_type c) v
  && (if has_constraint NOT_NULL c || has_constraint PRIMARY_KEY c
         || match col_type c with SERIAL => true | _ => false end
      then negb (match v with VNull => true | _ => false end) else true)
  && (if has_constraint UNIQUE c || has_constraint PRIMARY_KEY c
      then forallb (fun o => negb (value_eqb (cell o (col_name c)) v)) old else true).

(** What an index admits: only a [UNIQUE] index refuses anything. *)
Definition index_admits (old : list (gmap string Value)) (r : gmap string Value) (i : Index)
  : bool :=
  if idx_unique i then
    forallb (fun o => negb (forallb (fun n => value_eqb (cell o n) (cell r n)) (idx_cols i))) old
  else true.

(** Whether the statement draws a value from the sequence. *)
Definition draws_serial (t : Table) (given : gmap string Value) : bool :=
  existsb (fun c => match col_type c, given !! col_name c with
                    | SERIAL, None => true
                    | _, _ => false
                    end) (columns t).

(** [INSERT INTO table (given columns) VALUES (...)] at time [time]:
    [None] when the statement fails (unknown table or column, a value its
    column's type does not take, or a row refused by a column or an
    index).  A failed statement leaves the tables as they were, but for
    the sequence: see [skip_serial]. *)
Definition insert (table : string) (time : Z) (given : gmap string Value)
    (db : gmap string Table) : option (gmap string Table) :=
  t ← db !! table;
  if negb (forallb (fun n => existsb (fun c => String.eqb (col_name c) n) (columns t))
             (elements (dom given)))
  then None
  else if negb (forallb (assignable t time given) (columns t)) then None
  else
    let r := list_to_map (map (fun c => (col_name c, stored t time given c)) (columns t)) in
    if forallb (column_admits (rows t) r) (columns t)
       && forallb (index_admits (rows t) r) (indexes t)
    then Some (<[table := mkTable (columns t) (indexes t) (rows t ++ [r])
                            (if draws_serial t given then next_serial t + 1
                             else next_serial t)]> db)
    else None.

(** A value drawn from a sequence is not given back: after a failed
    [INSERT] that had drawn one, the sequence stays advanced. *)
Definition skip_serial (table : string) (db : gmap string Table) : gmap string Table :=
  match db !! table with
  | Some t => <[table := mkTable (columns t) (indexes t) (rows t) (next_serial t + 1)]> db
  | None => db
  end.

(** The databases reached from a freshly initialised one by inserts into
    the bounty table, successful or failed. *)
Inductive reachable : gmap string Table -> Prop :=
| reach_init : reachable (initDb ∅)
| reach_insert db db' time given :
    reachable db -> insert "bounties" time given db = Some db' -> reachable db'
| reach_failed db time given :
    reachable db -> insert "bounties" time given db = None ->
    given !! "id" = None ->
    reachable (skip_serial "bounties" db).

(** The rows of the bounty table. *)
Definition bounties (db : gmap string Table) : list (gmap string Value) :=
  match db !! "bounties" with
  | Some t => rows t
  | None => []
  end.

(** *** Vocabulary for the properties of the schema *)

(** Any two rows at different positions hold different integers in [col]. *)
Definition distinct_on (col : string) (rs : list (gmap string Value)) : Prop :=
  forall i j r1 r2,
    rs !! i = Some r1 -> rs !! j = Some r2 -> i <> j ->
    exists a b, cell r1 col = VInt a /\ cell r2 col = VInt b /\ a <> b.

(** The rows hold, in order, the integers [keys] in [col]. *)
Definition keyed_by (col : string) (rs : list (gmap string Value)) (keys : list Z) : Prop :=
  Forall2 (fun r k => cell r col = VInt k) rs keys.

(** The bounty table is there with the declared columns, and its rows are
    keyed without repetition by [id] and by [bounty_id]. *)
Definition keeps_keys (db : gmap string Table) : Prop :=
  exists t ids bids,
    db !! "bounties" = Some t /\ columns t = bounties_columns
    /\ keyed_by "id" (rows t) ids /\ NoDup ids
    /\ keyed_by "bounty_id" (rows t) bids /\ NoDup bids.

(** Any two rows at different positions with status [active] differ in
    their (repository, issue_id) pair. *)
Definition active_pairs_unique (rs : list (gmap string Value)) : Prop :=
  forall i j r1 r2,
    rs !! i = Some r1 -> rs !! j = Some r2 -> i <> j ->
    cell r1 "status" = VText "active" -> cell r2 "status" = VText "active" ->
    ~ (cell r1 "repository" = cell r2 "repository"
       /\ cell r1 "issue_id" = cell r2 "issue_id").

(** Whether two rows are both [active] and carry the same repository text
    and the same issue number. *)
Definition clash (r1 r2 : gmap string Value) : bool :=
  match cell r1 "status", cell r2 "status" with
  | VText s1, VText s2 =>
    match cell r1 "repository", cell r2 "repository" with
    | VText a, VText b =>
      match cell r1 "issue_id", cell r2 "issue_id" with
      | VInt x, VInt y =>
        String.eqb s1 "active" && String.eqb s2 "active" && String.eqb a b && Z.eqb x y
      | _, _ => false
      end
    | _, _ => false
    end
  | _, _ => false
  end.

Definition first_two_clash (rs : list (gmap string Value)) : bool :=
  match rs with
  | r1 :: r2 :: _ => clash r1 r2
  | _ => false
  end.

(** Whether a statement succeeded. *)
Definition accepted (o : option (gmap string Table)) : bool :=
  match o with
  | Some _ => true
  | None => false
  end.

End Db.

(* ===================================================================== *)
(** ** index.js: the escalation scheduler                                 *)
(* ===================================================================== *)

Module Scheduler.

(** What a scheduled job runs. *)
Inductive Task : Type := CheckAndEscalateBounties.

(** A job registered with [cron.schedule(expression, task)]. *)
Record Job : Type := mkJob { expression : string; task : Task }.

(** [startEscalationScheduler()], on [process.env] and the jobs registered
    so far.  The local [interval] is bound as in the source. *)
Definition startEscalationScheduler (env : gmap string string) (jobs : list Job) : list Job :=
  let interval :=
    Js.or (Js.env_get env "ESCALATION_CHECK_INTERVAL") (Js.Number (Js.Fin 3600000)) in
  (jobs ++ [mkJob "0 * * * *" CheckAndEscalateBounties])%list.

(** The value the source binds to [interval]. *)
Definition interval_read (env : gmap string string) : Js.Val :=
  Js.or (Js.env_get env "ESCALATION_CHECK_INTERVAL") (Js.Number (Js.Fin 3600000)).

(** The five-field cron expressions whose fields are [*] or a decimal
    number: minute, hour, day of month, month, day of week. *)
Fixpoint split_spaces (cur : list ascii) (s : list ascii) : list (list ascii) :=
  match s with
  | [] => [rev cur]
  | ch :: s' =>
    if Ascii.eqb ch " " then rev cur :: split_spaces [] s'
    else split_spaces (ch :: cur) s'
  end.

Definition digit (ch : ascii) : option nat :=
  let n := nat_of_ascii ch in
  if (48 <=? n)%nat && (n <=? 57)%nat then Some (n - 48)%nat else None.

Fixpoint decimal (acc : nat) (s : list ascii) : option nat :=
  match s with
  | [] => Some acc
  | ch :: s' =>
    match digit ch with
    | Some d => decimal (10 * acc + d)%nat s'
    | None => None
    end
  end.

Definition field_matches (f : list ascii) (v : nat) : bool :=
  match f with
  | ["*"%char] => true
  | [] => false
  | _ =>
    match decimal 0 f with
    | Some n => (n =? v)%nat
    | None => false
    end
  end.

(** A point of the calendar, to the minute. *)
Record Minute : Type := mkMinute {
  minute : nat; hour : nat; day_of_month : nat; month : nat; day_of_week : nat
}.

(** Whether a job with this expression fires at this minute. *)
Definition fires (expr : string) (t : Minute) : bool :=
  match split_spaces [] (list_ascii_of_string expr) with
  | [mi; h; d; mo; w] =>
    field_matches mi (minute t) && field_matches h (hour t)
    && field_matches d (day_of_month t) && field_matches mo (month t)
    && field_matches w (day_of_week t)
  | _ => false
  end.

(** Whether some registered job fires at this minute. *)
Definition scan_fires (jobs : list Job) (t : Minute) : bool :=
  existsb (fun j => fires (expression j) t) jobs.

End Scheduler.

(* ===================================================================== *)
(** ** Doubles for the collaborators that are outside the sources         *)
(* ===================================================================== *)

(** Small concrete implementations of the interfaces above, on which the
    handlers and the service are run on concrete inputs below.  None of the
    general statements depends on them. *)
Module Doubles.

Fixpoint take_digits (s : list ascii) : list ascii :=
  match s with
  | ch :: s' =>
    match Scheduler.digit ch with
    | Some _ => ch :: take_digits s'
    | None => []
    end
  | [] => []
  end.

Definition signed (s : list ascii) : Z * list ascii :=
  match s with
  | "-"%char :: s' => ((-1)%Z, s')
  | "+"%char :: s' => (1%Z, s')
  | _ => (1%Z, s)
  end.

(** [parseInt] on a string that starts with an optional sign and decimal
    digits (no leading blanks, no [0x] prefix): the double nearest to the
    integer read; [NaN] without a digit. *)
Definition parse_int (str : string) : Js.Num :=
  let '(sign, rest) := signed (list_ascii_of_string str) in
  match take_digits rest with
  | [] => Js.NaN
  | ds =>
    match Scheduler.decimal 0 ds with
    | Some n => Js.round (inject_Z (sign * Z.of_nat n))
    | None => Js.NaN
    end
  end.

(** StringToNumber on the empty string and on signed decimal integers;
    every other string is sent to [NaN]. *)
Definition string_to_number (str : string) : Js.Num :=
  let '(sign, rest) := signed (list_ascii_of_string str) in
  match list_ascii_of_string str, rest with
  | [], _ => Js.Fin 0
  | _, [] => Js.NaN
  | _, _ =>
    match Scheduler.decimal 0 rest with
    | Some n => Js.round (inject_Z (sign * Z.of_nat n))
    | None => Js.NaN
    end
  end.

(** Number::toString on integers, [NaN] and the infinities. *)
Definition number_to_string (n : Js.Num) : string :=
  match n with
  | Js.NaN => "NaN"
  | Js.Fin q => pretty (Qnum q / Zpos (Qden q))%Z
  | Js.Inf false => "Infinity"
  | Js.Inf true => "-Infinity"
  end.

#[local] Instance runtime : Js.Runtime := {|
  Js.StringToNumber := string_to_number;
  Js.ObjectToNumber := fun _ => Js.NaN;
  Js.NumberToString := number_to_string;
  Js.parseInt := parse_int
|}.

(** *** An in-memory [bountyService] and [Bounty] model *)

(** The stored documents by bounty identifier, and the rail operations
    performed so far. *)
Record Mem : Type := mkMem {
  docs : list (Js.Num * Routes.Doc);
  rail_log : list string
}.

Definition num_eqb (a b : Js.Num) : bool :=
  match a, b with
  | Js.Fin x, Js.Fin y => Qeq_bool x y
  | Js.Inf s, Js.Inf t => Bool.eqb s t
  | _, _ => false
  end.

Definition lookup_doc (n : Js.Num) (m : Mem) : option Routes.Doc :=
  snd <$> List.find (fun kd => num_eqb (fst kd) n) (docs m).

Definition replace_doc (n : Js.Num) (d : Routes.Doc) (m : Mem) : list (Js.Num * Routes.Doc) :=
  map (fun kd => if num_eqb (fst kd) n then (fst kd, d) else kd) (docs m).

(** [save] persists the one property the handlers assign to a fetched
    document, as a model layer that writes modified paths only. *)
Definition mem_save (d : Routes.Doc) (m : Mem) : Outcome unit * Mem :=
  let n := Js.to_number (Routes.field d "bountyId") in
  (Returned tt,
   mkMem (map (fun kd => if num_eqb (fst kd) n
                         then (fst kd, <["pullRequestUrl" := Routes.field d "pullRequestUrl"]> (snd kd))
                         else kd) (docs m))
     (rail_log m ++ ["ledger.update"])%list).

(** Funds the escrow, then inserts the ledger record with status [active]. *)
Definition mem_createBounty (p : Routes.CreateParams) (m : Mem)
  : Outcome Routes.CreateResult * Mem :=
  let id := Js.Fin (inject_Z (Z.of_nat (S (length (docs m))))) in
  let d : Routes.Doc :=
    list_to_map [("bountyId", Js.Number id);
                 ("repository", Routes.cp_repository p);
                 ("issueId", Routes.cp_issueId p);
                 ("currentAmount", Routes.cp_amount p);
                 ("maxAmount", Routes.cp_maxAmount p);
                 ("status", Js.Str "active")] in
  (Returned (Routes.mkCreateResult (Js.Number id) (Js.Str "0xfunded")),
   mkMem (docs m ++ [(id, d)])%list (rail_log m ++ ["escrow.fund"; "ledger.insert"])%list).

(** Pays the solver, releases the escrow, then marks the record [claimed]. *)
Definition mem_claimBounty (n : Js.Num) (solver paymentTxId : Js.Val) (m : Mem)
  : Outcome Routes.ClaimResult * Mem :=
  match lookup_doc n m with
  | None => (Thrown (Js.error "Bounty not found"), m)
  | Some d =>
    let d' := <["status" := Js.Str "claimed"]> (<["solver" := solver]> d) in
    (Returned (Routes.mkClaimResult (Routes.field d "currentAmount") (Js.Str "0xreleased")),
     mkMem (replace_doc n d' m)
       (rail_log m ++ ["payout.transfer"; "escrow.release"; "ledger.update"])%list)
  end.

(** Escalates by half of the current amount, capped at the maximum. *)
Definition mem_escalateBounty (n : Js.Num) (m : Mem) : Outcome Routes.EscalateResult * Mem :=
  match lookup_doc n m with
  | None => (Thrown (Js.error "Bounty not found"), m)
  | Some d =>
    match Routes.field d "currentAmount", Routes.field d "maxAmount" with
    | Js.Number (Js.Fin c), Js.Number (Js.Fin mx) =>
      if Qle_bool mx c then
        (Returned (Routes.mkEscalateResult (Js.Boolean false) Js.Undefined Js.Undefined
                     Js.Undefined (Js.Str "max_amount_reached")), m)
      else
        let n' := Engine.capped (c * (3 # 2)) mx in
        (Returned (Routes.mkEscalateResult (Js.Boolean true) (Js.Number (Js.Fin c))
                     (Js.Number (Js.Fin n')) (Js.Str "0xescalated") Js.Undefined),
         mkMem (replace_doc n (<["currentAmount" := Js.Number (Js.Fin n')]> d) m)
           (rail_log m ++ ["escrow.escalate"; "ledger.update"])%list)
    | _, _ => (Thrown (Js.type_error "amount is not a number"), m)
    end
  end.

#[local] Instance services : Routes.Services Mem := {|
  Routes.findOne := fun n m => Returned (lookup_doc n m);
  Routes.save := mem_save;
  Routes.createBounty := mem_createBounty;
  Routes.claimBounty := mem_claimBounty;
  Routes.escalateBounty := mem_escalateBounty
|}.

(** *** A payment SDK over a counter of the calls it has served *)

Definition demo_config : Mnee.MneeConfig :=
  Mnee.mkMneeConfig (Js.Fin 5) "token" "1FeeAddress"
    [ Mnee.mkFeeTier (Js.Fin 0) (Js.Fin 1000000) (Js.Fin 100);
      Mnee.mkFeeTier (Js.Fin 1000001) (Js.Fin 100000000) (Js.Fin 1000) ].

Definition scale (f : Q) (n : Js.Num) : Js.Num := Js.num_mul n (Js.Fin f).

#[local] Instance sdk : Mnee.Sdk nat := {|
  Mnee.sdk_import := fun _ => Returned (Some Mnee.MneeClass);
  Mnee.sdk_new := fun c _ => Returned c;
  Mnee.sdk_config := fun _ x => (Returned (Some demo_config), S x);
  Mnee.sdk_transfer := fun _ _ _ x => (Returned (Mnee.mkTransferResult (Js.Str "tx")), S x);
  Mnee.sdk_balance := fun _ _ x => (Returned (Mnee.mkSdkBalance (Js.Fin 50) None), S x);
  Mnee.sdk_faucet := fun _ _ x => (Returned (Js.Object "{}"), S x);
  Mnee.toAtomicAmount := fun _ => scale 100000;
  Mnee.fromAtomicAmount := fun _ => scale (1 # 100000)
|}.

(** *** An escrow over a counter of the calls it has served *)

#[local] Instance escrow : Engine.Escrow nat := {|
  Engine.escrow_escalate := fun _ _ c => (Returned "0xescalated", S c)
|}.

(** *** Concrete inputs *)

Definition fresh : Routes.HState Mem := Routes.mkHState (mkMem [] []) [].

(** A creation request for issue 7 of [octo/repo] with the given amount
    and no [maxAmount]. *)
Definition creation (amount : Js.Val) : gmap string Js.Val :=
  list_to_map [("repository", Js.Str "octo/repo");
               ("issueId", Js.Number (Js.Fin 7));
               ("issueUrl", Js.Str "https://example.test/octo/repo/issues/7");
               ("amount", amount)].

Definition claim_body : gmap string Js.Val :=
  list_to_map [("solver", Js.Str "alice");
               ("pullRequestUrl", Js.Str "https://example.test/octo/repo/pull/8")].

(** The handlers' state once bounty 1 (amount 10) is created and claimed. *)
Definition after_claim : Routes.HState Mem :=
  snd (Routes.post_claim "1" claim_body
         (snd (Routes.post_create (creation (Js.Number (Js.Fin 10))) fresh))).

(** The stored document of bounty 1 in that state. *)
Definition claimed_doc : Routes.Doc :=
  default ∅ (lookup_doc (Js.Fin 1) (Routes.world after_claim)).

(** The double nearest to 0.1. *)
Definition tenth : Q := 3602879701896397 # 36028797018963968.

(** What [createBounty] receives for the creation request of amount -5. *)
Definition lower_cap_params : Routes.CreateParams :=
  Routes.mkCreateParams (Js.Str "octo/repo") (Js.Number (Js.Fin 7))
    (Js.Number (Js.Fin (-5))) (Js.Number (Js.Fin (-15)))
    (Js.Str "https://example.test/octo/repo/issues/7") Js.Undefined.

(** An environment with the API key, the wallet address and its key set,
    and no [MNEE_ENVIRONMENT]. *)
Definition configured_env : gmap string string :=
  list_to_map [("MNEE_API_KEY", "key-1"); ("MNEE_BOT_ADDRESS", "1BotAddress");
               ("MNEE_BOT_WIF", "wif-1")].

Definition production_env : gmap string string :=
  <["MNEE_ENVIRONMENT" := "production"]> configured_env.

(** A bounty escalated up to its maximum of 30, in a world with no claim in
    flight. *)
Definition capped_bounty : Engine.Bounty :=
  Engine.mkBounty "octo/repo" 7 10 30 30 2 (Some 7200%Z) Engine.Active.

Definition capped_world : Engine.World nat :=
  Engine.mkWorld {[1%Z := capped_bounty]} ∅ 0%nat 10800%Z [].

(** Two bounty rows for the same issue of the same repository, with
    different bounty identifiers. *)
Definition bounty_row (bounty_id : Z) : gmap string Db.Value :=
  list_to_map [("bounty_id", Db.VInt bounty_id);
               ("repository", Db.VText "octo/repo");
               ("issue_id", Db.VInt 7);
               ("issue_url", Db.VText "https://example.test/octo/repo/issues/7");
               ("initial_amount", Db.VNumeric 10);
               ("current_amount", Db.VNumeric 10);
               ("max_amount", Db.VNumeric 30);
               ("transaction_hash", Db.VText "0xfunded");
               ("block_number", Db.VInt 5)].

Definition one_bounty : gmap string Db.Table :=
  default ∅ (Db.insert "bounties" 100 (bounty_row 1) (Db.initDb ∅)).

Definition same_issue_twice : gmap string Db.Table :=
  default ∅ (Db.insert "bounties" 101 (bounty_row 2) one_bounty).

End Doubles.

(* ===================================================================== *)
(** ** routes/bounty.js: the read handlers                                *)
(* ===================================================================== *)

Module Reads.
Import Routes.

(** The filter object the list handler builds: [{ repository }], with a
    [status] property unless the request asked for [all]. *)
Record Filter : Type := mkFilter { f_repository : string; f_status : option string }.

(** What the list handler sends: the page of bounties and the pagination
    block, or an error object. *)
Inductive Quotient : Type :=
| Finite (z : Z)
| NotFinite.

Record Pagination : Type := mkPagination {
  pg_page : Js.Num;
  pg_limit : Js.Num;
  pg_total : nat;
  pg_pages : Quotient
}.

Inductive ListBody : Type :=
| Listing (bounties : list Json) (pagination : Pagination)
| ListError (body : Json).

Record ListResponse : Type := mkListResponse { l_status : nat; l_body : ListBody }.

(** The rest of [models/Bounty.js] the read handlers use, over the same
    world as [Routes.Services]: [toJSON] of a document, the chain
    [find(filter).sort({ createdAt: -1 }).limit(l).skip(s)] and
    [countDocuments(filter)].  The last two are queries. *)
Class Model (W : Type) : Type := {
  toJSON : Doc -> Json;
  find : Filter -> Js.Num -> Js.Num -> W -> Outcome (list Doc);
  countDocuments : Filter -> W -> Outcome nat
}.

(** [a - b] on numbers. *)
Definition num_sub (a b : Js.Num) : Js.Num := Js.num_sub a b.

(** [Math.ceil(total / d)] for a count [total]: an integer when [d] is a
    number other than zero (0 when [d] is an infinity); [NotFinite] stands
    for the three values [NaN], [Infinity] and [-Infinity], which the
    division gives on a zero or [NaN] divisor.  The quotient is taken
    exactly: for a count below [2^53] and an integer divisor the rounded
    quotient has the same ceiling. *)
Definition ceil_div (total : nat) (d : Js.Num) : Quotient :=
  match d with
  | Js.NaN => NotFinite
  | Js.Fin q =>
    if Qeq_bool q 0 then NotFinite
    else Finite (Qceiling (inject_Z (Z.of_nat total) / q))
  | Js.Inf _ => Finite 0
  end.

Section Handlers.
Context {W : Type} `{Services W} `{Model W} `{Js.Runtime}.

Local Open Scope eff_scope.

(** [router.get('/:bountyId', ...)]: get bounty details. *)
Definition get_bounty (bountyId : string) : Eff (HState W) Response :=
  try_catch
    (bounty <- call (FindOne (Js.parseInt bountyId))
                 (fun w => (findOne (Js.parseInt bountyId) w, w)) ;;
     match bounty with
     | None => ret (mkResponse 404 [("error", Js.Str "Bounty not found")])
     | Some bounty => ret (mkResponse 200 (toJSON bounty))
     end)
    (fun error =>
       ret (mkResponse 500
              [("error", Js.Str "Failed to get bounty details");
               ("message", Js.Str (Js.err_message error))])).

(** [router.get('/repository/:owner/:repo', ...)]: list the bounties of a
    repository.  [req.query] holds strings; a missing [page] or [limit]
    takes the default number, which [parseInt] reads through its decimal
    text.  The two queries on the model are not logged as calls. *)
Definition list_bounties (owner repo : string) (req_query : gmap string string)
  : Eff (HState W) ListResponse :=
  try_catch
    (let repository := owner ++ "/" ++ repo in
     let status := default "active" (req_query !! "status") in
     let page := default "1" (req_query !! "page") in
     let limit := default "20" (req_query !! "limit") in
     let query :=
       mkFilter repository (if String.eqb status "all" then None else Some status) in
     bounties <- (fun s =>
                    (find query (Js.parseInt limit)
                       (Js.num_mul (num_sub (Js.parseInt page) (Js.Fin 1)) (Js.parseInt limit))
                       (world s), s)) ;;
     total <- (fun s => (countDocuments query (world s), s)) ;;
     ret (mkListResponse 200
            (Listing (map toJSON bounties)
               (mkPagination (Js.parseInt page) (Js.parseInt limit) total
                  (ceil_div total (Js.parseInt limit))))))
    (fun error =>
       ret (mkListResponse 500
              (ListError [("error", Js.Str "Failed to list bounties");
                          ("message", Js.Str (Js.err_message error))]))).

End Handlers.

Section Wallet.
Context {Ext : Type} `{Mnee.Sdk Ext}.

Local Open Scope eff_scope.

(** [router.get('/wallet/balance', ...)], over the state of the payment
    service it calls. *)
Definition get_wallet_balance : Eff (Mnee.State Ext) Response :=
  try_catch
    (balance <- Mnee.getBalance ;;
     ret (mkResponse 200
            [("balance", Js.Number (Mnee.bal_balance balance));
             ("address", Mnee.bal_address balance);
             ("currency", Js.Str "MNEE")]))
    (fun error =>
       ret (mkResponse 500
              [("error", Js.Str "Failed to get wallet balance");
               ("message", Js.Str (Js.err_message error))])).

End Wallet.
End Reads.

(* ===================================================================== *)
(** ** db.js: the pool and [initDb] as it runs                            *)
(* ===================================================================== *)

Module Pool.

(** The database behind the pool, and the number of clients checked out
    of the pool and not yet released. *)
Record Pg : Type := mkPg { database : gmap string Db.Table; checked_out : nat }.

(** When the server or the network fails: [pool.connect()] rejects, or the
    query does before the script has run; and how the driver reports an
    error the server raises on the script.  The script of [initDb] goes in
    one simple query, which the server runs as one transaction: a failure
    leaves the database as it was. *)
Class Faults : Type := {
  connect_error : Pg -> option Js.Error;
  query_error : Pg -> option Js.Error;
  server_error : Db.SqlError -> Js.Error
}.

(** [try { c } finally { f }]: [f] runs however [c] ends, and the outcome
    of [c] stands unless [f] throws. *)
Definition try_finally {S A} (c : Eff S A) (f : Eff S unit) : Eff S A :=
  fun s =>
    let '(o, s') := c s in
    match f s' with
    | (Returned _, s'') => (o, s'')
    | (Thrown e, s'') => (Thrown e, s'')
    end.

Section InitDb.
Context `{Faults}.

Local Open Scope eff_scope.

(** [pool.connect()]. *)
Definition connect : Eff Pg unit :=
  fun s =>
    match connect_error s with
    | Some e => (Thrown e, s)
    | None => (Returned tt, mkPg (database s) (S (checked_out s)))
    end.

(** [client.release()]. *)
Definition release : Eff Pg unit :=
  fun s => (Returned tt, mkPg (database s) (pred (checked_out s))).

(** [client.query(script)] with the script of [initDb]. *)
Definition query_script : Eff Pg unit :=
  fun s =>
    match query_error s with
    | Some e => (Thrown e, s)
    | None =>
      match Db.run Db.initDb_script (database s) with
      | inr db' => (Returned tt, mkPg db' (checked_out s))
      | inl e => (Thrown (server_error e), s)
      end
    end.

(** [initDb()]. *)
Definition initDb : Eff Pg unit :=
  connect ;;;
  try_finally
    (try_catch query_script (fun err => throw err))
    release.

End InitDb.
End Pool.

(* ===================================================================== *)
(** ** index.js: start-up                                                 *)
(* ===================================================================== *)

Module Startup.

(** How a start-up step ends: the process goes on, or it is ended by
    [process.exit(code)]. *)
Inductive Step : Type :=
| Continue
| Exit (code : nat).

(** What [initializeBlockchain] does inside its [try] (provider, wallet,
    block number, [contractService.initialize]) is outside the sources: it
    is one operation on the state of the chain connection that returns or
    throws. *)
Class Blockchain (C : Type) : Type := {
  chain_connect : C -> Outcome unit * C
}.

(** [app.listen(PORT, ...)] throws at once on a port it cannot take as a
    port number ([listen_error]); otherwise it returns the server, and
    the port is bound afterwards: the server then emits [listening], or
    [error] when the port is taken or may not be used ([bind_error]). *)
Class Listener : Type := {
  listen_error : option Js.Error;
  bind_error : option Js.Error
}.

(** The HTTP server: [app.listen] not called yet, called and returned with
    the port still to be bound, or listening. *)
Inductive Server : Type :=
| NotStarted
| Binding
| Listening.

(** The process: database pool, chain connection, payment service (with
    [process.env]), the cron jobs registered and the HTTP server. *)
Record Sys (Ext C : Type) : Type := mkSys {
  pg : Pool.Pg;
  chain : C;
  payment : Mnee.State Ext;
  jobs : list Scheduler.Job;
  server : Server
}.
Arguments mkSys {Ext C}.
Arguments pg {Ext C}.
Arguments chain {Ext C}.
Arguments payment {Ext C}.
Arguments jobs {Ext C}.
Arguments server {Ext C}.

(** [try { body } catch (error) { process.exit(1) }]. *)
Definition or_exit {S A} (body : Eff S A) : S -> Step * S :=
  fun s =>
    match body s with
    | (Returned _, s') => (Continue, s')
    | (Thrown _, s') => (Exit 1, s')
    end.

Section Steps.
Context {Ext C : Type} `{Mnee.Sdk Ext} `{Blockchain C} `{Pool.Faults} `{Listener}.

Local Open Scope eff_scope.

(** [connectDatabase()]. *)
Definition connectDatabase : Pool.Pg -> Step * Pool.Pg := or_exit Pool.initDb.

(** [initializeBlockchain()]. *)
Definition initializeBlockchain : C -> Step * C := or_exit chain_connect.

(** [initializeMneeService()]. *)
Definition initializeMneeService : Mnee.State Ext -> Step * Mnee.State Ext :=
  or_exit
    (Mnee.initialize ;;;
     balance <- Mnee.getBalance ;;
     e <- Mnee.getenv "MNEE_ENVIRONMENT" ;;
     if negb (Js.strict_ne_str e "sandbox")
        && Js.num_lt (Mnee.bal_balance balance) (Js.Fin 10)
     then try_catch (Mnee.requestFromFaucet ;;; ret tt) (fun error => ret tt)
     else ret tt).

(** [startServer()]: the three initialisations in order, each ending the
    process on failure, then the scheduler and [app.listen]; the outer
    [catch] ends the process when [app.listen] throws ([cron.schedule] on
    the constant expression does not).  When [startServer] returns the
    port is not bound yet. *)
Definition startServer (s : Sys Ext C) : Step * Sys Ext C :=
  match connectDatabase (pg s) with
  | (Exit code, pg') => (Exit code, mkSys pg' (chain s) (payment s) (jobs s) (server s))
  | (Continue, pg') =>
    match initializeBlockchain (chain s) with
    | (Exit code, chain') =>
      (Exit code, mkSys pg' chain' (payment s) (jobs s) (server s))
    | (Continue, chain') =>
      match initializeMneeService (payment s) with
      | (Exit code, payment') =>
        (Exit code, mkSys pg' chain' payment' (jobs s) (server s))
      | (Continue, payment') =>
        let jobs' := Scheduler.startEscalationScheduler (Mnee.env payment') (jobs s) in
        match listen_error with
        | Some _ => (Exit 1, mkSys pg' chain' payment' jobs' (server s))
        | None => (Continue, mkSys pg' chain' payment' jobs' Binding)
        end
      end
    end
  end.

(** What the event loop brings once [app.listen] has returned: the server
    listens, or it emits [error]; the bot registers no handler for that
    event, so it is thrown as an uncaught exception, which ends the process
    with exit code 1. *)
Definition server_settles (s : Sys Ext C) : Step * Sys Ext C :=
  match server s with
  | Binding =>
    match bind_error with
    | Some _ => (Exit 1, s)
    | None => (Continue, mkSys (pg s) (chain s) (payment s) (jobs s) Listening)
    end
  | _ => (Continue, s)
  end.

End Steps.
End Startup.

(* ===================================================================== *)
(** ** Further vocabulary for the properties                              *)
(* ===================================================================== *)

Module Words.

(** The one kind of rail call each method of the payment service can make,
    with the arguments it passes. *)
Definition rail_call_of (op : Mnee.Op) (c : Mnee.RailCall) : Prop :=
  match op, c with
  | Mnee.OpInitialize, Mnee.CallConfig => True
  | Mnee.OpSendPayment r a _, Mnee.CallTransfer request _ => request = [(r, a)]
  | Mnee.OpGetBalance, Mnee.CallBalance _ => True
  | Mnee.OpRequestFromFaucet, Mnee.CallFaucet _ => True
  | _, _ => False
  end.

(** An environment variable that is not set, or set to the empty string:
    what [!process.env.KEY] tests. *)
Definition unset (e : gmap string string) (key : string) : Prop :=
  e !! key = None \/ e !! key = Some "".

(** The error [initialize] throws when the SDK has no usable class. *)
Definition sdk_not_loaded : Js.Error :=
  Js.error "MNEE SDK not loaded. Please run: npm install @mnee/ts-sdk".

(** The columns an [INSERT] into the bounty table has to give: those
    declared [NOT NULL] that have no default and no sequence behind them. *)
Definition must_be_given (c : Db.Column) : bool :=
  Db.has_constraint Db.NOT_NULL c
  && match Db.default_of (Db.col_constraints c) with
     | None => true
     | Some _ => false
     end
  && match Db.col_type c with
     | Db.SERIAL => false
     | _ => true
     end.

Definition required_columns : list string :=
  map Db.col_name (List.filter must_be_given Db.bounties_columns).

(** The row an [INSERT] builds before the table checks it. *)
Definition new_row (t : Db.Table) (time : Z) (given : gmap string Db.Value)
  : gmap string Db.Value :=
  list_to_map (map (fun c => (Db.col_name c, Db.stored t time given c)) (Db.columns t)).

(** The indexes the script of [initDb] creates on the bounty table, by
    name and columns, and the columns they need. *)
Definition bounty_indexes : list (string * list string) :=
  flat_map (fun st => match st with
                      | Db.CREATE_INDEX _ name _ cols => [(name, cols)]
                      | Db.CREATE_TABLE _ _ => []
                      end) Db.initDb_script.

Definition plain_index (nc : string * list string) : Db.Stmt :=
  Db.CREATE_INDEX false (fst nc) "bounties" (snd nc).

Definition indexed_columns : list string := flat_map snd bounty_indexes.

(** A database on which the script has nothing left to do: the bounty
    table is there with the indexed columns, and so is a relation by the
    name of each index. *)
Definition settled (db : gmap string Db.Table) : Prop :=
  (exists t, db !! "bounties" = Some t
             /\ forallb (Db.has_column t) indexed_columns = true)
  /\ Forall (fun nc => Db.relation_exists (fst nc) db = true) bounty_indexes.

(** What a statement of the script leaves of a database: the other tables,
    and the columns, rows and sequence of a bounty table that was there. *)
Definition same_content (db db' : gmap string Db.Table) : Prop :=
  (forall name, name <> "bounties" -> db' !! name = db !! name)
  /\ forall t, db !! "bounties" = Some t ->
       exists ixs, db' !! "bounties"
                   = Some (Db.mkTable (Db.columns t) ixs (Db.rows t) (Db.next_serial t)).

End Words.

(* ===================================================================== *)
(** ** The web client's AuthProvider                                      *)
(* ===================================================================== *)

Module Auth.

Definition DEMO_MODE_KEY : string := "bounty_hunter_demo_mode".
Definition DEMO_ADMIN_KEY : string := "bounty_hunter_demo_admin".

(** The calls the provider makes on [api]. *)
Inductive ApiCall : Type :=
| GetToken
| GetCurrentUser
| SetToken (token : option string)
| GetAuthUrl
| Logout.

(** [@/lib/api] and the two users of [@/lib/mockData] are outside the
    sources: users are an abstract type with the two demo users in it, and
    [api] is an interface over its own state ([getToken] gives a string or
    [null]). *)
Class Api (User A : Type) : Type := {
  DEMO_USER : User;
  DEMO_ADMIN_USER : User;
  getToken : A -> option string;
  getCurrentUser : A -> Outcome User * A;
  setToken : option string -> A -> A;
  getAuthUrl : A -> Outcome string * A;
  logout_request : A -> Outcome unit * A
}.

(** The three pieces of React state (every update a setter has been
    called with applied; what a function of an earlier render still sees
    of them is a parameter of that function, see [logout]), the browser's
    [localStorage] and whether there is a [window], the state of [api] with
    the calls made on it (oldest first), and [window.location.href] once it
    has been assigned. *)
Record State (User A : Type) : Type := mkState {
  user : option User;
  loading : bool;
  isDemo : bool;
  localStorage : gmap string string;
  window : bool;
  api : A;
  api_calls : list ApiCall;
  href : option string
}.
Arguments mkState {User A}.
Arguments user {User A}.
Arguments loading {User A}.
Arguments isDemo {User A}.
Arguments localStorage {User A}.
Arguments window {User A}.
Arguments api {User A}.
Arguments api_calls {User A}.
Arguments href {User A}.

(** A call in flight, with the outcome its request will settle with:
    [refreshUser] at [await api.getCurrentUser()] (started by the mount
    effect, which then sets [loading], or not), [login] at
    [await api.getAuthUrl()], [logout] at [await api.logout()]. *)
Inductive Pending (User : Type) : Type :=
| AwaitUser (o : Outcome User) (from_init : bool)
| AwaitAuthUrl (o : Outcome string)
| AwaitLogout (o : Outcome unit).
Arguments AwaitUser {User}.
Arguments AwaitAuthUrl {User}.
Arguments AwaitLogout {User}.

(** The mounted provider: its state and the calls in flight. *)
Record Running (User A : Type) : Type := mkRunning {
  now : State User A;
  inflight : list (Pending User)
}.
Arguments mkRunning {User A}.
Arguments now {User A}.
Arguments inflight {User A}.

Section Provider.
Context {User A : Type} `{Api User A}.

Local Open Scope eff_scope.

(** [useState(null)], [useState(true)], [useState(false)]. *)
Definition mount (storage : gmap string string) (w : bool) (a : A) : State User A :=
  mkState None true false storage w a [] None.

Definition setUser (u : option User) : Eff (State User A) unit :=
  modify (fun s => mkState u (loading s) (isDemo s) (localStorage s) (window s) (api s)
                     (api_calls s) (href s)).
Definition setLoading (b : bool) : Eff (State User A) unit :=
  modify (fun s => mkState (user s) b (isDemo s) (localStorage s) (window s) (api s)
                     (api_calls s) (href s)).
Definition setIsDemo (b : bool) : Eff (State User A) unit :=
  modify (fun s => mkState (user s) (loading s) b (localStorage s) (window s) (api s)
                     (api_calls s) (href s)).
Definition setStorage (f : gmap string string -> gmap string string)
  : Eff (State User A) unit :=
  modify (fun s => mkState (user s) (loading s) (isDemo s) (f (localStorage s)) (window s)
                     (api s) (api_calls s) (href s)).
Definition setHref (url : string) : Eff (State User A) unit :=
  modify (fun s => mkState (user s) (loading s) (isDemo s) (localStorage s) (window s)
                     (api s) (api_calls s) (Some url)).

(** A call on [api]: logged, then run on its state. *)
Definition on_api {B} (c : ApiCall) (f : A -> Outcome B * A) : Eff (State User A) B :=
  fun s =>
    let '(o, a) := f (api s) in
    (o, mkState (user s) (loading s) (isDemo s) (localStorage s) (window s) a
          (api_calls s ++ [c])%list (href s)).

(** [asAdmin ? DEMO_ADMIN_USER : DEMO_USER]. *)
Definition demo_user (asAdmin : bool) : User :=
  if asAdmin then DEMO_ADMIN_USER else DEMO_USER.

(** [localStorage.getItem(key) === 'true']. *)
Definition is_true (storage : gmap string string) (key : string) : bool :=
  match storage !! key with
  | Some v => String.eqb v "true"
  | None => false
  end.

(** [!token]. *)
Definition no_token (token : option string) : bool :=
  match token with
  | Some t => String.eqb t ""
  | None => true
  end.

(** [refreshUser()]. *)
Definition refreshUser : Eff (State User A) unit :=
  try_catch
    (s <- get ;;
     if window s && is_true (localStorage s) DEMO_MODE_KEY then
       setIsDemo true ;;;
       setUser (Some (demo_user (is_true (localStorage s) DEMO_ADMIN_KEY)))
     else
       token <- on_api GetToken (fun a => (Returned (getToken a), a)) ;;
       if no_token token then setUser None
       else
         userData <- on_api GetCurrentUser getCurrentUser ;;
         setUser (Some userData))
    (fun error =>
       on_api (SetToken None) (fun a => (Returned tt, setToken None a)) ;;;
       setUser None).

(** The effect run on mount: [await refreshUser(); setLoading(false)]. *)
Definition init : Eff (State User A) unit :=
  refreshUser ;;; setLoading false.

(** [window.location.href = url]: a [ReferenceError] where there is no
    [window]. *)
Definition assign_href (url : string) : Eff (State User A) unit :=
  s <- get ;;
  if window s then setHref url
  else throw (Js.mkError "ReferenceError" "window is not defined").

(** [login()]. *)
Definition login : Eff (State User A) unit :=
  try_catch
    (authUrl <- on_api GetAuthUrl getAuthUrl ;; assign_href authUrl)
    (fun error => ret tt).

(** [exitDemoMode()]. *)
Definition exitDemoMode : Eff (State User A) unit :=
  s <- get ;;
  (if window s then
     setStorage (fun st => delete DEMO_ADMIN_KEY (delete DEMO_MODE_KEY st))
   else ret tt) ;;;
  setIsDemo false ;;;
  setUser None.

(** [enterDemoMode(asAdmin = false)]. *)
Definition enterDemoMode (asAdmin : bool) : Eff (State User A) unit :=
  s <- get ;;
  (if window s then
     setStorage (fun st =>
                   <[DEMO_ADMIN_KEY := if asAdmin then "true" else "false"]>
                     (<[DEMO_MODE_KEY := "true"]> st))
   else ret tt) ;;;
  setIsDemo true ;;;
  setUser (Some (demo_user asAdmin)).

(** [logout()].  The function is created at each render and tests the
    [isDemo] of that render, [isDemo_at_render], which is not always the
    current state: a state update shows in the functions of the next
    render only. *)
Definition logout (isDemo_at_render : bool) : Eff (State User A) unit :=
  try_catch
    (if isDemo_at_render then exitDemoMode
     else
       on_api Logout logout_request ;;;
       setUser None)
    (fun error => ret tt).

(** *** The provider event by event

    An [async] function runs without interruption up to its [await] on a
    request to [api]; what follows the [await] runs when the request
    settles, after whatever came in between.  A request is made when the
    function reaches it, and the outcome it will settle with is kept with
    the call in flight. *)

(** [refreshUser()] up to its [await]: [None] when it has returned before,
    else the outcome of the request it has sent. *)
Definition refreshUser_begin : Eff (State User A) (option (Outcome User)) :=
  s <- get ;;
  if window s && is_true (localStorage s) DEMO_MODE_KEY then
    setIsDemo true ;;;
    setUser (Some (demo_user (is_true (localStorage s) DEMO_ADMIN_KEY))) ;;;
    ret None
  else
    token <- on_api GetToken (fun a => (Returned (getToken a), a)) ;;
    if no_token token then setUser None ;;; ret None
    else
      fun s' =>
        let '(o, a) := getCurrentUser (api s') in
        (Returned (Some o),
         mkState (user s') (loading s') (isDemo s') (localStorage s') (window s') a
           (api_calls s' ++ [GetCurrentUser])%list (href s')).

(** [refreshUser()] from its [await] on. *)
Definition refreshUser_end (o : Outcome User) : Eff (State User A) unit :=
  match o with
  | Returned userData => setUser (Some userData)
  | Thrown error =>
    on_api (SetToken None) (fun a => (Returned tt, setToken None a)) ;;;
    setUser None
  end.

(** What runs when a call in flight settles. *)
Definition resume (p : Pending User) : Eff (State User A) unit :=
  match p with
  | AwaitUser o from_init =>
    refreshUser_end o ;;;
    (if from_init then setLoading false else ret tt)
  | AwaitAuthUrl (Returned authUrl) => try_catch (assign_href authUrl) (fun error => ret tt)
  | AwaitAuthUrl (Thrown error) => ret tt
  | AwaitLogout (Returned _) => setUser None
  | AwaitLogout (Thrown error) => ret tt
  end.

(** A request sent: logged and run on [api], its outcome kept. *)
Definition send {B} (c : ApiCall) (f : A -> Outcome B * A) (s : State User A)
  : Outcome B * State User A :=
  let '(o, a) := f (api s) in
  (o, mkState (user s) (loading s) (isDemo s) (localStorage s) (window s) a
        (api_calls s ++ [c])%list (href s)).

(** The provider once mounted: the mount effect has called [refreshUser],
    and [setLoading(false)] follows when that has returned. *)
Definition mounted (storage : gmap string string) (w : bool) (a : A) : Running User A :=
  match refreshUser_begin (mount storage w a) with
  | (Returned (Some o), s) => mkRunning s [AwaitUser o true]
  | (_, s) => mkRunning (snd (setLoading false s)) []
  end.

(** What can happen to the mounted provider: a consumer calls one of the
    functions of the context ([logout] with the [isDemo] of the render it
    was taken from), or a call in flight settles. *)
Inductive Event : Type :=
| RefreshUser
| Login
| LogoutEvent (isDemo_at_render : bool)
| EnterDemoMode (asAdmin : bool)
| ExitDemoMode
| Settle (i : nat).

Definition handle (ev : Event) (r : Running User A) : Running User A :=
  match ev with
  | RefreshUser =>
    match refreshUser_begin (now r) with
    | (Returned (Some o), s) => mkRunning s (inflight r ++ [AwaitUser o false])
    | (_, s) => mkRunning s (inflight r)
    end
  | Login =>
    let '(o, s) := send GetAuthUrl getAuthUrl (now r) in
    mkRunning s (inflight r ++ [AwaitAuthUrl o])
  | LogoutEvent true => mkRunning (snd (exitDemoMode (now r))) (inflight r)
  | LogoutEvent false =>
    let '(o, s) := send Logout logout_request (now r) in
    mkRunning s (inflight r ++ [AwaitLogout o])
  | EnterDemoMode asAdmin => mkRunning (snd (enterDemoMode asAdmin (now r))) (inflight r)
  | ExitDemoMode => mkRunning (snd (exitDemoMode (now r))) (inflight r)
  | Settle i =>
    match inflight r !! i with
    | Some p => mkRunning (snd (resume p (now r))) (delete i (inflight r))
    | None => r
    end
  end.

Fixpoint after (evs : list Event) (r : Running User A) : Running User A :=
  match evs with
  | [] => r
  | ev :: evs' => after evs' (handle ev r)
  end.

(** While in demo mode the demo flag is in [localStorage]. *)
Definition demo_flagged (s : State User A) : Prop :=
  isDemo s = true -> is_true (localStorage s) DEMO_MODE_KEY = true.

(** What leaves the window, the demo flag and [isDemo] as they are. *)
Definition same_mode (s s' : State User A) : Prop :=
  window s' = window s /\ isDemo s' = isDemo s /\ localStorage s' = localStorage s.

End Provider.
End Auth.

(* ===================================================================== *)
(** ** Further test doubles and concrete inputs                           *)
(* ===================================================================== *)

Module Fixtures.
Import Doubles.

#[local] Existing Instance runtime.
#[local] Existing Instance services.

(** *** The [Bounty] model's queries over the in-memory store *)

(** The documents a filter selects, newest first. *)
Definition matching (f : Reads.Filter) (m : Mem) : list Routes.Doc :=
  List.filter
    (fun d =>
       match Routes.field d "repository" with
       | Js.Str r => String.eqb r (Reads.f_repository f)
       | _ => false
       end
       && match Reads.f_status f, Routes.field d "status" with
          | None, _ => true
          | Some wanted, Js.Str st => String.eqb st wanted
          | Some _, _ => false
          end)
    (rev (map snd (docs m))).

Definition count_of (n : Js.Num) : option nat :=
  match n with
  | Js.Fin q => if Qle_bool 0 q then Some (Z.to_nat (Qfloor q)) else None
  | _ => None
  end.

(** A limit of 0 is no limit; a skip that is no count is refused. *)
Definition mem_find (f : Reads.Filter) (limit skip : Js.Num) (m : Mem)
  : Outcome (list Routes.Doc) :=
  match count_of skip with
  | None => Thrown (Js.error "Skip value must be non-negative")
  | Some s =>
    match count_of limit with
    | Some (S l) => Returned (firstn (S l) (skipn s (matching f m)))
    | _ => Returned (skipn s (matching f m))
    end
  end.

#[local] Instance model : Reads.Model Mem := {|
  Reads.toJSON := fun d => [("bountyId", Routes.field d "bountyId");
                            ("status", Routes.field d "status")];
  Reads.find := mem_find;
  Reads.countDocuments := fun f m => Returned (length (matching f m))
|}.

(** *** Payment SDKs that fail *)

(** A package whose module has no default export. *)
Definition sdk_without_default : Mnee.Sdk nat := {|
  Mnee.sdk_import := fun _ => Returned None;
  Mnee.sdk_new := fun c _ => Returned c;
  Mnee.sdk_config := fun _ x => (Returned (Some demo_config), S x);
  Mnee.sdk_transfer := fun _ _ _ x => (Returned (Mnee.mkTransferResult (Js.Str "tx")), S x);
  Mnee.sdk_balance := fun _ _ x => (Returned (Mnee.mkSdkBalance (Js.Fin 50) None), S x);
  Mnee.sdk_faucet := fun _ _ x => (Returned (Js.Object "{}"), S x);
  Mnee.toAtomicAmount := fun _ => scale 100000;
  Mnee.fromAtomicAmount := fun _ => scale (1 # 100000)
|}.

(** A wallet holding 5 MNEE and a faucet that rejects every request. *)
Definition sdk_dry_faucet : Mnee.Sdk nat := {|
  Mnee.sdk_import := fun _ => Returned (Some Mnee.MneeClass);
  Mnee.sdk_new := fun c _ => Returned c;
  Mnee.sdk_config := fun _ x => (Returned (Some demo_config), S x);
  Mnee.sdk_transfer := fun _ _ _ x => (Returned (Mnee.mkTransferResult (Js.Str "tx")), S x);
  Mnee.sdk_balance := fun _ _ x => (Returned (Mnee.mkSdkBalance (Js.Fin 5) None), S x);
  Mnee.sdk_faucet := fun _ _ x => (Thrown (Js.error "faucet is dry"), S x);
  Mnee.toAtomicAmount := fun _ => scale 100000;
  Mnee.fromAtomicAmount := fun _ => scale (1 # 100000)
|}.

(** *** An [api] over the stored token *)

(** The token [good] belongs to [alice]; any other token is refused. *)
#[local] Instance api : Auth.Api string (option string) := {|
  Auth.DEMO_USER := "demo-user";
  Auth.DEMO_ADMIN_USER := "demo-admin";
  Auth.getToken := fun a => a;
  Auth.getCurrentUser := fun a =>
    match a with
    | Some "good" => (Returned "alice", a)
    | _ => (Thrown (Js.error "Unauthorized"), a)
    end;
  Auth.setToken := fun t _ => t;
  Auth.getAuthUrl := fun a => (Returned "https://github.test/login/oauth/authorize", a);
  Auth.logout_request := fun a => (Returned tt, None)
|}.

(** *** Concrete inputs *)

(** Only the API key is set: no wallet address, no WIF. *)
Definition api_key_only_env : gmap string string := {["MNEE_API_KEY" := "key-1"]}.

Definition sandbox_env : gmap string string :=
  <["MNEE_ENVIRONMENT" := "sandbox"]> configured_env.

(** The handlers' state once bounty 1 (amount 10) is created. *)
Definition after_create : Routes.HState Mem :=
  snd (Routes.post_create (creation (Js.Number (Js.Fin 10))) fresh).

(** The stored document of bounty 1 in that state. *)
Definition created_doc : Routes.Doc :=
  default ∅ (lookup_doc (Js.Fin 1) (Routes.world after_create)).

(** A creation request whose [maxAmount] is below its amount. *)
Definition creation_with_low_cap : gmap string Js.Val :=
  <["maxAmount" := Js.Number (Js.Fin 1)]> (creation (Js.Number (Js.Fin 10))).

(** The first page of two bounties; a page size of 0. *)
Definition first_page_of_two : gmap string string :=
  list_to_map [("limit", "2"); ("page", "1")].

Definition page_size_zero : gmap string string := {["limit" := "0"]}.

(** What the model finds for that first page among the active bounties of
    [octo/repo], once bounty 1 is created. *)
Definition found_page : list Routes.Doc :=
  match Reads.find (Reads.mkFilter "octo/repo" (Some "active")) (Js.Fin (inject_Z 2))
          (Js.num_mul (Reads.num_sub (Js.Fin (inject_Z 1)) (Js.Fin 1)) (Js.Fin (inject_Z 2)))
          (Routes.world after_create) with
  | Returned ds => ds
  | Thrown _ => []
  end.

(** A second bounty row whose status is [active] followed by 50 blanks,
    six characters more than the column takes, and whose maximum amount is
    given as an integer. *)
Definition blanks (n : nat) : string := string_of_list_ascii (repeat " "%char n).

Definition padded_row : gmap string Db.Value :=
  <["status" := Db.VText ("active" ++ blanks 50)]>
    (<["max_amount" := Db.VInt 30]> (bounty_row 2)).

Definition padded_twice : gmap string Db.Table :=
  default ∅ (Db.insert "bounties" 101 padded_row one_bounty).

(** The stored row of bounty 1. *)
Definition stored_row : gmap string Db.Value :=
  default ∅ (head (Db.bounties one_bounty)).

(** A database of an earlier version of the bot: its bounty table has no
    [last_escalation] column and no index, and holds bounty 1. *)
Definition legacy_table : Db.Table :=
  Db.mkTable
    (filter (fun c => negb (String.eqb (Db.col_name c) "last_escalation"))
       Db.bounties_columns)
    [] [delete "last_escalation" stored_row] 2.

Definition legacy_db : gmap string Db.Table := {["bounties" := legacy_table]}.

(** A browser with a stored token of [alice] and no demo keys. *)
Definition signed_in_browser : Auth.State string (option string) :=
  Auth.mount ∅ true (Some "good").

End Fixtures.

(* ===================================================================== *)
(** * Properties                                                          *)
(* ===================================================================== *)

(** Unfolds the monadic plumbing so that a run on a state reduces to the
    case analysis the source makes. *)
Ltac run_eff :=
  unfold bind, ret, throw, try_catch, get, modify in *; cbn beta iota in *.

(** ** Doubles *)

Module DoubleFacts.
Import Js.

Local Open Scope Q_scope.

Lemma pow2_pos (e : Z) : 0 < pow2 e.
Proof. apply Qpower_0_lt. reflexivity. Qed.

Lemma pow2_add (a b : Z) : pow2 (a + b) == pow2 a * pow2 b.
Proof. apply Qpower_plus. discriminate. Qed.

Lemma pow2_le (a b : Z) : (a <= b)%Z -> pow2 a <= pow2 b.
Proof. intros H. apply Qpower_le_compat_l; [exact H|]. discriminate. Qed.

Lemma pow2_lt_inv (a b : Z) : pow2 a < pow2 b -> (a < b)%Z.
Proof. intros H. apply (Qpower_lt_compat_l_inv 2); [exact H|]. reflexivity. Qed.

Lemma pow2_Z (n : Z) : (0 <= n)%Z -> pow2 n == inject_Z (2 ^ n).
Proof. intros H. unfold pow2. rewrite Zpower_Qpower by exact H. reflexivity. Qed.

Lemma pow2_succ (a : Z) : pow2 (a + 1) == 2 * pow2 a.
Proof. rewrite pow2_add. change (pow2 1) with 2. ring. Qed.

Lemma pow2_pred (a : Z) : pow2 a == 2 * pow2 (a - 1).
Proof. rewrite <- pow2_succ. replace (a - 1 + 1)%Z with a by lia. reflexivity. Qed.

(** The exponent of a positive rational. *)
Lemma ilog2_spec (q : Q) : 0 < q -> pow2 (ilog2 q) <= q /\ q < pow2 (ilog2 q + 1).
Proof.
  intros Hq. destruct q as [n d]. unfold ilog2. cbn [Qnum Qden].
  assert (0 < n)%Z as Hn by (unfold Qlt in Hq; cbn in Hq; lia).
  set (a := Z.log2 n). set (b := Z.log2 (Zpos d)).
  assert (2 ^ a <= n < 2 ^ (a + 1))%Z as Ha.
  { pose proof (Z.log2_spec n Hn). replace (a + 1)%Z with (Z.succ a) by lia. exact H. }
  assert (2 ^ b <= Zpos d < 2 ^ (b + 1))%Z as Hb.
  { pose proof (Z.log2_spec (Zpos d) eq_refl). replace (b + 1)%Z with (Z.succ b) by lia.
    exact H. }
  assert (0 <= a)%Z as Ha0 by apply Z.log2_nonneg.
  assert (0 <= b)%Z as Hb0 by apply Z.log2_nonneg.
  assert (n # d == inject_Z n / inject_Z (Zpos d)) as Hnd by apply Qmake_Qdiv.
  assert (0 < inject_Z (Zpos d)) as Hd by reflexivity.
  (* pow2 (a - b - 1) < n/d < pow2 (a - b + 1) *)
  assert (pow2 (a - b + 1) * inject_Z (Zpos d) > inject_Z n) as Hup.
  { replace (a - b + 1)%Z with ((a + 1) + - b)%Z by lia.
    rewrite pow2_add. unfold pow2 at 2. rewrite Qpower_opp. fold (pow2 b).
    rewrite (pow2_Z (a + 1)), (pow2_Z b) by lia.
    apply Qlt_le_trans with (inject_Z (2 ^ (a + 1)) * / inject_Z (2 ^ b) * inject_Z (2 ^ b)).
    - assert (~ inject_Z (2 ^ b) == 0) as Hnz.
      { intros E. apply (inject_Z_injective (2 ^ b) 0) in E. lia. }
      field_simplify; [|exact Hnz]. rewrite <- Zlt_Qlt. lia.
    - apply Qmult_le_l.
      + apply Qlt_le_trans with (inject_Z (2 ^ (a + 1)) * / inject_Z (2 ^ b)); [|apply Qle_refl].
        apply Qmult_lt_0_compat; [rewrite <- (Zlt_Qlt 0); lia|].
        apply Qinv_lt_0_compat. rewrite <- (Zlt_Qlt 0). lia.
      + rewrite <- Zle_Qle. lia. }
  assert (pow2 (a - b - 1) * inject_Z (Zpos d) < inject_Z n) as Hlo.
  { replace (a - b - 1)%Z with (a + - (b + 1))%Z by lia.
    rewrite pow2_add. unfold pow2 at 2. rewrite Qpower_opp. fold (pow2 (b + 1)).
    rewrite (pow2_Z a), (pow2_Z (b + 1)) by lia.
    apply Qlt_le_trans with (inject_Z (2 ^ a) * / inject_Z (2 ^ (b + 1)) * inject_Z (2 ^ (b + 1))).
    - apply Qmult_lt_l.
      + apply Qmult_lt_0_compat; [rewrite <- (Zlt_Qlt 0); lia|].
        apply Qinv_lt_0_compat. rewrite <- (Zlt_Qlt 0). lia.
      + rewrite <- Zlt_Qlt. lia.
    - assert (~ inject_Z (2 ^ (b + 1)) == 0) as Hnz.
      { intros E. apply (inject_Z_injective (2 ^ (b + 1)) 0) in E. lia. }
      field_simplify; [|exact Hnz]. rewrite <- Zle_Qle. lia. }
  assert (forall c : Q, c * inject_Z (Zpos d) <= inject_Z n <-> c <= n # d) as Hle.
  { intros c. rewrite Hnd. split; intros H.
    - apply Qle_shift_div_l; assumption.
    - apply Qle_shift_div_l in H || idtac.
      apply (Qmult_le_r _ _ (/ inject_Z (Zpos d))); [apply Qinv_lt_0_compat; exact Hd|].
      rewrite <- Qmult_assoc, Qmult_inv_r, Qmult_1_r by (intros E; rewrite E in Hd; discriminate).
      exact H. }
  assert (forall c : Q, inject_Z n < c * inject_Z (Zpos d) <-> n # d < c) as Hlt.
  { intros c. rewrite Hnd. split; intros H.
    - apply Qlt_shift_div_r; assumption.
    - apply (Qmult_lt_r _ _ (/ inject_Z (Zpos d))); [apply Qinv_lt_0_compat; exact Hd|].
      rewrite <- Qmult_assoc, Qmult_inv_r, Qmult_1_r by (intros E; rewrite E in Hd; discriminate).
      exact H. }
  destruct (Qle_bool (pow2 (a - b)) (n # d)) eqn:Hk.
  - apply Qle_bool_iff in Hk. split; [exact Hk|]. apply Hlt. exact Hup.
  - assert (~ pow2 (a - b) <= n # d) as Hk'
      by (intros H; apply Qle_bool_iff in H; congruence).
    apply Qnot_le_lt in Hk'. replace (a - b - 1 + 1)%Z with (a - b)%Z by lia.
    split; [|exact Hk']. apply Hle. apply Qlt_le_weak. exact Hlo.
Qed.

Lemma ilog2_mono (x y : Q) : 0 < x -> x <= y -> (ilog2 x <= ilog2 y)%Z.
Proof.
  intros Hx Hxy.
  destruct (ilog2_spec x Hx) as [Hlo _].
  destruct (ilog2_spec y (Qlt_le_trans _ _ _ Hx Hxy)) as [_ Hup].
  assert (pow2 (ilog2 x) < pow2 (ilog2 y + 1)) as H.
  { eapply Qle_lt_trans; [exact Hlo|]. eapply Qle_lt_trans; [exact Hxy|exact Hup]. }
  apply pow2_lt_inv in H. lia.
Qed.

Lemma ilog2_unique (x : Q) (e : Z) : pow2 e <= x -> x < pow2 (e + 1) -> ilog2 x = e.
Proof.
  intros Hlo Hup.
  assert (0 < x) as Hx by (eapply Qlt_le_trans; [apply (pow2_pos e)|exact Hlo]).
  destruct (ilog2_spec x Hx) as [Hlo' Hup'].
  assert (pow2 e < pow2 (ilog2 x + 1)) as H1 by (eapply Qle_lt_trans; eassumption).
  assert (pow2 (ilog2 x) < pow2 (e + 1)) as H2 by (eapply Qle_lt_trans; eassumption).
  apply pow2_lt_inv in H1, H2. lia.
Qed.

Lemma round_half_even_comp (x y : Q) : x == y -> round_half_even x = round_half_even y.
Proof.
  intros E. unfold round_half_even.
  assert (Qfloor x = Qfloor y) as -> by (apply Qfloor_comp; exact E).
  assert (Qcompare (x - inject_Z (Qfloor y)) (1 # 2)
          = Qcompare (y - inject_Z (Qfloor y)) (1 # 2)) as ->; [|reflexivity].
  apply Qcompare_comp; [rewrite E; reflexivity|reflexivity].
Qed.

Lemma round_half_even_floor (x : Q) :
  (Qfloor x <= round_half_even x <= Qfloor x + 1)%Z.
Proof.
  unfold round_half_even. destruct (Qcompare _ _); [destruct (Z.even _)| |]; lia.
Qed.

Lemma round_half_even_Z (z : Z) : round_half_even (inject_Z z) = z.
Proof.
  unfold round_half_even. rewrite Qfloor_Z.
  assert (Qcompare (inject_Z z - inject_Z z) (1 # 2) = Lt) as ->; [|reflexivity].
  apply Qlt_alt. setoid_replace (inject_Z z - inject_Z z) with 0 using relation Qeq by ring. reflexivity.
Qed.

Lemma round_half_even_ge (x : Q) (z : Z) : inject_Z z <= x -> (z <= round_half_even x)%Z.
Proof.
  intros H. apply Qfloor_resp_le in H. rewrite Qfloor_Z in H.
  pose proof (round_half_even_floor x). lia.
Qed.

Lemma round_nonzero (q : Q) :
  ~ q == 0 ->
  round q
  = let u := ulp_exponent q in
    let r := Qred (inject_Z (round_half_even (q / pow2 u)) * pow2 u) in
    if Qle_bool (pow2 1024) (Qabs r) then Inf (negative q) else Fin r.
Proof.
  intros Hq. unfold round. destruct (Qeq_bool q 0) eqn:E; [|reflexivity].
  apply Qeq_bool_iff in E. contradiction.
Qed.

Lemma negative_pos (q : Q) : 0 < q -> negative q = false.
Proof.
  intros H. unfold negative. apply negb_false_iff, Qle_bool_iff, Qlt_le_weak, H.
Qed.

Lemma pow2_nz (e : Z) : ~ pow2 e == 0.
Proof. intros E. pose proof (pow2_pos e) as H. rewrite E in H. discriminate. Qed.

Lemma Qabs_nonneg_eq (q : Q) : 0 <= q -> Qabs q = q.
Proof.
  destruct q as [n d]. unfold Qle. cbn. intros H. rewrite Z.abs_eq by lia. reflexivity.
Qed.

(** A double that is positive is not above three times itself as the
    machine computes it. *)
Lemma triple_not_below (q : Q) :
  0 < q -> is_double q = true -> num_le (Fin q) (num_mul (Fin q) (Fin 3)) = true.
Proof.
  intros Hq Hd.
  assert (0 < q * 3) as Hx by lra.
  assert (q <= q * 3) as Hqx by lra.
  cbn [num_mul]. rewrite round_nonzero by (intros E; rewrite E in Hx; discriminate).
  cbv zeta. rewrite (negative_pos _ Hx).
  destruct (Qle_bool (pow2 1024) _); [reflexivity|].
  unfold num_le, num_ge. apply Qle_bool_iff. rewrite Qred_correct.
  unfold ulp_exponent. rewrite (Qabs_nonneg_eq (q * 3)) by lra.
  destruct (ilog2_spec (q * 3) Hx) as [Hlo Hup].
  set (e' := ilog2 (q * 3)) in *.
  destruct (Z.max_spec (e' - 52) (-1074)) as [[Hcmp ->]|[Hcmp ->]].
  - (* subnormal range: the double [q] is a multiple of the least one *)
    unfold is_double in Hd.
    rewrite round_nonzero in Hd by (intros E; rewrite E in Hq; discriminate).
    cbv zeta in Hd. destruct (Qle_bool (pow2 1024) _) in Hd; [discriminate|].
    apply Qeq_bool_iff in Hd. rewrite Qred_correct in Hd.
    assert (ulp_exponent q = (-1074)%Z) as Hu.
    { unfold ulp_exponent. rewrite (Qabs_nonneg_eq q) by lra.
      pose proof (ilog2_mono q (q * 3) Hq Hqx). fold e' in H. lia. }
    rewrite Hu in Hd.
    set (m := round_half_even (q / pow2 (-1074))) in *.
    assert (q * 3 / pow2 (-1074) == inject_Z (m * 3)) as Hm.
    { rewrite inject_Z_mult. rewrite <- Hd at 1. field. apply pow2_nz. }
    rewrite (round_half_even_comp _ _ Hm), round_half_even_Z.
    rewrite inject_Z_mult. rewrite <- Hd at 1. ring_simplify.
    assert (0 <= inject_Z m * pow2 (-1074)) by (rewrite Hd; lra). lra.
  - (* normal range *)
    assert (inject_Z (2 ^ 52) <= q * 3 / pow2 (e' - 52)) as Hscaled.
    { apply Qle_shift_div_l; [apply pow2_pos|].
      rewrite <- (pow2_Z 52) by lia. rewrite <- pow2_add.
      replace (52 + (e' - 52))%Z with e' by lia. exact Hlo. }
    apply round_half_even_ge in Hscaled.
    apply Qle_trans with (inject_Z (2 ^ 52) * pow2 (e' - 52)).
    + rewrite <- (pow2_Z 52) by lia. rewrite <- pow2_add.
      replace (52 + (e' - 52))%Z with e' by lia.
      rewrite pow2_succ in Hup. lra.
    + apply Qmult_le_r; [apply pow2_pos|]. rewrite <- Zle_Qle. exact Hscaled.
Qed.

Lemma Qabs_0_lt (q : Q) : ~ q == 0 -> 0 < Qabs q.
Proof.
  intros Hq. destruct (Qlt_le_dec 0 (Qabs q)) as [H|H]; [exact H|].
  exfalso. apply Hq. apply Qabs_Qle_condition in H. lra.
Qed.

Lemma ilog2_comp (x y : Q) : 0 < x -> x == y -> ilog2 x = ilog2 y.
Proof.
  intros Hx E. destruct (ilog2_spec x Hx) as [Hlo Hup].
  symmetry. apply ilog2_unique; rewrite <- E; assumption.
Qed.

Lemma negative_comp (x y : Q) : x == y -> negative x = negative y.
Proof.
  intros E. unfold negative. f_equal.
  destruct (Qle_bool 0 x) eqn:Hx, (Qle_bool 0 y) eqn:Hy; try reflexivity.
  - apply Qle_bool_iff in Hx. rewrite E in Hx. apply Qle_bool_iff in Hx. congruence.
  - apply Qle_bool_iff in Hy. rewrite <- E in Hy. apply Qle_bool_iff in Hy. congruence.
Qed.

Lemma Qle_bool_comp (a b c d : Q) : a == b -> c == d -> Qle_bool a c = Qle_bool b d.
Proof.
  intros E1 E2.
  destruct (Qle_bool a c) eqn:H1, (Qle_bool b d) eqn:H2; try reflexivity.
  - apply Qle_bool_iff in H1. rewrite E1, E2 in H1. apply Qle_bool_iff in H1. congruence.
  - apply Qle_bool_iff in H2. rewrite <- E1, <- E2 in H2. apply Qle_bool_iff in H2. congruence.
Qed.

(** Rounding depends on the value only, not on the fraction that denotes
    it. *)
Lemma round_comp (x y : Q) : x == y -> round x = round y.
Proof.
  intros E. unfold round.
  destruct (Qeq_bool x 0) eqn:Hx, (Qeq_bool y 0) eqn:Hy; try reflexivity.
  - apply Qeq_bool_iff in Hx. rewrite E in Hx. apply Qeq_bool_iff in Hx. congruence.
  - apply Qeq_bool_iff in Hy. rewrite <- E in Hy. apply Qeq_bool_iff in Hy. congruence.
  - assert (~ x == 0) as Hnz by (intros H; apply Qeq_bool_iff in H; congruence).
    assert (ulp_exponent x = ulp_exponent y) as Hu.
    { unfold ulp_exponent. f_equal. f_equal.
      apply ilog2_comp; [apply Qabs_0_lt, Hnz|rewrite E; reflexivity]. }
    cbv zeta. rewrite Hu.
    assert (round_half_even (x / pow2 (ulp_exponent y))
            = round_half_even (y / pow2 (ulp_exponent y))) as ->
      by (apply round_half_even_comp; rewrite E; reflexivity).
    rewrite (negative_comp x y E). reflexivity.
Qed.

Lemma Qred_inject_Z (z : Z) : Qred (inject_Z z) = inject_Z z.
Proof.
  unfold Qred, inject_Z.
  pose proof (Z.ggcd_gcd z 1) as Hg. pose proof (Z.ggcd_correct_divisors z 1) as Hd.
  destruct (Z.ggcd z 1) as [g [a b]]. cbn in *. rewrite Z.gcd_1_r in Hg. subst g.
  destruct Hd as [Ha Hb]. replace a with z by lia. replace b with 1%Z by lia. reflexivity.
Qed.

(** What [round] gives for a value that is [k] units of its last place,
    below the overflow threshold. *)
Lemma round_on_grid (q : Q) (k : Z) :
  ~ q == 0 ->
  q / pow2 (ulp_exponent q) == inject_Z k ->
  Qabs q < pow2 1024 ->
  round q = Fin (Qred q).
Proof.
  intros Hnz Hk Hbound. rewrite round_nonzero by exact Hnz. cbv zeta.
  rewrite (round_half_even_comp _ _ Hk), round_half_even_Z.
  assert (inject_Z k * pow2 (ulp_exponent q) == q) as Hq.
  { rewrite <- Hk. field. apply pow2_nz. }
  rewrite (Qred_complete _ _ Hq).
  assert (Qle_bool (pow2 1024) (Qabs (Qred q)) = false) as ->; [|reflexivity].
  destruct (Qle_bool _ _) eqn:H; [|reflexivity].
  apply Qle_bool_iff in H. rewrite Qred_correct in H. lra.
Qed.

(** The integers up to [2^53] in magnitude are doubles. *)
Lemma round_integer (z : Z) :
  (Z.abs z <= 2 ^ 53)%Z -> round (inject_Z z) = Fin (inject_Z z).
Proof.
  intros Hz. destruct (Z.eq_dec z 0%Z) as [->|Hnz]; [reflexivity|].
  rewrite <- (Qred_inject_Z z) at 2.
  assert (~ inject_Z z == 0) as Hq.
  { intros E. apply (inject_Z_injective z 0) in E. contradiction. }
  assert (Qabs (inject_Z z) = inject_Z (Z.abs z)) as Habs by reflexivity.
  assert (1 <= inject_Z (Z.abs z)) as H1
    by (change 1 with (inject_Z 1); rewrite <- Zle_Qle; lia).
  assert (inject_Z (Z.abs z) <= inject_Z (2 ^ 53)) as H53 by (rewrite <- Zle_Qle; exact Hz).
  destruct (ilog2_spec (inject_Z (Z.abs z))) as [Hlo Hup]; [lra|].
  set (e := ilog2 (inject_Z (Z.abs z))) in *.
  assert (0 <= e <= 53)%Z as He.
  { split.
    - assert (pow2 0 < pow2 (e + 1)) as H by (change (pow2 0) with 1; lra).
      apply pow2_lt_inv in H. lia.
    - assert (pow2 e < pow2 54) as H.
      { eapply Qle_lt_trans; [exact Hlo|]. eapply Qle_lt_trans; [exact H53|].
        rewrite (pow2_Z 54) by lia. rewrite <- Zlt_Qlt. reflexivity. }
      apply pow2_lt_inv in H. lia. }
  assert (ulp_exponent (inject_Z z) = (e - 52)%Z) as Hu.
  { unfold ulp_exponent. rewrite Habs. fold e. lia. }
  assert (Qabs (inject_Z z) < pow2 1024) as Hbound.
  { rewrite Habs. eapply Qle_lt_trans; [exact H53|].
    rewrite (pow2_Z 1024) by lia. rewrite <- Zlt_Qlt. reflexivity. }
  destruct (Z.eq_dec e 53%Z) as [He53|He53].
  - (* the magnitude is 2^53 itself *)
    assert (Z.abs z = 2 ^ 53)%Z as Hmag.
    { rewrite He53, (pow2_Z 53) in Hlo by lia. rewrite <- Zle_Qle in Hlo. lia. }
    apply (round_on_grid _ (z / 2)); [exact Hq| |exact Hbound].
    rewrite Hu, He53. change (pow2 (53 - 52)) with 2.
    assert (z = 2 * (z / 2))%Z as Heven.
    { destruct (Z.abs_spec z) as [[_ E]|[_ E]]; rewrite E in Hmag.
      - rewrite Hmag. reflexivity.
      - replace z with (- 2 ^ 53)%Z by lia. reflexivity. }
    rewrite Heven at 1. rewrite inject_Z_mult. field.
  - apply (round_on_grid _ (z * 2 ^ (52 - e))); [exact Hq| |exact Hbound].
    rewrite Hu. rewrite inject_Z_mult, <- (pow2_Z (52 - e)) by lia.
    replace (e - 52)%Z with (- (52 - e))%Z by lia.
    unfold pow2 at 1. rewrite Qpower_opp. fold (pow2 (52 - e)).
    field. apply pow2_nz.
Qed.

(** The results of [round] are fractions in lowest terms. *)
Lemma round_canonical (x r : Q) : round x = Fin r -> Qred r = r.
Proof.
  unfold round. destruct (Qeq_bool x 0).
  - intros E. injection E as <-. reflexivity.
  - cbv zeta. destruct (Qle_bool _ _); [discriminate|].
    intros E. injection E as <-. apply Qred_complete, Qred_correct.
Qed.

(** A double is what [round] gives for it. *)
Lemma is_double_round (x : Q) : is_double x = true -> round x = Fin (Qred x).
Proof.
  unfold is_double. destruct (round x) as [|r|] eqn:Hr; try discriminate.
  intros E. apply Qeq_bool_iff in E.
  rewrite <- (round_canonical x r Hr). f_equal. apply Qred_complete, E.
Qed.

Lemma round_half_even_error (x : Q) : Qabs (inject_Z (round_half_even x) - x) <= 1 # 2.
Proof.
  pose proof (Qfloor_le x) as Hlo. pose proof (Qlt_floor x) as Hup.
  rewrite inject_Z_plus in Hup. change (inject_Z 1) with 1 in Hup.
  apply Qabs_Qle_condition. unfold round_half_even.
  destruct (Qcompare (x - inject_Z (Qfloor x)) (1 # 2)) eqn:Hc.
  - apply Qeq_alt in Hc. destruct (Z.even (Qfloor x));
      rewrite ?inject_Z_plus; change (inject_Z 1) with 1; lra.
  - apply Qlt_alt in Hc. lra.
  - apply Qgt_alt in Hc. rewrite inject_Z_plus. change (inject_Z 1) with 1. lra.
Qed.

(** A finite result of [round] is within half a unit in the last place of
    the exact value. *)
Lemma round_error (x r : Q) :
  round x = Fin r -> Qabs (r - x) <= pow2 (ulp_exponent x) * (1 # 2).
Proof.
  unfold round. destruct (Qeq_bool x 0) eqn:Hz.
  - intros E. injection E as <-. apply Qeq_bool_iff in Hz.
    apply Qabs_Qle_condition. pose proof (pow2_pos (ulp_exponent x)). lra.
  - cbv zeta. destruct (Qle_bool _ _); [discriminate|].
    intros E. injection E as <-. rewrite Qred_correct.
    set (u := ulp_exponent x). pose proof (pow2_pos u) as Hu.
    pose proof (round_half_even_error (x / pow2 u)) as He.
    set (m := inject_Z (round_half_even (x / pow2 u))) in *.
    setoid_replace (m * pow2 u - x) with ((m - x / pow2 u) * pow2 u) using relation Qeq
      by (field; apply pow2_nz).
    rewrite Qabs_Qmult, (Qabs_pos (pow2 u)) by lra.
    rewrite (Qmult_comm (pow2 u)). apply Qmult_le_compat_r; lra.
Qed.

(** The boolean comparison decides the order. *)
Lemma num_le_spec (a b : Num) : num_le a b = true <-> le a b.
Proof.
  unfold num_le, num_ge. split.
  - destruct a as [|x|[|]], b as [|y|[|]]; try discriminate; intros H;
      try (constructor; fail).
    + constructor. apply Qle_bool_iff, H.
    + constructor. reflexivity.
    + constructor. reflexivity.
    + constructor. reflexivity.
  - intros H. destruct H as [x y H|x|x|[|] [|] H]; try reflexivity; try discriminate.
    apply Qle_bool_iff, H.
Qed.

End DoubleFacts.

(** ** The matcher *)

Module RegexFacts.
Import Regex.

Lemma required_spec (c : CharClass) (n : nat) (k : list ascii -> bool) (s : list ascii) :
  required c n k s = true <->
  exists s1 s2, s = (s1 ++ s2)%list /\ length s1 = n
                /\ forallb (in_class c) s1 = true /\ k s2 = true.
Proof.
  revert s. induction n as [|n IH]; intros s; cbn.
  - split.
    + intros Hk. exists [], s. auto.
    + intros (s1 & s2 & -> & Hlen & _ & Hk). destruct s1; [exact Hk|discriminate].
  - destruct s as [|ch s].
    + split; [discriminate|].
      intros (s1 & s2 & Hs & Hlen & _). destruct s1; discriminate.
    + rewrite andb_true_iff, IH. split.
      * intros (Hch & s1 & s2 & -> & Hlen & Hall & Hk).
        exists (ch :: s1), s2. cbn. rewrite Hch, Hall, Hlen. auto.
      * intros (s1 & s2 & Hs & Hlen & Hall & Hk).
        destruct s1 as [|ch' s1]; [discriminate|].
        cbn in Hs, Hlen, Hall. injection Hs as <- ->. injection Hlen as Hlen.
        apply andb_true_iff in Hall as [Hch Hall].
        split; [exact Hch|]. exists s1, s2. auto.
Qed.

Lemma optional_spec (c : CharClass) (n : nat) (k : list ascii -> bool) (s : list ascii) :
  optional c n k s = true <->
  exists s1 s2, s = (s1 ++ s2)%list /\ (length s1 <= n)%nat
                /\ forallb (in_class c) s1 = true /\ k s2 = true.
Proof.
  revert s. induction n as [|n IH]; intros s; cbn.
  - split.
    + intros Hk. exists [], s. auto.
    + intros (s1 & s2 & -> & Hlen & _ & Hk).
      destruct s1; [exact Hk|cbn in Hlen; lia].
  - assert (k s = true -> exists s1 s2, s = (s1 ++ s2)%list /\ (length s1 <= S n)%nat
                          /\ forallb (in_class c) s1 = true /\ k s2 = true) as Hskip.
    { intros Hk. exists [], s. cbn. repeat split; auto; lia. }
    destruct s as [|ch s].
    + split; [exact Hskip|].
      intros (s1 & s2 & Hs & _ & _ & Hk).
      destruct s1; [|discriminate]. cbn in Hs. subst s2. exact Hk.
    + rewrite orb_true_iff, andb_true_iff, IH. split.
      * intros [(Hch & s1 & s2 & -> & Hlen & Hall & Hk)|Hk]; [|exact (Hskip Hk)].
        exists (ch :: s1), s2. cbn. rewrite Hch, Hall. repeat split; auto; lia.
      * intros (s1 & s2 & Hs & Hlen & Hall & Hk).
        destruct s1 as [|ch' s1].
        -- right. cbn in Hs. subst s2. exact Hk.
        -- left. cbn in Hs, Hlen, Hall. injection Hs as <- ->.
           apply andb_true_iff in Hall as [Hch Hall].
           split; [exact Hch|]. exists s1, s2. repeat split; auto; lia.
Qed.

Lemma at_end_spec (s : list ascii) : match_items [] s = true <-> s = [].
Proof. destruct s; cbn; split; congruence. Qed.

(** The backtracking matcher decides the language of the pattern. *)
Lemma match_items_spec (p : Anchored) (s : list ascii) :
  match_items p s = true <-> matches p s.
Proof.
  revert s. induction p as [|i p IH]; intros s.
  - apply at_end_spec.
  - cbn [match_items matches]. rewrite required_spec. split.
    + intros (s1 & s2 & -> & Hlen & Hall & Hopt).
      apply optional_spec in Hopt as (s3 & s4 & -> & Hlen' & Hall' & Hk).
      exists (s1 ++ s3)%list, s4. rewrite <- app_assoc, length_app, forallb_app.
      rewrite Hall, Hall'. repeat split; auto; try lia. apply IH, Hk.
    + intros (s1 & s2 & -> & [Hlo Hhi] & Hall & Hk).
      exists (firstn (item_lo i) s1), (skipn (item_lo i) s1 ++ s2)%list.
      rewrite <- (firstn_skipn (item_lo i) s1) in Hall.
      rewrite forallb_app, andb_true_iff in Hall. destruct Hall as [Hall1 Hall2].
      rewrite app_assoc, firstn_skipn, length_firstn.
      repeat split; auto; try lia.
      apply optional_spec. exists (skipn (item_lo i) s1), s2.
      rewrite length_skipn. repeat split; auto; try lia. apply IH, Hk.
Qed.

End RegexFacts.

(** ** The payment service *)

Module MneeFacts.
Import Mnee.

Section Facts.
Context {Ext : Type} `{Sdk Ext} `{Js.Runtime}.

Lemma same_object_refl (s : State Ext) : same_object s s.
Proof. repeat split. Qed.

Lemma same_object_set_ext (s : State Ext) x c : same_object s (set_ext x c s).
Proof. repeat split. Qed.

#[local] Hint Resolve same_object_refl same_object_set_ext : core.

Lemma rail_same_object {A} (c : RailCall) (f : Ext -> Outcome A * Ext) (s : State Ext) :
  same_object s (snd (rail c f s)).
Proof. unfold rail. destruct (f (ext s)); cbn. auto. Qed.

Lemma sendPayment_same_object r a b (s : State Ext) :
  same_object s (snd (sendPayment r a b s)).
Proof.
  unfold sendPayment, getenv, this_mnee, rail. run_eff.
  destruct (initialized s); cbn; auto.
  destruct (Js.truthy _); cbn; auto.
  destruct (mnee s); cbn; auto.
  destruct (sdk_transfer _ _ _ _) as [[?|?] ?]; cbn; auto.
Qed.

Lemma getBalance_same_object (s : State Ext) : same_object s (snd (getBalance s)).
Proof.
  unfold getBalance, getenv, this_mnee, rail. run_eff.
  destruct (initialized s); cbn; auto.
  destruct (Js.truthy _); cbn; auto.
  destruct (mnee s); cbn; auto.
  destruct (sdk_balance _ _ _) as [[?|?] ?]; cbn; auto.
Qed.

Lemma calculateFee_unchanged a (s : State Ext) : snd (calculateFee a s) = s.
Proof.
  unfold calculateFee, this_mnee. run_eff.
  destruct (mneeConfig s); cbn; auto.
  destruct (mnee s) eqn:Hm; cbn; auto.
  destruct (find _ _); cbn; auto.
  rewrite Hm. reflexivity.
Qed.

Lemma validateAddress_unchanged a (s : State Ext) : snd (validateAddress a s) = s.
Proof. reflexivity. Qed.

Lemma requestFromFaucet_same_object (s : State Ext) :
  same_object s (snd (requestFromFaucet s)).
Proof.
  unfold requestFromFaucet, getenv, this_mnee, rail. run_eff.
  destruct (Js.strict_ne_str _ _); cbn; auto.
  destruct (Js.truthy _); cbn; auto.
  destruct (mnee s); cbn; auto.
  destruct (sdk_faucet _ _ _) as [[?|?] ?]; cbn; auto.
Qed.

(** Every method but [initialize] leaves the object as it is. *)
Lemma step_same_object (op : Op) (s : State Ext) :
  op <> OpInitialize -> same_object s (snd (step op s)).
Proof.
  intros Hop. destruct op; try congruence; unfold step; run_eff.
  - pose proof (sendPayment_same_object recipientAddress amount bountyId s) as Hs.
    destruct (sendPayment _ _ _ s) as [[?|?] ?]; exact Hs.
  - pose proof (getBalance_same_object s) as Hs.
    destruct (getBalance s) as [[?|?] ?]; exact Hs.
  - pose proof (calculateFee_unchanged amount s) as Hs.
    destruct (calculateFee amount s) as [[?|?] ?]; cbn in *; subst; auto.
  - cbn. auto.
  - pose proof (requestFromFaucet_same_object s) as Hs.
    destruct (requestFromFaucet s) as [[?|?] ?]; exact Hs.
Qed.

Lemma truthy_env_get (e : gmap string string) (k : string) :
  Js.truthy (Js.env_get e k) = true -> exists v, e !! k = Some v /\ v <> "".
Proof.
  unfold Js.env_get. destruct (e !! k) as [v|]; cbn; [|discriminate].
  intros Hv. exists v. split; [reflexivity|].
  intros ->. discriminate.
Qed.

Lemma loadMneeSdk_cases (s : State Ext) :
  match loadMneeSdk s with
  | (Returned (Some cls), s') =>
    cls = MneeClass /\ Mnee s' = Some MneeClass /\ sdkLoaded s' = true
    /\ mnee s' = mnee s /\ mneeConfig s' = mneeConfig s /\ initialized s' = initialized s
    /\ env s' = env s /\ ext s' = ext s /\ calls s' = calls s
  | (Returned None, s') =>
    mnee s' = mnee s /\ mneeConfig s' = mneeConfig s /\ initialized s' = initialized s
    /\ env s' = env s /\ ext s' = ext s /\ calls s' = calls s
  | (Thrown _, _) => False
  end.
Proof.
  unfold loadMneeSdk. run_eff.
  destruct (sdkLoaded s) eqn:Hl.
  - destruct (Mnee s) as [[]|] eqn:Hm; cbn; repeat split; auto.
  - destruct (sdk_import (ext s)) as [[[]|]|]; cbn; repeat split; auto.
Qed.

Lemma initialize_cases (s : State Ext) :
  match initialize s with
  | (Returned _, s') => init_succeeded s s'
  | (Thrown _, s') => init_failed s s'
  end.
Proof.
  unfold initialize. unfold bind at 1.
  pose proof (loadMneeSdk_cases s) as Hload.
  destruct (loadMneeSdk s) as [[[cls|]|e] s1]; [| |contradiction].
  - destruct Hload as (-> & HM & HL & Hmn & Hcfg & Hini & Henv & Hext & Hcalls).
    unfold getenv, this_mnee, rail. run_eff. rewrite Henv.
    destruct (Js.truthy (Js.env_get (env s) "MNEE_API_KEY")) eqn:Hkey; cbn.
    + apply truthy_env_get in Hkey as (key & Hk & Hne).
      assert (Js.env_get (env s) "MNEE_API_KEY" = Js.Str key) as ->
        by (unfold Js.env_get; rewrite Hk; reflexivity).
      rewrite Hext.
      destruct (sdk_new _ (ext s)) as [c|e] eqn:Hnew; cbn.
      * destruct (sdk_config c (ext s)) as [[cfg|e] x'] eqn:Hconfig; cbn.
        -- exists key, c, cfg, x'. cbn. rewrite Hcalls. repeat split; auto.
        -- unfold init_failed. cbn. repeat split; auto.
      * unfold init_failed. repeat split; auto.
    + unfold init_failed. repeat split; auto.
  - destruct Hload as (Hmn & Hcfg & Hini & Henv & Hext & Hcalls).
    cbn. unfold init_failed. repeat split; auto.
Qed.

Lemma initialize_or_not (op : Op) : op = OpInitialize \/ op <> OpInitialize.
Proof. destruct op; (left; reflexivity) || (right; discriminate). Qed.

Lemma has_client_constructor e (x : Ext) : has_client (constructor e x).
Proof. intros [[? Hc]|Hi]; cbn in *; discriminate. Qed.

Lemma has_client_step (op : Op) (s : State Ext) :
  has_client s -> has_client (snd (step op s)).
Proof.
  intros Hs. destruct (initialize_or_not op) as [->|Hop].
  - unfold step. run_eff. pose proof (initialize_cases s) as Hi.
    destruct (initialize s) as [[?|?] s']; cbn.
    + destruct Hi as (key & c & cfg & x' & _ & _ & _ & _ & _ & _ & Hm & _).
      intros _. rewrite Hm. eexists; reflexivity.
    + destruct Hi as (Hini & Hcfg & _ & [Hm|Hm]); [|intros _; exact Hm].
      unfold has_client in *. rewrite Hini, Hcfg, Hm. exact Hs.
  - destruct (step_same_object op s Hop) as (_ & _ & Hm & Hcfg & Hini & _).
    unfold has_client in *. rewrite Hini, Hcfg, Hm. exact Hs.
Qed.

Lemma has_client_run (ops : list Op) (s : State Ext) :
  has_client s -> has_client (run ops s).
Proof.
  revert s. induction ops as [|op ops IH]; intros s Hs; cbn; [exact Hs|].
  apply IH, has_client_step, Hs.
Qed.

(** The flag is raised by a successful [initialize] and by nothing else. *)
Lemma step_raises_flag (op : Op) (s : State Ext) :
  initialized s = false -> initialized (snd (step op s)) = true ->
  op = OpInitialize /\ fst (initialize s) = Returned tt
  /\ init_succeeded s (snd (initialize s)).
Proof.
  intros Hoff Hon. destruct (initialize_or_not op) as [->|Hop].
  - split; [reflexivity|]. unfold step in Hon. run_eff.
    pose proof (initialize_cases s) as Hi.
    destruct (initialize s) as [[[]|?] s']; cbn in *; [split; [reflexivity|exact Hi]|].
    destruct Hi as (Hini & _). congruence.
  - destruct (step_same_object op s Hop) as (_ & _ & _ & _ & Hini & _). congruence.
Qed.

Lemma run_app (ops1 ops2 : list Op) (s : State Ext) :
  run (ops1 ++ ops2) s = run ops2 (run ops1 s).
Proof. revert s. induction ops1 as [|op ops1 IH]; intros s; cbn; [reflexivity|apply IH]. Qed.

Lemma raised_flag_history (ops : list Op) (s : State Ext) :
  initialized s = false -> initialized (run ops s) = true ->
  exists ops1 ops2,
    ops = (ops1 ++ OpInitialize :: ops2)%list
    /\ fst (initialize (run ops1 s)) = Returned tt
    /\ init_succeeded (run ops1 s) (snd (initialize (run ops1 s))).
Proof.
  revert s. induction ops as [|op ops IH]; intros s Hoff Hon; cbn in *; [congruence|].
  destruct (initialized (snd (step op s))) eqn:Hstep.
  - destruct (step_raises_flag op s Hoff Hstep) as (-> & Hret & Hs).
    exists [], ops. auto.
  - destruct (IH _ Hstep Hon) as (ops1 & ops2 & -> & Hret & Hs).
    exists (op :: ops1), ops2. auto.
Qed.

(** *** The fee table *)

Lemma tier_applies_spec (a : Js.Num) (t : FeeTier) :
  tier_applies a t = true <-> in_tier a t.
Proof.
  unfold tier_applies, in_tier. rewrite andb_true_iff.
  change (Js.num_ge a (tier_min t)) with (Js.num_le (tier_min t) a).
  rewrite !DoubleFacts.num_le_spec. reflexivity.
Qed.

Lemma tier_applies_false (a : Js.Num) (t : FeeTier) :
  tier_applies a t = false <-> ~ in_tier a t.
Proof.
  rewrite <- tier_applies_spec. destruct (tier_applies a t); split; congruence.
Qed.

(** [Array.prototype.find]: the first element that satisfies the
    predicate, or none when no element does. *)
Lemma find_first (a : Js.Num) (table : list FeeTier) :
  match List.find (tier_applies a) table with
  | Some t => first_tier_holding a table t
  | None => Forall (fun u => ~ in_tier a u) table
  end.
Proof.
  induction table as [|u table IH]; cbn; [constructor|].
  destruct (tier_applies a u) eqn:Hu.
  - exists [], table. split; [reflexivity|].
    split; [apply tier_applies_spec, Hu|constructor].
  - apply tier_applies_false in Hu. destruct (List.find _ table) as [t|].
    + destruct IH as (before & after & -> & Ht & Hbefore).
      exists (u :: before), after. split; [reflexivity|]. split; [exact Ht|].
      constructor; assumption.
    + constructor; assumption.
Qed.

(** *** The character classes of the address pattern *)

Lemma existsb_eqb_In (ch : ascii) (l : list ascii) :
  existsb (Ascii.eqb ch) l = true <-> In ch l.
Proof.
  rewrite existsb_exists. split.
  - intros (c & Hin & Heq). apply Ascii.eqb_eq in Heq. subst. exact Hin.
  - intros Hin. exists ch. split; [exact Hin|apply Ascii.eqb_refl].
Qed.

Lemma class_13_enum (ch : ascii) :
  Regex.in_class class_13 ch = existsb (Ascii.eqb ch) ["1"; "3"]%char.
Proof. destruct ch as [[] [] [] [] [] [] [] []]; reflexivity. Qed.

Lemma class_base58_enum (ch : ascii) :
  Regex.in_class class_base58 ch = existsb (Ascii.eqb ch) (list_ascii_of_string base58).
Proof. destruct ch as [[] [] [] [] [] [] [] []]; reflexivity. Qed.

Lemma forallb_base58 (l : list ascii) :
  forallb (Regex.in_class class_base58) l = true <->
  Forall (fun ch => In ch (list_ascii_of_string base58)) l.
Proof.
  rewrite forallb_forall, List.Forall_forall. split; intros Hl ch Hin.
  - apply existsb_eqb_In. rewrite <- class_base58_enum. apply Hl, Hin.
  - rewrite class_base58_enum. apply existsb_eqb_In, Hl, Hin.
Qed.

Lemma test_addressRegex (address : string) :
  Regex.test addressRegex address = true <-> address_shape address.
Proof.
  unfold Regex.test. rewrite RegexFacts.match_items_spec.
  unfold addressRegex, address_shape. cbn [Regex.matches Regex.item_lo Regex.item_hi Regex.item_class].
  split.
  - intros (s1 & s2 & Hs & [Hlo Hhi] & Hall & s3 & s4 & -> & [Hlo' Hhi'] & Hall' & ->).
    destruct s1 as [|c [|c' s1]]; cbn in Hlo, Hhi; try lia.
    exists c, s3. rewrite Hs, app_nil_r. cbn [forallb] in Hall. rewrite andb_true_r in Hall.
    rewrite class_13_enum in Hall. apply existsb_eqb_In in Hall.
    repeat split; [|lia|lia|apply forallb_base58, Hall'].
    destruct Hall as [<-|[<-|[]]]; auto.
  - intros (c & rest & Hs & Hc & [Hlo Hhi] & Hall).
    exists [c], rest. cbn [length forallb app].
    repeat split; [exact Hs|cbn; lia|cbn; lia| |].
    + rewrite andb_true_r, class_13_enum. apply existsb_eqb_In.
      destruct Hc as [->| ->]; cbn; auto.
    + exists rest, []. rewrite app_nil_r. repeat split; [lia|lia|apply forallb_base58, Hall].
Qed.

(** *** The claims about the service *)

(** C7: [requestFromFaucet] succeeds only in the sandbox.  Whenever
    [MNEE_ENVIRONMENT] is not the string [sandbox] (unset included), the call
    throws its own error and leaves the state as it was, the log of rail
    calls included: the faucet is not invoked; and it resolves to no value. *)
Theorem requestFromFaucet_sandbox_only (s : State Ext) :
  env s !! "MNEE_ENVIRONMENT" <> Some "sandbox" ->
  requestFromFaucet s
  = (Thrown (Js.error "Faucet is only available in sandbox environment"), s)
  /\ calls (snd (requestFromFaucet s)) = calls s
  /\ forall v s', requestFromFaucet s <> (Returned v, s').
Proof.
  intros Hmode.
  assert (requestFromFaucet s
          = (Thrown (Js.error "Faucet is only available in sandbox environment"), s)) as Hrun.
  { unfold requestFromFaucet, getenv, Js.env_get. run_eff.
    destruct (env s !! "MNEE_ENVIRONMENT") as [mode|] eqn:Hm; cbn; [|reflexivity].
    destruct (String.eqb_spec mode "sandbox") as [->|Hne]; [congruence|reflexivity]. }
  rewrite Hrun. repeat split. intros v s'. discriminate.
Qed.

(** C8: [validateAddress] is total: on every string and in every state it
    resolves to a boolean (it never throws) and changes nothing; the boolean
    is [true] exactly when the string has the accepted address shape. *)
Theorem validateAddress_total (address : string) (s : State Ext) :
  exists b : bool,
    validateAddress address s = (Returned b, s)
    /\ (b = true <-> address_shape address).
Proof.
  exists (Regex.test addressRegex address). split.
  - unfold validateAddress. run_eff. reflexivity.
  - apply test_addressRegex.
Qed.

(** C9: in every state the service can be in, [calculateFee] throws when
    no configuration is loaded; with one loaded it returns the fee (converted
    back from atomic units) of the first tier of the table whose range
    [min, max] holds the converted amount, and throws when no tier holds it.
    The state is never changed. *)
Theorem calculateFee_first_tier (ops : list Op) (e : gmap string string) (x : Ext)
    (amount : Js.Num) :
  let s := run ops (constructor e x) in
  match mneeConfig s with
  | None =>
    calculateFee amount s = (Thrown (Js.error "MNEE configuration not loaded"), s)
  | Some config =>
    exists c, mnee s = Some c /\
      let atomicAmount := toAtomicAmount c amount in
      (exists t, first_tier_holding atomicAmount (fees config) t
                 /\ calculateFee amount s = (Returned (fromAtomicAmount c (tier_fee t)), s))
      \/ (Forall (fun u => ~ in_tier atomicAmount u) (fees config)
          /\ calculateFee amount s
             = (Thrown (Js.error ("No fee tier found for amount "
                                  ++ Js.NumberToString amount ++ " MNEE")), s))
  end.
Proof.
  intros s.
  assert (has_client s) as Hclient
    by (apply has_client_run, has_client_constructor).
  destruct (mneeConfig s) as [config|] eqn:Hcfg.
  - destruct Hclient as [c Hc]; [left; rewrite Hcfg; eexists; reflexivity|].
    exists c. split; [exact Hc|]. cbn zeta.
    pose proof (find_first (toAtomicAmount c amount) (fees config)) as Hfind.
    unfold calculateFee, this_mnee. run_eff. rewrite Hcfg, Hc. cbn.
    destruct (List.find _ (fees config)) as [t|]; cbn.
    + left. exists t. rewrite Hc. split; [exact Hfind|reflexivity].
    + right. split; [exact Hfind|reflexivity].
  - unfold calculateFee. run_eff. rewrite Hcfg. reflexivity.
Qed.

(** C10: the [initialized] flag is up only after a successful
    [initialize] (first part: in any history of method calls that ends with
    the flag up, some [initialize] returned, having loaded the SDK, found a
    non-empty API key and fetched the remote configuration); and while the
    flag is down, [sendPayment] and [getBalance] throw the not-initialized
    error and leave the state, rail log included, as it was. *)
Theorem initialized_only_after_initialize (ops : list Op) (e : gmap string string) (x : Ext)
    (s : State Ext) :
  (initialized (run ops (constructor e x)) = true ->
   exists ops1 ops2,
     ops = (ops1 ++ OpInitialize :: ops2)%list
     /\ fst (initialize (run ops1 (constructor e x))) = Returned tt
     /\ init_succeeded (run ops1 (constructor e x))
          (snd (initialize (run ops1 (constructor e x)))))
  /\ (initialized s = false ->
      (forall r a b,
          sendPayment r a b s
          = (Thrown (Js.error "MNEE payment service not initialized"), s))
      /\ getBalance s = (Thrown (Js.error "MNEE payment service not initialized"), s)).
Proof.
  split.
  - intros Hon.
    destruct (raised_flag_history ops (constructor e x) eq_refl Hon)
      as (ops1 & ops2 & Hops & Hret & Hs).
    exists ops1, ops2. auto.
  - intros Hoff. split; [intros r a b; unfold sendPayment|unfold getBalance];
      run_eff; rewrite Hoff; reflexivity.
Qed.

End Facts.
End MneeFacts.

(** ** The handlers *)

Module RoutesFacts.
Import Routes.

Section Facts.
Context {W : Type} `{Services W} `{Js.Runtime}.

Lemma or_falsy_undefined (b : Js.Val) : Js.or Js.Undefined b = b.
Proof. reflexivity. Qed.

Lemma positive_truthy (q : Q) : (0 < q)%Q -> Js.truthy (Js.Number (Js.Fin q)) = true.
Proof.
  intros Hq. cbn. destruct (Qeq_bool q 0) eqn:Hz; [|reflexivity].
  apply Qeq_bool_iff in Hz. rewrite Hz in Hq. exfalso. exact (Qlt_irrefl 0 Hq).
Qed.

Lemma field_unset (req_body : gmap string Js.Val) (key : string) :
  req_body !! key = None -> field req_body key = Js.Undefined.
Proof. unfold field. intros ->. reflexivity. Qed.

(** The guard of [post_create], as a function of the body alone. *)
Lemma post_create_guard (req_body : gmap string Js.Val) (st : HState W) :
  lacks_required_field req_body ->
  post_create req_body st
  = (Returned (bad_request "Missing required fields: repository, issueId, issueUrl, amount"),
     st).
Proof.
  intros Hlack. unfold post_create. run_eff.
  assert (negb (Js.truthy (field req_body "repository"))
          || negb (Js.truthy (field req_body "issueId"))
          || negb (Js.truthy (field req_body "issueUrl"))
          || negb (Js.truthy (field req_body "amount")) = true) as ->; [|reflexivity].
  destruct Hlack as [Hf|[Hf|[Hf|Hf]]]; rewrite Hf; cbn;
    rewrite ?orb_true_r; reflexivity.
Qed.

(** Past the guard, [post_create] calls [createBounty] exactly once, with
    the fields of the body and the defaulted maximum, whatever the service
    then does. *)
Lemma post_create_calls (req_body : gmap string Js.Val) (st : HState W) :
  Js.truthy (field req_body "repository") = true ->
  Js.truthy (field req_body "issueId") = true ->
  Js.truthy (field req_body "issueUrl") = true ->
  Js.truthy (field req_body "amount") = true ->
  let p := mkCreateParams (field req_body "repository") (field req_body "issueId")
             (field req_body "amount")
             (Js.or (field req_body "maxAmount")
                (Js.mul (field req_body "amount") (Js.Number (Js.Fin 3))))
             (field req_body "issueUrl") (field req_body "metadata") in
  invoked (snd (post_create req_body st)) = (invoked st ++ [CreateBounty p])%list
  /\ world (snd (post_create req_body st)) = snd (createBounty p (world st))
  /\ exists resp, fst (post_create req_body st) = Returned resp
                  /\ (status resp = 201 \/ status resp = 500).
Proof.
  intros Hr Hi Hu Ha p. unfold post_create, call. run_eff.
  rewrite Hr, Hi, Hu, Ha. cbn [negb orb]. fold p.
  destruct (createBounty p (world st)) as [[result|e] w]; cbn;
    repeat split; eexists; split; eauto.
Qed.

(** C4, as amended: a creation request one of whose required fields
    (repository, issueId, issueUrl, amount) is missing or falsy, an amount
    of 0 included, is answered 400 by the guard with nothing done: no call
    on [bountyService] (the handler's only way to the escrow and the
    ledger) and the world as it was. *)
Theorem post_create_rejects_missing_fields (req_body : gmap string Js.Val)
    (st : HState W) :
  lacks_required_field req_body ->
  rejected_untouched st (post_create req_body st)
  /\ invoked (snd (post_create req_body st)) = invoked st
  /\ world (snd (post_create req_body st)) = world st.
Proof.
  intros Hlack. rewrite (post_create_guard req_body st Hlack).
  repeat split. eexists. reflexivity.
Qed.

(** C1, as amended: a creation request that passes the required-fields
    guard, leaves [maxAmount] unset and asks for a positive amount (a
    number, so a double) makes the handler call [createBounty] once, with
    that amount and, as maximum, the product [amount * 3] of doubles: the
    double nearest to three times the amount, within half a unit in the
    last place of it (or [Infinity]), and exactly three times the amount
    whenever that is a double.  This maximum is not below the amount. *)
Theorem post_create_default_cap (req_body : gmap string Js.Val) (st : HState W) (q : Q) :
  Js.truthy (field req_body "repository") = true ->
  Js.truthy (field req_body "issueId") = true ->
  Js.truthy (field req_body "issueUrl") = true ->
  req_body !! "amount" = Some (Js.Number (Js.Fin q)) ->
  Js.is_double q = true ->
  (0 < q)%Q ->
  req_body !! "maxAmount" = None ->
  created_with_default_cap req_body st (post_create req_body st)
  /\ exists p,
      invoked (snd (post_create req_body st)) = (invoked st ++ [CreateBounty p])%list
      /\ cp_amount p = Js.Number (Js.Fin q)
      /\ cp_maxAmount p = Js.Number (Js.round (q * 3))
      /\ Js.le (Js.Fin q) (Js.round (q * 3))
      /\ (forall r, Js.round (q * 3) = Js.Fin r ->
          (Qabs (r - q * 3) <= Js.pow2 (Js.ulp_exponent (q * 3)) * (1 # 2))%Q)
      /\ (Js.is_double (q * 3) = true ->
          cp_maxAmount p = Js.Number (Js.Fin (Qred (q * 3)))).
Proof.
  intros Hr Hi Hu Hamount Hd Hq Hmax.
  assert (field req_body "amount" = Js.Number (Js.Fin q)) as Ha
    by (unfold field; rewrite Hamount; reflexivity).
  assert (Js.truthy (field req_body "amount") = true) as Hat
    by (rewrite Ha; apply positive_truthy, Hq).
  destruct (post_create_calls req_body st Hr Hi Hu Hat) as (Hcalls & _ & _).
  rewrite (field_unset _ _ Hmax), or_falsy_undefined, Ha in Hcalls.
  pose proof (DoubleFacts.triple_not_below q Hq Hd) as Hle.
  split.
  - eexists. split; [exact Hcalls|]. cbn [cp_amount cp_maxAmount]. rewrite Ha.
    split; [reflexivity|]. split; [reflexivity|]. exact Hle.
  - eexists. split; [exact Hcalls|]. cbn [cp_amount cp_maxAmount].
    split; [reflexivity|]. split; [reflexivity|].
    split; [apply DoubleFacts.num_le_spec, Hle|].
    split; [intros r; apply DoubleFacts.round_error|].
    intros Hd3. unfold Js.mul. cbn [Js.to_number Js.num_mul].
    rewrite (DoubleFacts.is_double_round _ Hd3). reflexivity.
Qed.

(** C6: a claim on a bounty whose stored status is not [active] (claimed
    ones included) is answered 400 before [claimBounty] is called: the only
    call the handler may have made is the [findOne] query, nothing was
    saved, and the world is as it was. *)
Theorem post_claim_rejects_inactive (bountyId : string) (req_body : gmap string Js.Val)
    (st : HState W) (doc : Doc) :
  findOne (Js.parseInt bountyId) (world st) = Returned (Some doc) ->
  field doc "status" <> Js.Str "active" ->
  exists msg made,
    post_claim bountyId req_body st
    = (Returned (bad_request msg), mkHState (world st) (invoked st ++ made)%list)
    /\ Forall (fun c => ~ settles_or_writes c) made.
Proof.
  intros Hfound Hstatus. unfold post_claim, call. run_eff.
  destruct (negb (Js.truthy (field req_body "solver"))
            || negb (Js.truthy (field req_body "pullRequestUrl"))); cbn.
  - exists "Missing required fields: solver, pullRequestUrl", [].
    rewrite app_nil_r. destruct st. split; [reflexivity|constructor].
  - rewrite Hfound. cbn.
    assert (Js.strict_ne_str (field doc "status") "active" = true) as ->.
    { destruct (field doc "status") as [| | | |s'|]; try reflexivity. cbn.
      destruct (String.eqb_spec s' "active") as [->|]; [congruence|reflexivity]. }
    exists "Bounty is not active", [FindOne (Js.parseInt bountyId)].
    split; [reflexivity|]. repeat constructor. intros [].
Qed.

(** The escalate handler hands a refusal of [escalateBounty] back to the
    caller as an ordinary reply [{success: false, reason}], not as an error. *)
Lemma post_escalate_reports_refusal (bountyId : string) (st : HState W) (doc : Doc)
    (result : EscalateResult) (w' : W) :
  findOne (Js.parseInt bountyId) (world st) = Returned (Some doc) ->
  field doc "status" = Js.Str "active" ->
  escalateBounty (Js.parseInt bountyId) (world st) = (Returned result, w') ->
  Js.truthy (es_success result) = false ->
  post_escalate bountyId st
  = (Returned (mkResponse 200 [("success", Js.Boolean false); ("reason", es_reason result)]),
     mkHState w' ((invoked st ++ [FindOne (Js.parseInt bountyId)])
                  ++ [EscalateBounty (Js.parseInt bountyId)])%list).
Proof.
  intros Hfound Hactive Hesc Hrefused. unfold post_escalate, call. run_eff.
  rewrite Hfound. cbn. rewrite Hactive. cbn. rewrite Hesc. cbn.
  rewrite Hrefused. reflexivity.
Qed.

End Facts.
End RoutesFacts.

(** ** The ledger schema *)

Module DbFacts.
Import Db.

Lemma initDb_fresh :
  exists ixs, initDb ∅ !! "bounties" = Some (mkTable bounties_columns ixs [] 1).
Proof. eexists. vm_compute. reflexivity. Qed.

(** A column declared [UNIQUE] or [PRIMARY KEY], not nullable and of an
    integer type admits a row only with an integer no earlier row holds. *)
Lemma admits_fresh_key (old : list (gmap string Value)) (r : gmap string Value)
    (c : Column) (ks : list Z) :
  col_type c = INTEGER \/ col_type c = SERIAL ->
  has_constraint UNIQUE c || has_constraint PRIMARY_KEY c = true ->
  has_constraint NOT_NULL c || has_constraint PRIMARY_KEY c
  || match col_type c with SERIAL => true | _ => false end = true ->
  column_admits old r c = true ->
  keyed_by (col_name c) old ks -> NoDup ks ->
  exists z, keyed_by (col_name c) (old ++ [r]) (ks ++ [z]) /\ NoDup (ks ++ [z]).
Proof.
  intros Hty Huniq Hnn Hadm Hkeys Hnodup. unfold column_admits in Hadm.
  rewrite Huniq, Hnn in Hadm.
  apply andb_true_iff in Hadm as [Hadm Hfresh].
  apply andb_true_iff in Hadm as [Htyped Hnotnull].
  destruct (cell r (col_name c)) as [|z| | | |] eqn:Hcell;
    try discriminate; try (destruct Hty as [Hty|Hty]; rewrite Hty in Htyped; discriminate).
  exists z. split.
  - apply Forall2_app; [exact Hkeys|]. repeat constructor. exact Hcell.
  - apply NoDup_app. repeat split; [exact Hnodup| |apply NoDup_singleton].
    intros k Hk Hz. apply list_elem_of_singleton in Hz. subst k.
    apply list_elem_of_lookup in Hk as [i Hi].
    destruct (Forall2_lookup_r _ _ _ _ _ Hkeys Hi) as (o & Ho & Hoz).
    rewrite forallb_forall in Hfresh.
    assert (In o old) as Hin by (apply list_elem_of_In, list_elem_of_lookup; eauto).
    specialize (Hfresh o Hin). rewrite Hoz in Hfresh. cbn in Hfresh.
    rewrite Z.eqb_refl in Hfresh. discriminate.
Qed.

Lemma insert_keeps_keys (time : Z) (given : gmap string Value) (db db' : gmap string Table) :
  keeps_keys db -> insert "bounties" time given db = Some db' -> keeps_keys db'.
Proof.
  intros (t & ids & bids & Ht & Hcols & Hids & Hnd & Hbids & Hnb) Hins.
  unfold insert in Hins. rewrite Ht in Hins. cbn [mbind option_bind] in Hins.
  destruct (negb _); [discriminate|].
  destruct (negb (forallb (assignable t time given) _)); [discriminate|].
  set (r := list_to_map _) in Hins.
  destruct (forallb (column_admits (rows t) r) (columns t)) eqn:Hadm; [|discriminate].
  destruct (forallb (index_admits (rows t) r) (indexes t)); [|discriminate].
  cbn in Hins. injection Hins as <-.
  rewrite Hcols, forallb_forall in Hadm.
  destruct (admits_fresh_key (rows t) r (Col "id" SERIAL [PRIMARY_KEY]) ids)
    as (z & Hz & Hzn); auto.
  { apply Hadm. cbn. auto. }
  destruct (admits_fresh_key (rows t) r (Col "bounty_id" INTEGER [UNIQUE; NOT_NULL]) bids)
    as (b & Hb & Hbn); auto.
  { apply Hadm. cbn. auto. }
  eexists _, (ids ++ [z])%list, (bids ++ [b])%list.
  rewrite lookup_insert_eq. repeat split; auto.
Qed.

Lemma skip_serial_keeps_keys (db : gmap string Table) :
  keeps_keys db -> keeps_keys (skip_serial "bounties" db).
Proof.
  intros (t & ids & bids & Ht & Hcols & Hids & Hnd & Hbids & Hnb).
  unfold skip_serial. rewrite Ht.
  eexists _, ids, bids. rewrite lookup_insert_eq. repeat split; auto.
Qed.

Lemma reachable_keeps_keys (db : gmap string Table) : reachable db -> keeps_keys db.
Proof.
  induction 1 as [|db db' time given _ IH Hins|db time given _ IH _ _].
  - destruct initDb_fresh as [ixs Hinit].
    eexists _, [], []. rewrite Hinit. repeat split; constructor.
  - exact (insert_keeps_keys time given db db' IH Hins).
  - apply skip_serial_keeps_keys, IH.
Qed.

Lemma keyed_distinct (col : string) (rs : list (gmap string Value)) (ks : list Z) :
  keyed_by col rs ks -> NoDup ks -> distinct_on col rs.
Proof.
  intros Hkeys Hnodup i j r1 r2 Hi Hj Hij.
  destruct (Forall2_lookup_l _ _ _ _ _ Hkeys Hi) as (a & Ha & Hra).
  destruct (Forall2_lookup_l _ _ _ _ _ Hkeys Hj) as (b & Hb & Hrb).
  exists a, b. repeat split; auto.
  intros ->. apply Hij. exact (NoDup_lookup _ _ _ _ Hnodup Ha Hb).
Qed.

(** C2, as amended: in every database reached from a freshly initialised
    one by inserts into the bounty table (successful ones, and failed ones
    that leave the sequence advanced), any two distinct rows differ in
    [bounty_id] and in [id]: that is the uniqueness the schema created by
    [initDb] enforces. *)
Theorem schema_keeps_bounty_ids_unique (db : gmap string Table) :
  reachable db ->
  distinct_on "bounty_id" (bounties db) /\ distinct_on "id" (bounties db).
Proof.
  intros Hreach.
  destruct (reachable_keeps_keys db Hreach)
    as (t & ids & bids & Ht & _ & Hids & Hnd & Hbids & Hnb).
  unfold bounties. rewrite Ht. split; eapply keyed_distinct; eauto.
Qed.

Lemma reachable_insert_default (time : Z) (given : gmap string Value)
    (db : gmap string Table) :
  reachable db -> accepted (insert "bounties" time given db) = true ->
  reachable (default ∅ (insert "bounties" time given db)).
Proof.
  intros Hreach Hacc. destruct (insert "bounties" time given db) as [db'|] eqn:Hins;
    [|discriminate].
  exact (reach_insert db db' time given Hreach Hins).
Qed.

Lemma clash_spec (r1 r2 : gmap string Value) :
  clash r1 r2 = true ->
  cell r1 "status" = VText "active" /\ cell r2 "status" = VText "active"
  /\ cell r1 "repository" = cell r2 "repository"
  /\ cell r1 "issue_id" = cell r2 "issue_id".
Proof.
  unfold clash.
  destruct (cell r1 "status") as [| | |s1| |]; try discriminate.
  destruct (cell r2 "status") as [| | |s2| |]; try discriminate.
  destruct (cell r1 "repository") as [| | |a| |]; try discriminate.
  destruct (cell r2 "repository") as [| | |b| |]; try discriminate.
  destruct (cell r1 "issue_id") as [|x| | | |]; try discriminate.
  destruct (cell r2 "issue_id") as [|y| | | |]; try discriminate.
  rewrite !andb_true_iff, !String.eqb_eq, Z.eqb_eq.
  intros [[[-> ->] ->] ->]. repeat split.
Qed.

Lemma first_two_clash_sound (rs : list (gmap string Value)) :
  first_two_clash rs = true -> ~ active_pairs_unique rs.
Proof.
  destruct rs as [|r1 [|r2 rs]]; try discriminate. cbn [first_two_clash].
  intros Hclash Huniq. apply clash_spec in Hclash as (Hs1 & Hs2 & Hrepo & Hissue).
  apply (Huniq 0%nat 1%nat r1 r2); auto.
Qed.

End DbFacts.

(** ** The escalate operation *)

Module EngineFacts.
Import Engine.

Section Facts.
Context {Chain : Type} `{Escrow Chain}.
Variable step_policy : Q -> Q.

(** The branches of [escalateBounty] that refuse leave the world alone. *)
Lemma refusal_leaves_world (bountyId : Z) (w : World Chain) (reason : string) (w' : World Chain) :
  escalateBounty step_policy bountyId w = (Returned (NotEscalated reason), w') -> w' = w.
Proof.
  unfold escalateBounty. destruct (ledger w !! bountyId) as [b|]; [|congruence].
  destruct (Qeq_bool _ _); [congruence|].
  destruct (negb _); [congruence|].
  destruct (bool_decide _); [congruence|].
  destruct (escrow_escalate _ _ _) as [[tx|e] c]; discriminate.
Qed.

(** C3: for a bounty whose current amount equals its maximum amount,
    [escalateBounty] returns the result [{success: false, reason:
    max_amount_reached}] (it does not throw) and leaves the world as it
    was: zero calls on the escrow or the payout rail, ledger untouched. *)
Theorem escalateBounty_at_max (bountyId : Z) (w : World Chain) (b : Bounty) :
  ledger w !! bountyId = Some b ->
  (current_amount b == max_amount b)%Q ->
  escalateBounty step_policy bountyId w
  = (Returned (NotEscalated "max_amount_reached"), w)
  /\ rail_calls (snd (escalateBounty step_policy bountyId w)) = rail_calls w.
Proof.
  intros Hb Hmax. unfold escalateBounty. rewrite Hb.
  apply Qeq_bool_iff in Hmax. rewrite Hmax. split; reflexivity.
Qed.

End Facts.
End EngineFacts.

(** ** The scheduler *)

Module SchedulerFacts.
Import Scheduler.

(** The expression the source registers fires at minute 0 of every hour
    of every day, and at no other minute. *)
Lemma hourly_expression (t : Minute) :
  fires "0 * * * *" t = (minute t =? 0)%nat.
Proof.
  unfold fires. cbn. rewrite !andb_true_r. apply Nat.eqb_sym.
Qed.

(** The jobs registered do not depend on the environment. *)
Lemma scheduler_ignores_environment (env1 env2 : gmap string string) (jobs : list Job) :
  startEscalationScheduler env1 jobs = startEscalationScheduler env2 jobs.
Proof. reflexivity. Qed.

(** C5, the code at a configured interval of one minute (60000 ms): the
    value is read into [interval], yet the job registered is the hourly
    expression, as for every other environment: the scan fires at minute 0
    of an hour and not at minute 1, whatever the interval configured. *)
Theorem scheduler_cadence_is_hardcoded :
  let env : gmap string string := {["ESCALATION_CHECK_INTERVAL" := "60000"]} in
  interval_read env = Js.Str "60000"
  /\ startEscalationScheduler env [] = [mkJob "0 * * * *" CheckAndEscalateBounties]
  /\ (forall (env' : gmap string string) (t : Minute),
        scan_fires (startEscalationScheduler env' []) t = (minute t =? 0)%nat)
  /\ scan_fires (startEscalationScheduler env []) (mkMinute 1 0 1 1 1) = false.
Proof.
  intros env. split; [reflexivity|]. split; [reflexivity|]. split; [|reflexivity].
  intros env' t. unfold startEscalationScheduler, scan_fires. cbn [app existsb expression].
  rewrite hourly_expression. apply orb_false_r.
Qed.

End SchedulerFacts.


(** ** The properties on concrete inputs *)

Module Examples.
Import Doubles.

#[local] Existing Instance runtime.
#[local] Existing Instance services.
#[local] Existing Instance sdk.
#[local] Existing Instance escrow.

(** *** Creation requests *)

(** What the handler does with the request of amount -5. *)
Lemma negative_amount_run :
  Routes.post_create (creation (Js.Number (Js.Fin (-5)))) fresh
  = (Returned (Routes.mkResponse 201
                 [("success", Js.Boolean true);
                  ("bountyId", Js.Number (Js.Fin 1));
                  ("transactionHash", Js.Str "0xfunded")]),
     Routes.mkHState
       (snd (mem_createBounty lower_cap_params (mkMem [] [])))
       [Routes.CreateBounty lower_cap_params]).
Proof. vm_compute. reflexivity. Qed.

(** The request with amount -5 and no [maxAmount] passes the guard:
    [createBounty] is called with a maximum of -15, which is below the
    amount. *)
Lemma negative_amount_gets_lower_cap :
  creation (Js.Number (Js.Fin (-5))) !! "maxAmount" = None
  /\ Routes.invoked (snd (Routes.post_create (creation (Js.Number (Js.Fin (-5)))) fresh))
     = [Routes.CreateBounty lower_cap_params]
  /\ ~ Routes.created_with_default_cap (creation (Js.Number (Js.Fin (-5)))) fresh
         (Routes.post_create (creation (Js.Number (Js.Fin (-5)))) fresh).
Proof.
  rewrite negative_amount_run.
  split; [vm_compute; reflexivity|]. split; [reflexivity|].
  intros (p & Hcalls & _ & _ & Hge).
  cbn [snd Routes.invoked fresh app] in Hcalls. injection Hcalls as <-.
  cbn in Hge. discriminate.
Qed.

(** The request with amount -5 is an invalid creation, and it is not
    rejected: the handler calls [createBounty] with that amount and, the
    service having created the bounty, answers 201. *)
Lemma negative_amount_reaches_createBounty :
  Routes.invalid_creation (creation (Js.Number (Js.Fin (-5))))
  /\ ~ Routes.rejected_untouched fresh
         (Routes.post_create (creation (Js.Number (Js.Fin (-5)))) fresh)
  /\ Routes.invoked (snd (Routes.post_create (creation (Js.Number (Js.Fin (-5)))) fresh))
     = [Routes.CreateBounty lower_cap_params]
  /\ exists resp,
      fst (Routes.post_create (creation (Js.Number (Js.Fin (-5)))) fresh) = Returned resp
      /\ Routes.status resp = 201%nat.
Proof.
  rewrite negative_amount_run.
  split; [|split; [|split]].
  - left. exists (-5)%Q. split; [vm_compute; reflexivity|]. unfold Qle. cbn. lia.
  - intros (msg & Hrun). discriminate Hrun.
  - reflexivity.
  - eexists. split; reflexivity.
Qed.

(** The request of amount 10 gets the maximum 30. *)
Lemma default_cap_of_ten :
  Routes.created_with_default_cap (creation (Js.Number (Js.Fin 10))) fresh
    (Routes.post_create (creation (Js.Number (Js.Fin 10))) fresh)
  /\ exists p,
      Routes.invoked (snd (Routes.post_create (creation (Js.Number (Js.Fin 10))) fresh))
      = (Routes.invoked fresh ++ [Routes.CreateBounty p])%list
      /\ Routes.cp_amount p = Js.Number (Js.Fin 10)
      /\ Routes.cp_maxAmount p = Js.Number (Js.round (10 * 3))
      /\ Js.le (Js.Fin 10) (Js.round (10 * 3))
      /\ (forall r, Js.round (10 * 3) = Js.Fin r ->
          (Qabs (r - 10 * 3) <= Js.pow2 (Js.ulp_exponent (10 * 3)) * (1 # 2))%Q)
      /\ (Js.is_double (10 * 3) = true ->
          Routes.cp_maxAmount p = Js.Number (Js.Fin (Qred (10 * 3)))).
Proof.
  apply (RoutesFacts.post_create_default_cap (creation (Js.Number (Js.Fin 10))) fresh 10);
    try (vm_compute; reflexivity).
Defined.

(** The double nearest to 0.1 is a valid amount; three times it is no
    double, and the maximum passed is the double next to that product:
    0.30000000000000004. *)
Example cap_of_a_tenth :
  Js.is_double tenth = true
  /\ Js.is_double (tenth * 3) = false
  /\ Routes.invoked (snd (Routes.post_create (creation (Js.Number (Js.Fin tenth))) fresh))
     = [Routes.CreateBounty
          (Routes.mkCreateParams (Js.Str "octo/repo") (Js.Number (Js.Fin 7))
             (Js.Number (Js.Fin tenth))
             (Js.Number (Js.Fin (1351079888211149 # 4503599627370496)))
             (Js.Str "https://example.test/octo/repo/issues/7") Js.Undefined)].
Proof. repeat split; vm_compute; reflexivity. Qed.

(** The request of amount 0 is answered 400 with nothing done. *)
Lemma zero_amount_rejected :
  Routes.rejected_untouched fresh (Routes.post_create (creation (Js.Number (Js.Fin 0))) fresh)
  /\ Routes.invoked (snd (Routes.post_create (creation (Js.Number (Js.Fin 0))) fresh)) = []
  /\ Routes.world (snd (Routes.post_create (creation (Js.Number (Js.Fin 0))) fresh))
     = mkMem [] [].
Proof.
  apply (RoutesFacts.post_create_rejects_missing_fields (creation (Js.Number (Js.Fin 0))) fresh).
  right. right. right. vm_compute. reflexivity.
Defined.

(** *** Claims *)

Lemma some_default {A : Type} (o : option A) (d : A) :
  match o with Some _ => true | None => false end = true -> o = Some (default d o).
Proof. destruct o; [reflexivity|discriminate]. Qed.

Lemma claimed_doc_found :
  Routes.findOne (Js.parseInt "1") (Routes.world after_claim) = Returned (Some claimed_doc).
Proof.
  change (Returned (lookup_doc (Js.Fin 1) (Routes.world after_claim))
          = Returned (Some claimed_doc)).
  apply (f_equal Returned), some_default. vm_compute. reflexivity.
Qed.

Lemma claimed_doc_status : Routes.field claimed_doc "status" = Js.Str "claimed".
Proof. vm_compute. reflexivity. Qed.

(** A second claim on bounty 1, already claimed, is answered 400. *)
Lemma second_claim_rejected :
  exists msg made,
    Routes.post_claim "1" claim_body after_claim
    = (Returned (Routes.bad_request msg),
       Routes.mkHState (Routes.world after_claim) (Routes.invoked after_claim ++ made)%list)
    /\ Forall (fun c => ~ Routes.settles_or_writes c) made.
Proof.
  apply (RoutesFacts.post_claim_rejects_inactive "1" claim_body after_claim claimed_doc).
  - exact claimed_doc_found.
  - rewrite claimed_doc_status. discriminate.
Defined.

(** *** The ledger schema *)

Lemma same_issue_twice_reachable : Db.reachable same_issue_twice.
Proof.
  apply DbFacts.reachable_insert_default;
    [apply DbFacts.reachable_insert_default; [apply Db.reach_init|]|];
    vm_compute; reflexivity.
Qed.

(** Two inserts for the same issue, both accepted by the schema, leave two
    active rows with the same (repository, issue_id) pair. *)
Lemma same_issue_twice_accepted :
  Db.reachable same_issue_twice
  /\ ~ Db.active_pairs_unique (Db.bounties same_issue_twice).
Proof.
  split; [exact same_issue_twice_reachable|].
  apply DbFacts.first_two_clash_sound. vm_compute. reflexivity.
Qed.

(** Those two rows differ in [bounty_id] and in [id]. *)
Lemma same_issue_twice_keys :
  Db.distinct_on "bounty_id" (Db.bounties same_issue_twice)
  /\ Db.distinct_on "id" (Db.bounties same_issue_twice).
Proof.
  apply (DbFacts.schema_keeps_bounty_ids_unique same_issue_twice).
  exact same_issue_twice_reachable.
Defined.

(** *** Escalation at the maximum *)

Lemma capped_bounty_not_escalated :
  Engine.escalateBounty (fun q => q * (3 # 2))%Q 1 capped_world
  = (Returned (Engine.NotEscalated "max_amount_reached"), capped_world)
  /\ Engine.rail_calls
       (snd (Engine.escalateBounty (fun q => q * (3 # 2))%Q 1 capped_world)) = [].
Proof.
  apply (EngineFacts.escalateBounty_at_max (fun q => q * (3 # 2))%Q 1 capped_world
           capped_bounty).
  - vm_compute. reflexivity.
  - reflexivity.
Defined.

(** *** The payment service *)

(** A well-known address has the accepted shape; with a [0] among its
    characters, or one character short of the minimum, it has not. *)
Example validateAddress_examples :
  fst (Mnee.validateAddress "1A1zP1eP5QGefi2DMPTfTL5SLmv7DivfNa"
         (Mnee.constructor configured_env 0%nat)) = Returned true
  /\ fst (Mnee.validateAddress "1A1zP1eP5QGefi2DMPTfTL5SLmv7DivfN0"
            (Mnee.constructor configured_env 0%nat)) = Returned false
  /\ fst (Mnee.validateAddress "1A1zP1eP5QGefi2DMPTfTL5SL"
            (Mnee.constructor configured_env 0%nat)) = Returned false.
Proof. repeat split; vm_compute; reflexivity. Qed.

(** With the two-tier table of the SDK double, 5 MNEE (500000 atomic
    units) falls in the first tier, whose fee of 100 units is 0.001 MNEE
    (the double nearest to it); 5000 MNEE is beyond the last tier. *)
Example calculateFee_examples :
  fst (Mnee.calculateFee (Js.Fin 5)
         (Mnee.run [Mnee.OpInitialize] (Mnee.constructor configured_env 0%nat)))
  = Returned (Js.round (1 # 1000))
  /\ fst (Mnee.calculateFee (Js.Fin 5000)
            (Mnee.run [Mnee.OpInitialize] (Mnee.constructor configured_env 0%nat)))
     = Thrown (Js.error "No fee tier found for amount 5000 MNEE")
  /\ fst (Mnee.calculateFee (Js.Fin 5) (Mnee.constructor configured_env 0%nat))
     = Thrown (Js.error "MNEE configuration not loaded").
Proof. repeat split; vm_compute; reflexivity. Qed.

(** In production the faucet call throws and no rail call is made. *)
Lemma faucet_refused_in_production :
  Mnee.requestFromFaucet (Mnee.constructor production_env 0%nat)
  = (Thrown (Js.error "Faucet is only available in sandbox environment"),
     Mnee.constructor production_env 0%nat)
  /\ Mnee.calls (snd (Mnee.requestFromFaucet (Mnee.constructor production_env 0%nat))) = []
  /\ forall v s', Mnee.requestFromFaucet (Mnee.constructor production_env 0%nat)
                  <> (Returned v, s').
Proof.
  apply (MneeFacts.requestFromFaucet_sandbox_only (Mnee.constructor production_env 0%nat)).
  vm_compute. discriminate.
Defined.

(** After one [initialize] in a configured environment the flag is up, and
    that call succeeded; on a fresh object [sendPayment] and [getBalance]
    throw. *)
Lemma initialized_after_one_initialize :
  (exists ops1 ops2,
      [Mnee.OpInitialize] = (ops1 ++ Mnee.OpInitialize :: ops2)%list
      /\ fst (Mnee.initialize (Mnee.run ops1 (Mnee.constructor configured_env 0%nat)))
         = Returned tt
      /\ Mnee.init_succeeded (Mnee.run ops1 (Mnee.constructor configured_env 0%nat))
           (snd (Mnee.initialize (Mnee.run ops1 (Mnee.constructor configured_env 0%nat)))))
  /\ (forall r a b,
         Mnee.sendPayment r a b (Mnee.constructor configured_env 0%nat)
         = (Thrown (Js.error "MNEE payment service not initialized"),
            Mnee.constructor configured_env 0%nat))
  /\ Mnee.getBalance (Mnee.constructor configured_env 0%nat)
     = (Thrown (Js.error "MNEE payment service not initialized"),
        Mnee.constructor configured_env 0%nat).
Proof.
  destruct (MneeFacts.initialized_only_after_initialize [Mnee.OpInitialize] configured_env
              0%nat (Mnee.constructor configured_env 0%nat)) as [Hup Hdown].
  split; [apply Hup; vm_compute; reflexivity|apply Hdown; reflexivity].
Defined.

End Examples.

(** ** More on the payment service *)

Module MneeMore.
Import Mnee MneeFacts.

Section Facts.
Context {Ext : Type} `{Sdk Ext} `{Js.Runtime}.

Lemma step_keeps_flag_up (op : Op) (s : State Ext) :
  initialized s = true -> initialized (snd (step op s)) = true.
Proof.
  intros Hup. destruct (initialize_or_not op) as [->|Hop].
  - unfold step. run_eff. pose proof (initialize_cases s) as Hi.
    destruct (initialize s) as [[?|?] s']; cbn.
    + destruct Hi as (key & c & cfg & x' & Hi). tauto.
    + destruct Hi as (Hini & _). congruence.
  - destruct (step_same_object op s Hop) as (_ & _ & _ & _ & Hini & _). congruence.
Qed.

(** X1: once the [initialized] flag is up it stays up: no sequence of
    method calls, failed re-initialisations included, brings it down. *)
Theorem initialized_stays_up (ops : list Op) (s : State Ext) :
  initialized s = true -> initialized (run ops s) = true.
Proof.
  revert s. induction ops as [|op ops IH]; intros s Hup; cbn; [exact Hup|].
  apply IH, step_keeps_flag_up, Hup.
Qed.

Lemma initialize_calls (s : State Ext) :
  exists made,
    calls (snd (initialize s)) = (calls s ++ made)%list
    /\ (made = [] \/ made = [CallConfig]).
Proof.
  pose proof (loadMneeSdk_cases s) as Hl.
  unfold initialize. unfold bind at 1.
  destruct (loadMneeSdk s) as [[[cls|]|e] s1]; [| |contradiction].
  - destruct Hl as (_ & _ & _ & _ & _ & _ & _ & _ & Hcalls).
    unfold getenv, this_mnee, rail. run_eff.
    destruct (Js.truthy _); cbn;
      [|exists []; rewrite app_nil_r; auto].
    destruct (sdk_new _ _) as [c|e]; cbn;
      [|exists []; rewrite app_nil_r; auto].
    destruct (sdk_config c _) as [[cfg|e] x']; cbn;
      exists [CallConfig]; rewrite Hcalls; auto.
  - destruct Hl as (_ & _ & _ & _ & _ & Hcalls). cbn.
    exists []. rewrite app_nil_r. auto.
Qed.

(** X2: a method call makes at most one rail call, of the one kind that
    belongs to the method ([sendPayment] with exactly the recipient and
    amount it was given); [calculateFee] and [validateAddress] make none.
    The log of earlier calls is never rewritten. *)
Theorem step_makes_at_most_one_call (op : Op) (s : State Ext) :
  calls (snd (step op s)) = calls s
  \/ exists c, calls (snd (step op s)) = (calls s ++ [c])%list /\ Words.rail_call_of op c.
Proof.
  destruct op as [|r a b| |a|a|]; unfold step; run_eff.
  - destruct (initialize_calls s) as (made & Hc & Hmade).
    destruct (initialize s) as [[?|?] s']; cbn in *;
      (destruct Hmade as [->| ->];
       [left; rewrite app_nil_r in Hc; exact Hc
       |right; exists CallConfig; split; [exact Hc|exact I]]).
  - unfold sendPayment, getenv, this_mnee, rail. run_eff.
    destruct (initialized s); cbn; [|left; reflexivity].
    destruct (Js.truthy _); cbn; [|left; reflexivity].
    destruct (mnee s); cbn; [|left; reflexivity].
    destruct (sdk_transfer _ _ _ _) as [[?|?] ?]; cbn; right; eexists; split; reflexivity.
  - unfold getBalance, getenv, this_mnee, rail. run_eff.
    destruct (initialized s); cbn; [|left; reflexivity].
    destruct (Js.truthy _); cbn; [|left; reflexivity].
    destruct (mnee s); cbn; [|left; reflexivity].
    destruct (sdk_balance _ _ _) as [[?|?] ?]; cbn; right; eexists; split; reflexivity || exact I.
  - left. pose proof (calculateFee_unchanged a s) as Hs.
    destruct (calculateFee a s) as [[?|?] ?]; cbn in *; subst; reflexivity.
  - left. reflexivity.
  - unfold requestFromFaucet, getenv, this_mnee, rail. run_eff.
    destruct (Js.strict_ne_str _ _); cbn; [left; reflexivity|].
    destruct (Js.truthy _); cbn; [|left; reflexivity].
    destruct (mnee s); cbn; [|left; reflexivity].
    destruct (sdk_faucet _ _ _) as [[?|?] ?]; cbn; right; eexists; split; reflexivity || exact I.
Qed.

Lemma unset_falsy (e : gmap string string) (key : string) :
  Words.unset e key <-> Js.truthy (Js.env_get e key) = false.
Proof.
  unfold Words.unset, Js.env_get. destruct (e !! key) as [v|]; cbn.
  - destruct (String.eqb_spec v "") as [->|Hne]; cbn; split; auto; try discriminate.
    intros [Hv|Hv]; congruence.
  - split; auto.
Qed.

Lemma set_truthy (e : gmap string string) (key v : string) :
  e !! key = Some v -> v <> "" ->
  Js.env_get e key = Js.Str v /\ Js.truthy (Js.env_get e key) = true.
Proof.
  intros Hv Hne. unfold Js.env_get. rewrite Hv. split; [reflexivity|]. cbn.
  destruct (String.eqb_spec v ""); [contradiction|reflexivity].
Qed.

Lemma step_keeps_env (op : Op) (s : State Ext) : env (snd (step op s)) = env s.
Proof.
  destruct (initialize_or_not op) as [->|Hop].
  - unfold step. run_eff. pose proof (initialize_cases s) as Hi.
    destruct (initialize s) as [[?|?] s']; cbn.
    + destruct Hi as (key & c & cfg & x' & Hi). tauto.
    + destruct Hi as (_ & _ & Henv & _). exact Henv.
  - destruct (step_same_object op s Hop) as (_ & _ & _ & _ & _ & Henv). exact Henv.
Qed.

Lemma run_keeps_env (ops : list Op) (s : State Ext) : env (run ops s) = env s.
Proof.
  revert s. induction ops as [|op ops IH]; intros s; cbn; [reflexivity|].
  rewrite IH. apply step_keeps_env.
Qed.

(** X3: in any state the service can be in after a successful
    [initialize], with the bot's WIF configured, [sendPayment] makes exactly
    one transfer, of exactly the amount given to exactly the recipient
    given, signed with the configured WIF.  It resolves to a record with
    the SDK's transaction id and the same amount, recipient and bounty id
    when the transfer resolves, and rethrows the SDK's error when it
    rejects; a missing client is never the cause of a failure there. *)
Theorem sendPayment_transfers_once (ops : list Op) (e : gmap string string) (x : Ext)
    (r : string) (a : Js.Num) (b wif : string) :
  let s := run ops (constructor e x) in
  initialized s = true ->
  e !! "MNEE_BOT_WIF" = Some wif -> wif <> "" ->
  exists c,
    mnee s = Some c
    /\ sendPayment r a b s
       = (match fst (sdk_transfer c [(r, a)] (Js.Str wif) (ext s)) with
          | Returned result => Returned (mkPayment true (transactionId result) a r b)
          | Thrown err => Thrown err
          end,
          set_ext (snd (sdk_transfer c [(r, a)] (Js.Str wif) (ext s)))
            (CallTransfer [(r, a)] (Js.Str wif)) s).
Proof.
  intros s Hup Hwif Hne.
  assert (has_client s) as Hclient by (apply has_client_run, has_client_constructor).
  destruct Hclient as [c Hc]; [right; exact Hup|].
  exists c. split; [exact Hc|].
  assert (env s = e) as Henv by (unfold s; rewrite run_keeps_env; reflexivity).
  destruct (set_truthy (env s) "MNEE_BOT_WIF" wif) as [Hget Htruthy];
    [rewrite Henv; exact Hwif|exact Hne|].
  clearbody s.
  unfold sendPayment, getenv, this_mnee, rail. run_eff.
  rewrite Hup. cbn. rewrite Htruthy. cbn. rewrite Hc, Hget. cbn.
  destruct (sdk_transfer c [(r, a)] (Js.Str wif) (ext s)) as [[result|err] x']; reflexivity.
Qed.

(** X4: with the flag up but the wallet not configured, the wallet
    methods fail before any rail call and change nothing: [sendPayment]
    without [MNEE_BOT_WIF], [getBalance] without [MNEE_BOT_ADDRESS], and in
    the sandbox [requestFromFaucet] without [MNEE_BOT_ADDRESS], each with
    its own error. *)
Theorem missing_wallet_settings (s : State Ext) :
  initialized s = true ->
  (Words.unset (env s) "MNEE_BOT_WIF" ->
   forall r a b,
     sendPayment r a b s = (Thrown (Js.error "MNEE bot WIF not configured"), s))
  /\ (Words.unset (env s) "MNEE_BOT_ADDRESS" ->
      getBalance s = (Thrown (Js.error "MNEE bot address not configured"), s)
      /\ (env s !! "MNEE_ENVIRONMENT" = Some "sandbox" ->
          requestFromFaucet s
          = (Thrown (Js.error "MNEE bot address not configured"), s))).
Proof.
  intros Hup. split.
  - intros Hwif r a b. apply unset_falsy in Hwif.
    unfold sendPayment, getenv. run_eff. rewrite Hup. cbn. rewrite Hwif. reflexivity.
  - intros Haddr. apply unset_falsy in Haddr. split.
    + unfold getBalance, getenv. run_eff. rewrite Hup. cbn. rewrite Haddr. reflexivity.
    + intros Hmode. unfold requestFromFaucet, getenv. run_eff.
      unfold Js.env_get at 1. rewrite Hmode. cbn. rewrite Haddr. reflexivity.
Qed.

(** A [getBalance] that resolves has read a configured address and added
    the one balance call for it. *)
Lemma getBalance_resolved_call (s s' : State Ext) (b : Balance) :
  getBalance s = (Returned b, s') ->
  exists addr, env s !! "MNEE_BOT_ADDRESS" = Some addr /\ addr <> ""
               /\ calls s' = (calls s ++ [CallBalance (Js.Str addr)])%list.
Proof.
  unfold getBalance, getenv, this_mnee, rail. run_eff.
  destruct (initialized s); cbn; [|discriminate].
  destruct (Js.truthy (Js.env_get (env s) "MNEE_BOT_ADDRESS")) eqn:Haddr; cbn; [|discriminate].
  apply truthy_env_get in Haddr as (addr & Haddr & Hne).
  assert (Js.env_get (env s) "MNEE_BOT_ADDRESS" = Js.Str addr) as ->
    by (unfold Js.env_get; rewrite Haddr; reflexivity).
  destruct (mnee s) as [c|]; cbn; [|discriminate].
  destruct (sdk_balance c (Js.Str addr) (ext s)) as [[bal|err] x']; cbn; [|discriminate].
  intros Heq. injection Heq as <- <-. cbn.
  exists addr. repeat split; auto.
Qed.


(** X6: a failed [initialize] leaves the flag, the loaded configuration
    and the environment as they were, whatever step failed. *)
Theorem failed_initialize_keeps_flag (s s' : State Ext) (err : Js.Error) :
  initialize s = (Thrown err, s') ->
  initialized s' = initialized s /\ mneeConfig s' = mneeConfig s /\ env s' = env s.
Proof.
  intros Hrun. pose proof (initialize_cases s) as Hi. rewrite Hrun in Hi.
  destruct Hi as (Hini & Hcfg & Henv & _). auto.
Qed.

(** X7: without an API key ([MNEE_API_KEY] unset or empty) [initialize]
    throws, having built no client and made no rail call: the service
    object, the external state and the rail log are as before (only the
    SDK module may have been loaded). *)
Theorem initialize_without_api_key (s : State Ext) :
  Words.unset (env s) "MNEE_API_KEY" ->
  exists err s',
    initialize s = (Thrown err, s')
    /\ (err = Words.sdk_not_loaded
        \/ err = Js.error "MNEE_API_KEY not set in environment variables")
    /\ mnee s' = mnee s /\ mneeConfig s' = mneeConfig s /\ initialized s' = initialized s
    /\ ext s' = ext s /\ calls s' = calls s.
Proof.
  intros Hkey. apply unset_falsy in Hkey.
  pose proof (loadMneeSdk_cases s) as Hl.
  unfold initialize. unfold bind at 1.
  destruct (loadMneeSdk s) as [[[cls|]|e] s1]; [| |contradiction].
  - destruct Hl as (_ & _ & _ & Hm & Hcfg & Hini & Henv & Hext & Hcalls).
    unfold getenv. run_eff. rewrite Henv, Hkey. cbn.
    eexists _, s1. split; [reflexivity|]. repeat split; auto.
  - destruct Hl as (Hm & Hcfg & Hini & Henv & Hext & Hcalls).
    eexists _, s1. split; [reflexivity|]. repeat split; auto.
Qed.

Lemma initialize_without_class (s : State Ext) :
  sdkLoaded s = true -> Mnee s = None ->
  initialize s = (Thrown Words.sdk_not_loaded, s).
Proof.
  intros Hl Hm. unfold initialize, loadMneeSdk. run_eff. rewrite Hl, Hm. reflexivity.
Qed.

Lemma run_without_class (ops : list Op) (s : State Ext) :
  sdkLoaded s = true -> Mnee s = None ->
  sdkLoaded (run ops s) = true /\ Mnee (run ops s) = None.
Proof.
  revert s. induction ops as [|op ops IH]; intros s Hl Hm; cbn; [auto|].
  apply IH.
  - destruct (initialize_or_not op) as [->|Hop].
    + unfold step. run_eff. rewrite (initialize_without_class s Hl Hm). exact Hl.
    + destruct (step_same_object op s Hop) as (_ & Hl' & _). congruence.
  - destruct (initialize_or_not op) as [->|Hop].
    + unfold step. run_eff. rewrite (initialize_without_class s Hl Hm). exact Hm.
    + destruct (step_same_object op s Hop) as (Hm' & _). congruence.
Qed.

(** X8: if the first import of the SDK resolves to a module without a
    default export, the failure is permanent: that [initialize] and every
    later one, after any other method calls, throw the SDK-not-loaded error
    and change nothing, and the import is not tried again. *)
Theorem sdk_without_default_is_permanent (s : State Ext) (ops : list Op) :
  sdkLoaded s = false ->
  sdk_import (ext s) = Returned None ->
  fst (initialize s) = Thrown Words.sdk_not_loaded
  /\ initialize (run ops (snd (initialize s)))
     = (Thrown Words.sdk_not_loaded, run ops (snd (initialize s))).
Proof.
  intros Hl Himport.
  assert (initialize s = (Thrown Words.sdk_not_loaded, set_loaded None s)) as Hfirst.
  { unfold initialize, loadMneeSdk. run_eff. rewrite Hl, Himport. reflexivity. }
  rewrite Hfirst. cbn [fst snd]. split; [reflexivity|].
  destruct (run_without_class ops (set_loaded None s)) as [Hl' Hm']; try reflexivity.
  apply initialize_without_class; assumption.
Qed.

(** X9: with [MNEE_ENVIRONMENT] unset, a successful [initialize] has built
    its client for the [sandbox] environment, and yet [requestFromFaucet]
    refuses right after it as outside the sandbox: the faucet needs the
    variable set explicitly. *)
Theorem default_sandbox_has_no_faucet (s s' : State Ext) :
  env s !! "MNEE_ENVIRONMENT" = None ->
  initialize s = (Returned tt, s') ->
  (exists key c,
      sdk_new (mkClient (Js.Str "sandbox") (Js.Str key)) (ext s) = Returned c
      /\ mnee s' = Some c)
  /\ requestFromFaucet s'
     = (Thrown (Js.error "Faucet is only available in sandbox environment"), s').
Proof.
  intros Hmode Hrun. pose proof (initialize_cases s) as Hi. rewrite Hrun in Hi.
  destruct Hi as (key & c & cfg & x' & _ & _ & _ & _ & Hnew & _ & Hm & _ & _ & Henv & _).
  unfold Js.env_get in Hnew. rewrite Hmode in Hnew. cbn in Hnew.
  split; [exists key, c; auto|].
  unfold requestFromFaucet, getenv. run_eff.
  unfold Js.env_get. rewrite Henv, Hmode. reflexivity.
Qed.

(** X10: with a configuration loaded, [calculateFee] throws the
    no-fee-tier error whenever the fee table is empty or the SDK converts
    the amount to [NaN]: [NaN] lies in no tier. *)
Theorem calculateFee_without_tier (ops : list Op) (e : gmap string string) (x : Ext)
    (amount : Js.Num) (config : MneeConfig) :
  let s := run ops (constructor e x) in
  mneeConfig s = Some config ->
  fees config = [] \/ (forall c, toAtomicAmount c amount = Js.NaN) ->
  calculateFee amount s
  = (Thrown (Js.error ("No fee tier found for amount "
                       ++ Js.NumberToString amount ++ " MNEE")), s).
Proof.
  intros s Hcfg Hnone.
  assert (has_client s) as Hclient by (apply has_client_run, has_client_constructor).
  destruct Hclient as [c Hc]; [left; rewrite Hcfg; eexists; reflexivity|].
  clearbody s.
  unfold calculateFee, this_mnee. run_eff. rewrite Hcfg, Hc. cbn.
  assert (List.find (tier_applies (toAtomicAmount c amount)) (fees config) = None) as ->;
    [|reflexivity].
  destruct Hnone as [->|Hnan]; [reflexivity|]. rewrite Hnan.
  induction (fees config) as [|t ts IH]; [reflexivity|]. cbn. exact IH.
Qed.

End Facts.
End MneeMore.

(** ** More on the ledger schema *)

Module DbMore.
Import Db DbFacts Words.

(** *** [initDb] on a database that may already hold tables *)

Lemma relation_exists_spec (n : string) (db : gmap string Table) :
  relation_exists n db = true
  <-> is_Some (db !! n)
      \/ exists k t, db !! k = Some t
                     /\ existsb (fun i => String.eqb (idx_name i) n) (indexes t) = true.
Proof.
  unfold relation_exists. rewrite orb_true_iff, existsb_exists. split.
  - intros [H|([k t] & Hin & Hex)].
    + left. destruct (db !! n); [eauto|discriminate].
    + right. exists k, t. split; [|exact Hex].
      apply elem_of_map_to_list, list_elem_of_In, Hin.
  - intros [[t Ht]|(k & t & Hk & Hex)].
    + left. rewrite Ht. reflexivity.
    + right. exists (k, t). split; [|exact Hex].
      apply list_elem_of_In, elem_of_map_to_list, Hk.
Qed.

(** A relation stays when a table is added, and when a table is replaced
    by one with at least its indexes. *)
Lemma relation_exists_insert (n k : string) (db : gmap string Table) (t' : Table) :
  relation_exists n db = true ->
  (forall t, db !! k = Some t ->
             existsb (fun i => String.eqb (idx_name i) n) (indexes t) = true ->
             existsb (fun i => String.eqb (idx_name i) n) (indexes t') = true) ->
  relation_exists n (<[k := t']> db) = true.
Proof.
  rewrite !relation_exists_spec. intros [Hn|(k0 & t0 & Hk0 & Hex)] Hmono.
  - left. apply lookup_insert_is_Some. destruct (decide (k = n)); auto.
  - right. destruct (decide (k = k0)) as [->|Hne].
    + exists k0, t'. rewrite lookup_insert_eq. split; [reflexivity|]. eapply Hmono; eauto.
    + exists k0, t0. rewrite lookup_insert_ne by exact Hne. auto.
Qed.

Lemma exec_keeps_relations (db db' : gmap string Table) (st : Stmt) (n : string) :
  exec db st = inr db' -> relation_exists n db = true -> relation_exists n db' = true.
Proof.
  destruct st as [name cols|u name table cols]; cbn.
  - destruct (relation_exists name db) eqn:Hex; intros E; injection E as <-; [auto|].
    intros Hn. apply relation_exists_insert; [exact Hn|].
    intros t Ht _. exfalso.
    assert (relation_exists name db = true) as Hyes
      by (apply relation_exists_spec; left; eauto).
    congruence.
  - destruct (db !! table) as [t|] eqn:Ht;
      [|destruct (relation_exists table db); discriminate].
    destruct (negb (forallb (has_column t) cols)); [discriminate|].
    destruct (relation_exists name db); [intros E; injection E as <-; auto|].
    destruct (u && _); [discriminate|].
    intros E. injection E as <-. intros Hn.
    apply relation_exists_insert; [exact Hn|].
    intros t0 Ht0 Hex. rewrite Ht in Ht0. injection Ht0 as <-.
    cbn. rewrite existsb_app, Hex. reflexivity.
Qed.

Lemma same_content_refl (db : gmap string Table) : same_content db db.
Proof. split; [auto|]. intros [cs ixs rs n] Ht. exists ixs. exact Ht. Qed.

Lemma same_content_trans (a b c : gmap string Table) :
  same_content a b -> same_content b c -> same_content a c.
Proof.
  intros [Hab1 Hab2] [Hbc1 Hbc2]. split.
  - intros name Hne. rewrite Hbc1, Hab1; auto.
  - intros t Ht. destruct (Hab2 t Ht) as [ixs Hb].
    destruct (Hbc2 _ Hb) as [ixs' Hc]. exists ixs'. exact Hc.
Qed.

(** One plain index on the bounty table: what the statement does. *)
Lemma plain_index_step (db : gmap string Table) (t : Table) (nc : string * list string) :
  db !! "bounties" = Some t ->
  exec db (plain_index nc)
  = if negb (forallb (has_column t) (snd nc)) then inl undefined_column
    else if relation_exists (fst nc) db then inr db
    else inr (<["bounties" := mkTable (columns t)
                                (indexes t ++ [mkIndex (fst nc) false (snd nc)])
                                (rows t) (next_serial t)]> db).
Proof. intros Ht. unfold plain_index. cbn. rewrite Ht. reflexivity. Qed.

Lemma plain_index_done (db db' : gmap string Table) (t : Table) (nc : string * list string) :
  db !! "bounties" = Some t ->
  exec db (plain_index nc) = inr db' ->
  forallb (has_column t) (snd nc) = true
  /\ relation_exists (fst nc) db' = true
  /\ same_content db db'
  /\ exists ixs, db' !! "bounties" = Some (mkTable (columns t) ixs (rows t) (next_serial t)).
Proof.
  intros Ht. rewrite (plain_index_step db t nc Ht).
  destruct (forallb (has_column t) (snd nc)); [|discriminate]. cbn [negb].
  destruct (relation_exists (fst nc) db) eqn:Hex; intros E; injection E as <-.
  - split; [reflexivity|]. split; [exact Hex|]. split; [apply same_content_refl|].
    destruct t; eauto.
  - split; [reflexivity|]. split; [|split; [split|]].
    + apply relation_exists_spec. right. eexists "bounties", _.
      rewrite lookup_insert_eq. split; [reflexivity|]. cbn.
      rewrite existsb_app. cbn. rewrite String.eqb_refl, orb_true_r. reflexivity.
    + intros n Hne. apply lookup_insert_ne. congruence.
    + intros t0 Ht0. rewrite Ht in Ht0. injection Ht0 as <-.
      eexists. rewrite lookup_insert_eq. reflexivity.
    + eexists. rewrite lookup_insert_eq. reflexivity.
Qed.

(** A run of plain indexes that succeeds. *)
Lemma plain_indexes_done (ncs : list (string * list string)) (db db' : gmap string Table)
    (t : Table) :
  db !! "bounties" = Some t ->
  run (map plain_index ncs) db = inr db' ->
  forallb (has_column t) (flat_map snd ncs) = true
  /\ Forall (fun nc => relation_exists (fst nc) db' = true) ncs
  /\ same_content db db'
  /\ exists ixs, db' !! "bounties" = Some (mkTable (columns t) ixs (rows t) (next_serial t)).
Proof.
  revert db t. induction ncs as [|nc ncs IH]; intros db t Ht; cbn [map run flat_map].
  - intros E. injection E as <-.
    split; [reflexivity|]. split; [constructor|]. split; [apply same_content_refl|].
    destruct t; eauto.
  - destruct (exec db (plain_index nc)) as [e|db1] eqn:Hstep; [discriminate|].
    intros Hrest.
    destruct (plain_index_done db db1 t nc Ht Hstep) as (Hcols & Hrel & Hsame & ixs & Ht1).
    destruct (IH db1 _ Ht1 Hrest) as (Hcols' & Hrels & Hsame' & ixs' & Ht').
    cbn [columns rows next_serial] in *.
    split; [|split; [|split]].
    + rewrite forallb_app, Hcols. cbn [andb]. exact Hcols'.
    + constructor; [|exact Hrels].
      clear - Hrel Hrest. revert db1 Hrel Hrest.
      induction ncs as [|nc' ncs IH]; intros db1 Hrel; cbn [map run].
      * intros E. injection E as <-. exact Hrel.
      * destruct (exec db1 (plain_index nc')) as [e|db2] eqn:Hstep; [discriminate|].
        apply IH. eapply exec_keeps_relations; eassumption.
    + eapply same_content_trans; eassumption.
    + eauto.
Qed.

(** On a settled database every plain index of the script is skipped. *)
Lemma plain_indexes_skipped (ncs : list (string * list string)) (db : gmap string Table)
    (t : Table) :
  db !! "bounties" = Some t ->
  forallb (has_column t) (flat_map snd ncs) = true ->
  Forall (fun nc => relation_exists (fst nc) db = true) ncs ->
  run (map plain_index ncs) db = inr db.
Proof.
  intros Ht. induction ncs as [|nc ncs IH]; cbn [map run flat_map]; [reflexivity|].
  rewrite forallb_app, andb_true_iff. intros [Hcols Hrest] Hrels.
  inversion Hrels as [|? ? Hrel Hrels']; subst.
  rewrite (plain_index_step db t nc Ht), Hcols, Hrel. cbn [negb]. auto.
Qed.

(** A bounty table that lacks a column some index needs fails the run. *)
Lemma plain_indexes_fail (ncs : list (string * list string)) (db : gmap string Table)
    (t : Table) :
  db !! "bounties" = Some t ->
  forallb (has_column t) (flat_map snd ncs) = false ->
  run (map plain_index ncs) db = inl undefined_column.
Proof.
  revert db t. induction ncs as [|nc ncs IH]; intros db t Ht; cbn [map run flat_map];
    [discriminate|].
  rewrite forallb_app. intros Hmiss.
  destruct (exec db (plain_index nc)) as [e|db1] eqn:Hstep.
  - rewrite (plain_index_step db t nc Ht) in Hstep.
    destruct (negb (forallb (has_column t) (snd nc))); [congruence|].
    destruct (relation_exists (fst nc) db); discriminate.
  - destruct (plain_index_done db db1 t nc Ht Hstep) as (Hcols & _ & _ & ixs & Ht1).
    rewrite Hcols in Hmiss. cbn [andb] in Hmiss.
    apply (IH db1 _ Ht1). exact Hmiss.
Qed.

Lemma initDb_script_shape :
  initDb_script = CREATE_TABLE "bounties" bounties_columns :: map plain_index bounty_indexes.
Proof. reflexivity. Qed.

(** The script on a database: the table statement, then the indexes. *)
Lemma run_initDb_script (db : gmap string Table) :
  run initDb_script db
  = run (map plain_index bounty_indexes)
      (if relation_exists "bounties" db then db
       else <["bounties" := mkTable bounties_columns [] [] 1]> db).
Proof.
  rewrite initDb_script_shape. cbn [run exec].
  destruct (relation_exists "bounties" db); reflexivity.
Qed.

Lemma create_table_same_content (db : gmap string Table) :
  same_content db (if relation_exists "bounties" db then db
                   else <["bounties" := mkTable bounties_columns [] [] 1]> db).
Proof.
  destruct (relation_exists "bounties" db) eqn:Hex; [apply same_content_refl|].
  split.
  - intros n Hne. apply lookup_insert_ne. congruence.
  - intros t Ht. exfalso.
    assert (relation_exists "bounties" db = true) as Hyes
      by (apply relation_exists_spec; left; eauto).
    congruence.
Qed.

(** A run of the script that succeeds ends on a settled database, and on
    a settled database the script changes nothing. *)
Lemma initDb_settles (db db' : gmap string Table) :
  run initDb_script db = inr db' -> settled db' /\ same_content db db'.
Proof.
  rewrite run_initDb_script. intros Hrun.
  pose proof (create_table_same_content db) as Hsame0.
  set (db0 := if relation_exists "bounties" db then db else _) in *.
  destruct (db0 !! "bounties") as [t|] eqn:Ht.
  - destruct (plain_indexes_done bounty_indexes db0 db' t Ht Hrun)
      as (Hcols & Hrels & Hsame & ixs & Ht').
    split; [|eapply same_content_trans; eassumption].
    split; [|exact Hrels]. eexists. split; [exact Ht'|]. exact Hcols.
  - exfalso. cbn [bounty_indexes flat_map initDb_script map run app] in Hrun.
    unfold plain_index at 1 in Hrun. cbn [exec fst snd] in Hrun.
    rewrite Ht in Hrun. destruct (relation_exists "bounties" db0); discriminate.
Qed.

Lemma settled_run (db : gmap string Table) : settled db -> run initDb_script db = inr db.
Proof.
  intros [(t & Ht & Hcols) Hrels]. rewrite run_initDb_script.
  assert (relation_exists "bounties" db = true) as ->
    by (apply relation_exists_spec; left; eauto).
  exact (plain_indexes_skipped bounty_indexes db t Ht Hcols Hrels).
Qed.

(** X15: [initDb] is idempotent on every database: running it again, as
    every start of the bot does, changes nothing - whether the first run
    created the table and the indexes, skipped what was there, or failed
    and was rolled back. *)
Theorem initDb_idempotent (db : gmap string Table) : initDb (initDb db) = initDb db.
Proof.
  unfold initDb at 2 3. destruct (run initDb_script db) as [e|db'] eqn:Hrun.
  - unfold initDb. rewrite Hrun. reflexivity.
  - destruct (initDb_settles db db' Hrun) as [Hsettled _].
    unfold initDb. rewrite (settled_run db' Hsettled). reflexivity.
Qed.


(** *** Inserts into the bounty table *)

Lemma reachable_table (db : gmap string Table) :
  reachable db -> exists t, db !! "bounties" = Some t /\ columns t = bounties_columns.
Proof.
  intros Hreach.
  destruct (reachable_keeps_keys db Hreach) as (t & _ & _ & Ht & Hcols & _). eauto.
Qed.

Lemma column_names_distinct : NoDup (map col_name bounties_columns).
Proof.
  apply NoDup_ListNoDup. cbn.
  repeat (constructor; [cbn; intuition discriminate|]). constructor.
Qed.

(** Texts within the length of a [VARCHAR] column are stored as they
    are, and what is stored is within the length. *)
Lemma split_chars_short (n : nat) (s : string) :
  (char_length s <= n)%nat -> split_chars n s = (s, EmptyString).
Proof.
  revert n. induction s as [|b s IH]; intros n Hlen; [reflexivity|].
  cbn [char_length split_chars] in *. destruct (continuation b).
  - rewrite (IH n Hlen). reflexivity.
  - destruct n as [|n]; [lia|]. rewrite (IH n) by lia. reflexivity.
Qed.

Lemma split_chars_length (n : nat) (s : string) :
  (char_length (fst (split_chars n s)) <= n)%nat.
Proof.
  revert n. induction s as [|b s IH]; intros n; cbn [split_chars]; [cbn; lia|].
  destruct (continuation b) eqn:Hb.
  - specialize (IH n). destruct (split_chars n s) as [p r]. cbn [fst char_length] in *.
    rewrite Hb. exact IH.
  - destruct n as [|n]; [cbn; lia|].
    specialize (IH n). destruct (split_chars n s) as [p r]. cbn [fst char_length] in *.
    rewrite Hb. lia.
Qed.

Lemma split_chars_without_nul (n : nat) (s : string) :
  without_nul s = true -> without_nul (fst (split_chars n s)) = true.
Proof.
  revert n. induction s as [|b s IH]; intros n; cbn [split_chars without_nul];
    [reflexivity|].
  intros [Hb Hs]%andb_prop. destruct (continuation b).
  - specialize (IH n Hs). destruct (split_chars n s) as [p r].
    cbn [fst without_nul] in *. rewrite Hb, IH. reflexivity.
  - destruct n as [|n]; [reflexivity|].
    specialize (IH n Hs). destruct (split_chars n s) as [p r].
    cbn [fst without_nul] in *. rewrite Hb, IH. reflexivity.
Qed.

Lemma varchar_has_type (n : nat) (s : string) (v : Value) :
  varchar n s = Some v -> has_type (VARCHAR n) v = true.
Proof.
  unfold varchar. pose proof (split_chars_length n s) as Hlen.
  pose proof (split_chars_without_nul n s) as Hnul.
  destruct (split_chars n s) as [p r].
  destruct (without_nul s); [|discriminate]. destruct (blank r); [|discriminate].
  intros E. injection E as <-. cbn [has_type fst] in *.
  rewrite (Hnul eq_refl). apply Nat.leb_le, Hlen.
Qed.

(** The decimal digits of an integer hold no character of code 0. *)
Lemma pretty_N_char_not_nul (x : N) : Ascii.eqb (pretty_N_char x) zero = false.
Proof.
  unfold pretty_N_char. destruct x as [|p]; [reflexivity|].
  do 4 (try (destruct p as [p|p|]; try reflexivity)).
Qed.

Lemma pretty_N_go_without_nul (x : N) (s : string) :
  without_nul s = true -> without_nul (pretty_N_go x s) = true.
Proof.
  revert s. induction (N.lt_wf_0 x) as [x _ IH]. intros s Hs.
  destruct (decide (x = 0)%N) as [->|Hx]; [rewrite pretty_N_go_0; exact Hs|].
  rewrite pretty_N_go_step by lia. apply IH.
  - apply N.div_lt; lia.
  - cbn [without_nul]. rewrite pretty_N_char_not_nul, Hs. reflexivity.
Qed.

Lemma pretty_Z_without_nul (z : Z) : without_nul (pretty z) = true.
Proof.
  assert (forall n : N, without_nul (pretty n) = true) as HN.
  { intros n. unfold pretty, pretty_N. destruct (decide (n = 0)%N); [reflexivity|].
    apply pretty_N_go_without_nul. reflexivity. }
  destruct z as [|p|p]; [reflexivity|apply HN|].
  specialize (HN (N.pos p)). cbn [String.append without_nul]. cbn. exact HN.
Qed.

Lemma int4_has_type (z : Z) (v : Value) :
  int4 z = Some v -> has_type INTEGER v = true /\ has_type SERIAL v = true.
Proof.
  unfold int4. destruct (_ && _) eqn:Hr; [|discriminate].
  intros E. injection E as <-. cbn. auto.
Qed.

(** A value of the column's type is assigned as it is; whatever is
    assigned is a value of the column's type. *)
Lemma has_type_assign (ty : ColType) (v : Value) :
  has_type ty v = true -> assign ty v = Some v.
Proof.
  destruct v as [|z|q|s|t|j], ty as [| |n| | | |]; try discriminate; try reflexivity;
    cbn; intros H.
  - unfold int4. rewrite H. reflexivity.
  - unfold int4. rewrite H. reflexivity.
  - apply andb_prop in H as [Hnul Hlen]. unfold varchar.
    rewrite split_chars_short by (apply Nat.leb_le, Hlen). rewrite Hnul. reflexivity.
  - rewrite H. reflexivity.
Qed.

Lemma assign_has_type (ty : ColType) (v v' : Value) :
  assign ty v = Some v' -> has_type ty v' = true.
Proof.
  destruct v as [|z|q|s|t|j], ty as [| |n| | | |]; cbn; try discriminate;
    try (intros E; injection E as <-; reflexivity);
    try (intros E; apply int4_has_type in E; tauto);
    try apply varchar_has_type.
  - intros E. injection E as <-. apply pretty_Z_without_nul.
  - destruct (without_nul s) eqn:Hnul; [|discriminate].
    intros E. injection E as <-. exact Hnul.
Qed.

Lemma new_row_lookup (t : Table) (time : Z) (given : gmap string Value) (c : Column) :
  columns t = bounties_columns -> In c bounties_columns ->
  new_row t time given !! col_name c = Some (stored t time given c).
Proof.
  intros Hcols Hin. unfold new_row. rewrite Hcols.
  apply elem_of_list_to_map_1.
  - rewrite <- list_fmap_compose.
    replace ((fst ∘ (fun c0 => (col_name c0, stored t time given c0))) <$> bounties_columns)
      with (map col_name bounties_columns) by reflexivity.
    apply column_names_distinct.
  - apply list_elem_of_In, (in_map (fun c0 => (col_name c0, stored t time given c0))), Hin.
Qed.

(** What a successful insert went through. *)
Lemma insert_inversion (db db' : gmap string Table) (t : Table) (time : Z)
    (given : gmap string Value) :
  db !! "bounties" = Some t ->
  insert "bounties" time given db = Some db' ->
  (forall n, is_Some (given !! n) -> exists c, In c (columns t) /\ col_name c = n)
  /\ forallb (assignable t time given) (columns t) = true
  /\ forallb (column_admits (rows t) (new_row t time given)) (columns t) = true
  /\ bounties db' = (rows t ++ [new_row t time given])%list.
Proof.
  intros Ht Hins. unfold insert in Hins. rewrite Ht in Hins.
  cbn [mbind option_bind] in Hins. fold (new_row t time given) in Hins.
  destruct (forallb _ (elements (dom given))) eqn:Hnames; cbn [negb] in Hins;
    [|discriminate].
  destruct (forallb (assignable t time given) _) eqn:Hassign; cbn [negb] in Hins;
    [|discriminate].
  destruct (forallb (column_admits _ _) _) eqn:Hadm; [|discriminate].
  destruct (forallb (index_admits _ _) _); [|discriminate].
  cbn in Hins. injection Hins as <-.
  split; [|split; [reflexivity|split; [reflexivity|]]].
  - intros n Hn. rewrite forallb_forall in Hnames.
    assert (In n (elements (dom given))) as Hin
      by (apply list_elem_of_In, elem_of_elements, elem_of_dom, Hn).
    apply Hnames, existsb_exists in Hin as (c & Hc & Heq).
    apply String.eqb_eq in Heq. eauto.
  - unfold bounties. rewrite lookup_insert_eq. reflexivity.
Qed.

(** The value stored for a column that is assignable. *)
Lemma stored_assigned (t : Table) (time : Z) (given : gmap string Value) (c : Column) :
  assignable t time given c = true ->
  Some (stored t time given c) = assign (col_type c) (supplied t time given c).
Proof.
  unfold assignable, stored. destruct (assign _ _); [reflexivity|discriminate].
Qed.

Lemma supplied_given (t : Table) (time : Z) (given : gmap string Value) (c : Column)
    (v : Value) :
  given !! col_name c = Some v -> supplied t time given c = v.
Proof. unfold supplied. intros ->. reflexivity. Qed.


Lemma insert_refused (db : gmap string Table) (t : Table) (time : Z)
    (given : gmap string Value) (c : Column) :
  db !! "bounties" = Some t -> In c (columns t) ->
  column_admits (rows t) (new_row t time given) c = false ->
  insert "bounties" time given db = None.
Proof.
  intros Ht Hin Hno. unfold insert. rewrite Ht. cbn [mbind option_bind].
  fold (new_row t time given).
  destruct (negb _); [reflexivity|].
  destruct (negb (forallb (assignable t time given) _)); [reflexivity|].
  assert (forallb (column_admits (rows t) (new_row t time given)) (columns t) = false) as ->;
    [|reflexivity].
  apply not_true_is_false. intros Hall. rewrite forallb_forall in Hall.
  rewrite (Hall c Hin) in Hno. discriminate.
Qed.

Lemma insert_unassignable (db : gmap string Table) (t : Table) (time : Z)
    (given : gmap string Value) (c : Column) :
  db !! "bounties" = Some t -> In c (columns t) ->
  assignable t time given c = false ->
  insert "bounties" time given db = None.
Proof.
  intros Ht Hin Hno. unfold insert. rewrite Ht. cbn [mbind option_bind].
  destruct (negb _); [reflexivity|].
  assert (forallb (assignable t time given) (columns t) = false) as ->; [|reflexivity].
  apply not_true_is_false. intros Hall. rewrite forallb_forall in Hall.
  rewrite (Hall c Hin) in Hno. discriminate.
Qed.

(** X18: an insert into the bounty table fails when it leaves out, or
    gives as [NULL], one of the nine columns declared [NOT NULL] without a
    default: bounty_id, repository, issue_id, issue_url, the three amounts,
    transaction_hash, block_number. *)
Theorem insert_requires_columns (db : gmap string Table) (time : Z)
    (given : gmap string Value) (name : string) :
  reachable db ->
  In name required_columns ->
  given !! name = None \/ given !! name = Some VNull ->
  insert "bounties" time given db = None.
Proof.
  intros Hreach Hname Hnull. destruct (reachable_table db Hreach) as (t & Ht & Hcols).
  unfold required_columns in Hname. apply in_map_iff in Hname as (c & <- & Hc).
  apply filter_In in Hc as [Hin Hmust].
  unfold must_be_given in Hmust.
  apply andb_true_iff in Hmust as [Hmust Hty].
  apply andb_true_iff in Hmust as [Hnn Hdef].
  apply (insert_refused db t time given c Ht); [rewrite Hcols; exact Hin|].
  unfold column_admits, cell.
  rewrite (new_row_lookup t time given c Hcols Hin). cbn [default].
  assert (stored t time given c = VNull) as ->.
  { unfold stored.
    assert (supplied t time given c = VNull) as ->; [|reflexivity].
    unfold supplied. destruct Hnull as [-> | ->]; [|reflexivity].
    destruct (default_of (col_constraints c)); [discriminate|].
    destruct (col_type c); try reflexivity. discriminate. }
  rewrite Hnn. cbn [has_type orb andb negb]. reflexivity.
Qed.

(** X19: an insert that gives a [bounty_id] some stored row already holds
    fails: the table never takes a second bounty with the same identifier. *)
Theorem insert_rejects_taken_bounty_id (db : gmap string Table) (time : Z)
    (given r : gmap string Value) (b : Z) :
  reachable db ->
  In r (bounties db) ->
  cell r "bounty_id" = VInt b ->
  given !! "bounty_id" = Some (VInt b) ->
  insert "bounties" time given db = None.
Proof.
  intros Hreach Hr Hb Hgiven. destruct (reachable_table db Hreach) as (t & Ht & Hcols).
  unfold bounties in Hr. rewrite Ht in Hr.
  pose (col := Col "bounty_id" INTEGER [UNIQUE; NOT_NULL]).
  assert (In col bounties_columns) as Hin by (cbn; tauto).
  destruct (assignable t time given col) eqn:Hassign;
    [|apply (insert_unassignable db t time given col Ht);
      [rewrite Hcols; exact Hin|exact Hassign]].
  apply (insert_refused db t time given col Ht); [rewrite Hcols; exact Hin|].
  assert (cell (new_row t time given) "bounty_id" = VInt b) as Hcell.
  { unfold cell.
    replace (new_row t time given !! "bounty_id") with (Some (stored t time given col))
      by (symmetry; exact (new_row_lookup t time given col Hcols Hin)).
    cbn [default]. unfold assignable in Hassign. unfold stored.
    rewrite (supplied_given t time given col (VInt b) Hgiven) in *.
    cbn [col col_type assign] in *. unfold int4 in *.
    destruct (_ && _); [reflexivity|discriminate]. }
  assert (forallb (fun o => negb (value_eqb (cell o "bounty_id") (VInt b))) (rows t) = false)
    as Hdup.
  { apply not_true_is_false. intros Hall. rewrite forallb_forall in Hall.
    specialize (Hall r Hr). rewrite Hb in Hall. cbn in Hall.
    rewrite Z.eqb_refl in Hall. discriminate. }
  unfold column_admits.
  cbn [col col_name col_type has_constraint col_constraints existsb constraint_eqb orb].
  rewrite Hcell, Hdup. apply andb_false_r.
Qed.

End DbMore.

(** ** More on the handlers *)

Module RoutesMore.
Import Routes Reads RoutesFacts.

Section Facts.
Context {W : Type} `{Services W} `{Model W} `{Js.Runtime}.

(** X20: the handlers of the router always answer: whatever the request,
    the state and the behaviour of the services, none of them throws (so the
    application's error middleware is never reached from them), and the
    status of the reply is one of those the handler names. *)
Theorem handlers_always_answer (st : HState W) (req_body : gmap string Js.Val)
    (req_query : gmap string string) (bountyId owner repo : string) :
  (exists r st', post_create req_body st = (Returned r, st')
                 /\ In (status r) [201; 400; 500]%nat)
  /\ (exists r st', post_claim bountyId req_body st = (Returned r, st')
                    /\ In (status r) [200; 400; 404; 500]%nat)
  /\ (exists r st', post_escalate bountyId st = (Returned r, st')
                    /\ In (status r) [200; 400; 404; 500]%nat)
  /\ (exists r st', get_bounty bountyId st = (Returned r, st')
                    /\ In (status r) [200; 404; 500]%nat)
  /\ (exists r st', list_bounties owner repo req_query st = (Returned r, st')
                    /\ In (l_status r) [200; 500]%nat).
Proof.
  repeat split.
  - unfold post_create, call. run_eff.
    destruct (negb _ || _ || _ || _); cbn; [eexists _, _; split; [reflexivity|cbn; auto]|].
    destruct (createBounty _ _) as [[?|?] ?]; cbn;
      eexists _, _; (split; [reflexivity|cbn; auto]).
  - unfold post_claim, call. run_eff.
    destruct (negb _ || _); cbn; [eexists _, _; split; [reflexivity|cbn; auto]|].
    destruct (findOne _ _) as [[doc|]|?]; cbn;
      try (eexists _, _; split; [reflexivity|cbn; auto 6]).
    destruct (Js.strict_ne_str _ _); cbn;
      [eexists _, _; split; [reflexivity|cbn; auto]|].
    destruct (claimBounty _ _ _ _) as [[?|?] ?]; cbn;
      [|eexists _, _; split; [reflexivity|cbn; auto 6]].
    destruct (save _ _) as [[?|?] ?]; cbn;
      eexists _, _; (split; [reflexivity|cbn; auto 6]).
  - unfold post_escalate, call. run_eff.
    destruct (findOne _ _) as [[doc|]|?]; cbn;
      try (eexists _, _; split; [reflexivity|cbn; auto 6]).
    destruct (Js.strict_ne_str _ _); cbn;
      [eexists _, _; split; [reflexivity|cbn; auto]|].
    destruct (escalateBounty _ _) as [[?|?] ?]; cbn;
      [|eexists _, _; split; [reflexivity|cbn; auto 6]].
    destruct (Js.truthy _); eexists _, _; (split; [reflexivity|cbn; auto 6]).
  - unfold get_bounty, call. run_eff.
    destruct (findOne _ _) as [[doc|]|?]; cbn;
      eexists _, _; (split; [reflexivity|cbn; auto 6]).
  - unfold list_bounties. run_eff.
    destruct (find _ _ _ _) as [docs|?]; cbn;
      [|eexists _, _; split; [reflexivity|cbn; auto]].
    destruct (countDocuments _ _) as [total|?]; cbn;
      eexists _, _; (split; [reflexivity|cbn; auto]).
Qed.

(** X21: once [claimBounty] has settled an active bounty, the handler
    saves the document it fetched before the settlement, changed only in
    its [pullRequestUrl] (so still carrying the status [active] it was read
    with), and the reply depends on that save alone: 200 with the
    settlement's amount and transaction hash when it resolves, 500 with the
    error's message when it throws.  The settlement is not undone. *)
Theorem post_claim_after_settlement (bountyId : string) (req_body : gmap string Js.Val)
    (st : HState W) (doc : Doc) (result : ClaimResult) (w1 : W) :
  Js.truthy (field req_body "solver") = true ->
  Js.truthy (field req_body "pullRequestUrl") = true ->
  findOne (Js.parseInt bountyId) (world st) = Returned (Some doc) ->
  field doc "status" = Js.Str "active" ->
  claimBounty (Js.parseInt bountyId) (field req_body "solver")
    (field req_body "paymentTxId") (world st) = (Returned result, w1) ->
  let saved := <["pullRequestUrl" := field req_body "pullRequestUrl"]> doc in
  field saved "status" = Js.Str "active"
  /\ post_claim bountyId req_body st
     = (Returned
          (match fst (save saved w1) with
           | Returned _ =>
             mkResponse 200
               [("success", Js.Boolean true); ("amount", cl_amount result);
                ("transactionHash", cl_transactionHash result);
                ("solver", field req_body "solver")]
           | Thrown err =>
             mkResponse 500
               [("error", Js.Str "Failed to claim bounty");
                ("message", Js.Str (Js.err_message err))]
           end),
        mkHState (snd (save saved w1))
          (((invoked st ++ [FindOne (Js.parseInt bountyId)])
            ++ [ClaimBounty (Js.parseInt bountyId) (field req_body "solver")
                  (field req_body "paymentTxId")])
           ++ [Save saved])%list).
Proof.
  intros Hsolver Hpr Hfound Hactive Hclaim saved. split.
  - unfold field, saved, Doc in *. rewrite lookup_insert_ne by discriminate. exact Hactive.
  - unfold post_claim, call. run_eff. rewrite Hsolver, Hpr. cbn.
    rewrite Hfound. cbn. rewrite Hactive. cbn. rewrite Hclaim. cbn. fold saved.
    destruct (save saved w1) as [[[]|err] w2]; reflexivity.
Qed.

(** X22: for a bounty identifier the model does not know, the claim
    handler (given solver and pull request), the escalate handler and the
    details handler all answer 404 [Bounty not found], having made the
    [findOne] query and no other call. *)
Theorem unknown_bounty_is_404 (bountyId : string) (req_body : gmap string Js.Val)
    (st : HState W) :
  findOne (Js.parseInt bountyId) (world st) = Returned None ->
  let not_found :=
    (Returned (mkResponse 404 [("error", Js.Str "Bounty not found")]),
     mkHState (world st) (invoked st ++ [FindOne (Js.parseInt bountyId)])%list) in
  (Js.truthy (field req_body "solver") = true ->
   Js.truthy (field req_body "pullRequestUrl") = true ->
   post_claim bountyId req_body st = not_found)
  /\ post_escalate bountyId st = not_found
  /\ get_bounty bountyId st = not_found.
Proof.
  intros Hnone not_found. repeat split.
  - intros Hsolver Hpr. unfold post_claim, call. run_eff.
    rewrite Hsolver, Hpr. cbn. rewrite Hnone. reflexivity.
  - unfold post_escalate, call. run_eff. rewrite Hnone. reflexivity.
  - unfold get_bounty, call. run_eff. rewrite Hnone. reflexivity.
Qed.

(** The escalate handler answers 400 for a bounty whose stored status
    is not [active], before [escalateBounty] is called: its only call is
    the [findOne] query and the world is as it was. *)
Theorem post_escalate_rejects_inactive (bountyId : string) (st : HState W) (doc : Doc) :
  findOne (Js.parseInt bountyId) (world st) = Returned (Some doc) ->
  field doc "status" <> Js.Str "active" ->
  post_escalate bountyId st
  = (Returned (bad_request "Bounty is not active"),
     mkHState (world st) (invoked st ++ [FindOne (Js.parseInt bountyId)])%list).
Proof.
  intros Hfound Hstatus. unfold post_escalate, call. run_eff.
  rewrite Hfound. cbn.
  assert (Js.strict_ne_str (field doc "status") "active" = true) as ->; [|reflexivity].
  destruct (field doc "status") as [| | | |s'|]; try reflexivity. cbn.
  destruct (String.eqb_spec s' "active") as [->|]; [congruence|reflexivity].
Qed.

(** X23: past the required-fields guard the handler does not compare
    [maxAmount] with the amount: a truthy [maxAmount] goes to
    [createBounty] as given, below the amount or not, and a falsy one (0,
    [null], [false], the empty string) is replaced like a missing one by
    the product [amount * 3] as JavaScript computes it ([Js.mul]: both
    sides to numbers, then the double nearest to the exact product, or an
    infinity, or [NaN]). *)
Theorem post_create_cap_choice (req_body : gmap string Js.Val) (st : HState W) :
  Js.truthy (field req_body "repository") = true ->
  Js.truthy (field req_body "issueId") = true ->
  Js.truthy (field req_body "issueUrl") = true ->
  Js.truthy (field req_body "amount") = true ->
  exists p,
    invoked (snd (post_create req_body st)) = (invoked st ++ [CreateBounty p])%list
    /\ cp_amount p = field req_body "amount"
    /\ cp_maxAmount p
       = (if Js.truthy (field req_body "maxAmount") then field req_body "maxAmount"
          else Js.mul (field req_body "amount") (Js.Number (Js.Fin 3))).
Proof.
  intros Hr Hi Hu Ha.
  destruct (post_create_calls req_body st Hr Hi Hu Ha) as (Hcalls & _).
  eexists. split; [exact Hcalls|]. split; reflexivity.
Qed.

(** *** Pagination *)

Lemma ceil_div_covers (total : nat) (l : Z) :
  (0 < l)%Z ->
  exists n, ceil_div total (Js.Fin (inject_Z l)) = Finite n
            /\ ((n - 1) * l < Z.of_nat total <= n * l)%Z.
Proof.
  intros Hl. unfold ceil_div.
  assert (0 < inject_Z l)%Q as Hlq by (rewrite (Zlt_Qlt 0 l) in Hl; exact Hl).
  destruct (Qeq_bool (inject_Z l) 0) eqn:Hz.
  { apply Qeq_bool_iff in Hz. rewrite Hz in Hlq. exfalso. exact (Qlt_irrefl 0 Hlq). }
  set (x := (inject_Z (Z.of_nat total) / inject_Z l)%Q).
  exists (Qceiling x). split; [reflexivity|].
  assert (x * inject_Z l == inject_Z (Z.of_nat total))%Q as Hx.
  { unfold x. field. intros Heq. rewrite Heq in Hlq. exact (Qlt_irrefl 0 Hlq). }
  pose proof (Qle_ceiling x) as Hup.
  pose proof (Qceiling_lt x) as Hlow.
  split.
  - rewrite Zlt_Qlt, inject_Z_mult, <- Hx.
    apply Qmult_lt_compat_r; [exact Hlq|exact Hlow].
  - rewrite Zle_Qle, inject_Z_mult, <- Hx.
    apply Qmult_le_compat_r; [exact Hup|apply Qlt_le_weak, Hlq].
Qed.

(** The skip count [(page - 1) * limit] of integers, as doubles compute
    it, is exact while the difference and the product stay within [2^53]
    in magnitude. *)
Lemma skip_exact (p l : Z) :
  (Z.abs (p - 1) <= 2 ^ 53)%Z -> (Z.abs ((p - 1) * l) <= 2 ^ 53)%Z ->
  Js.num_mul (num_sub (Js.Fin (inject_Z p)) (Js.Fin 1)) (Js.Fin (inject_Z l))
  = Js.Fin (inject_Z ((p - 1) * l)).
Proof.
  intros Hp Hpl. unfold num_sub, Js.num_sub. cbn [Js.num_neg Js.num_add].
  assert (inject_Z p + - (1) == inject_Z (p - 1))%Q as E1.
  { unfold Z.sub. rewrite inject_Z_plus. reflexivity. }
  rewrite (DoubleFacts.round_comp _ _ E1), (DoubleFacts.round_integer _ Hp).
  cbn [Js.num_mul].
  assert (inject_Z (p - 1) * inject_Z l == inject_Z ((p - 1) * l))%Q as E2
    by (rewrite inject_Z_mult; reflexivity).
  rewrite (DoubleFacts.round_comp _ _ E2). apply DoubleFacts.round_integer, Hpl.
Qed.

(** X24: with a [limit] that reads as a positive integer [l] and a [page]
    that reads as the integer [p], the list handler returns exactly what
    the model finds for limit [l] after skipping the product
    [(p - 1) * l] as doubles compute it, which is [(p - 1) * l] itself
    while the difference and the product stay within [2^53], and reports
    as [pages] the least number [n] of pages of [l] bounties that hold the
    total: [(n - 1) * l < total <= n * l]. *)
Theorem list_bounties_pagination (owner repo : string) (req_query : gmap string string)
    (st : HState W) (l p : Z) (docs : list Doc) (total : nat) :
  let filter :=
    mkFilter (owner ++ "/" ++ repo)
      (if String.eqb (default "active" (req_query !! "status")) "all" then None
       else Some (default "active" (req_query !! "status"))) in
  let skip :=
    Js.num_mul (num_sub (Js.Fin (inject_Z p)) (Js.Fin 1)) (Js.Fin (inject_Z l)) in
  Js.parseInt (default "20" (req_query !! "limit")) = Js.Fin (inject_Z l) ->
  Js.parseInt (default "1" (req_query !! "page")) = Js.Fin (inject_Z p) ->
  (0 < l)%Z ->
  find filter (Js.Fin (inject_Z l)) skip (world st) = Returned docs ->
  countDocuments filter (world st) = Returned total ->
  exists n,
    list_bounties owner repo req_query st
    = (Returned (mkListResponse 200
                   (Listing (map toJSON docs)
                      (mkPagination (Js.Fin (inject_Z p)) (Js.Fin (inject_Z l)) total
                         (Finite n)))), st)
    /\ ((n - 1) * l < Z.of_nat total <= n * l)%Z
    /\ ((Z.abs (p - 1) <= 2 ^ 53)%Z -> (Z.abs ((p - 1) * l) <= 2 ^ 53)%Z ->
        skip = Js.Fin (inject_Z ((p - 1) * l))).
Proof.
  intros filter skip Hlimit Hpage Hl Hfind Hcount.
  destruct (ceil_div_covers total l Hl) as (n & Hn & Hbounds).
  exists n. split; [|split; [exact Hbounds|apply skip_exact]].
  unfold list_bounties. run_eff. fold filter. rewrite Hlimit, Hpage. fold skip.
  rewrite Hfind. cbn beta iota. rewrite Hcount. cbn beta iota.
  rewrite Hn. destruct st. reflexivity.
Qed.

(** X25: a [limit] that reads as 0 or as no number is not refused: the
    handler still answers 200 when the queries resolve, with a page count
    that is no finite number. *)
Theorem list_bounties_unusable_limit (owner repo : string) (req_query : gmap string string)
    (st : HState W) (r : ListResponse) (st' : HState W) :
  Js.parseInt (default "20" (req_query !! "limit")) = Js.NaN
  \/ Js.parseInt (default "20" (req_query !! "limit")) = Js.Fin 0 ->
  list_bounties owner repo req_query st = (Returned r, st') ->
  l_status r = 500%nat
  \/ exists docs pagination,
      r = mkListResponse 200 (Listing docs pagination)
      /\ pg_pages pagination = NotFinite.
Proof.
  intros Hlimit. unfold list_bounties. run_eff.
  destruct (find _ _ _ _) as [docs|?]; cbn;
    [|intros Heq; injection Heq as <- _; left; reflexivity].
  destruct (countDocuments _ _) as [total|?]; cbn;
    [|intros Heq; injection Heq as <- _; left; reflexivity].
  intros Heq. injection Heq as <- _. right. eexists _, _. split; [reflexivity|].
  cbn. destruct Hlimit as [-> | ->]; reflexivity.
Qed.

End Facts.

Section WalletFacts.
Context {Ext : Type} `{Mnee.Sdk Ext}.

(** X26: while the payment service is not initialised the wallet-balance
    handler answers 500 with the service's not-initialised message, and the
    rail is not contacted: the state is as it was. *)
Theorem wallet_balance_needs_initialize (s : Mnee.State Ext) :
  Mnee.initialized s = false ->
  get_wallet_balance s
  = (Returned (mkResponse 500
                 [("error", Js.Str "Failed to get wallet balance");
                  ("message", Js.Str "MNEE payment service not initialized")]), s).
Proof.
  intros Hoff. unfold get_wallet_balance, Mnee.getBalance. run_eff.
  rewrite Hoff. reflexivity.
Qed.

End WalletFacts.
End RoutesMore.

(** ** Start-up and the pool *)

Module StartupFacts.
Import Mnee MneeFacts MneeMore Startup.

Section PoolFacts.
Context `{Pool.Faults}.

(** When [initDb] resolves the script has run. *)
Lemma initDb_resolved (s s' : Pool.Pg) :
  Pool.initDb s = (Returned tt, s') ->
  Pool.database s' = Db.initDb (Pool.database s).
Proof.
  unfold Pool.initDb, Pool.connect, Pool.try_finally, Pool.query_script, Pool.release.
  run_eff.
  destruct (Pool.connect_error s) as [e|]; [discriminate|].
  destruct (Pool.query_error _) as [e|]; [discriminate|].
  cbn [Pool.database]. unfold Db.initDb.
  destruct (Db.run Db.initDb_script (Pool.database s)) as [e|db']; [discriminate|].
  intros Heq. injection Heq as <-. reflexivity.
Qed.


End PoolFacts.

Section Facts.
Context {Ext C : Type} `{Sdk Ext} `{Blockchain C} `{Pool.Faults} `{Listener}.

Lemma getBalance_keeps_object (s s' : State Ext) (b : Balance) :
  getBalance s = (Returned b, s') -> same_object s s'.
Proof.
  intros Hrun. pose proof (getBalance_same_object s) as Hs. rewrite Hrun in Hs. exact Hs.
Qed.

(** Start-up goes on from [initializeMneeService] with the flag up. *)
Lemma continue_initialized (s s' : State Ext) :
  initializeMneeService s = (Continue, s') -> initialized s' = true.
Proof.
  unfold initializeMneeService, or_exit. unfold bind at 1.
  pose proof (initialize_cases s) as Hi.
  destruct (initialize s) as [[[]|e1] s1]; [|discriminate].
  destruct Hi as (key & c & cfg & x' & _ & _ & _ & _ & _ & _ & _ & _ & Hup & _).
  unfold bind at 1.
  destruct (getBalance s1) as [[b|e2] s2] eqn:Hbal; [|discriminate].
  destruct (getBalance_keeps_object s1 s2 b Hbal) as (_ & _ & _ & _ & Hup2 & _).
  unfold getenv. run_eff.
  destruct (negb _ && _); cbn beta iota.
  2:{ intros Heq. injection Heq as <-. congruence. }
  pose proof (requestFromFaucet_same_object s2) as (_ & _ & _ & _ & Hup3 & _).
  destruct (requestFromFaucet s2) as [[v|e] s3]; cbn in *;
    intros Heq; injection Heq as <-; congruence.
Qed.

(** X12: when [initializeMneeService] lets start-up go on, the service is
    initialised and the rail was called for the configuration, then for the
    balance of the configured address, and then - only with
    [MNEE_ENVIRONMENT] set to [sandbox] - for the faucet, for that same
    address; nothing else was called. *)
Theorem startup_rail_calls (s s' : State Ext) :
  initializeMneeService s = (Continue, s') ->
  initialized s' = true
  /\ exists addr,
      env s !! "MNEE_BOT_ADDRESS" = Some addr /\ addr <> ""
      /\ (calls s'
          = (calls s ++ [CallConfig; CallBalance (Js.Str addr)])%list
          \/ (env s !! "MNEE_ENVIRONMENT" = Some "sandbox"
              /\ calls s'
                 = (calls s ++ [CallConfig; CallBalance (Js.Str addr);
                                CallFaucet (Js.Str addr)])%list)).
Proof.
  unfold initializeMneeService, or_exit. unfold bind at 1.
  pose proof (initialize_cases s) as Hi.
  destruct (initialize s) as [[[]|e1] s1]; [|discriminate].
  destruct Hi as (key & c & cfg & x' & _ & _ & _ & _ & _ & _ & Hc & _ & Hup & Henv1 & _ & Hcalls1).
  unfold bind at 1.
  destruct (getBalance s1) as [[b|e2] s2] eqn:Hbal; [|discriminate].
  destruct (getBalance_resolved_call s1 s2 b Hbal) as (addr & Haddr & Hne & Hcalls2).
  destruct (getBalance_keeps_object s1 s2 b Hbal) as (_ & _ & Hc2 & _ & Hup2 & Henv2).
  rewrite Henv1 in Haddr.
  assert (forall t : State Ext, calls t = calls s2 -> initialized t = true ->
            calls t = (calls s ++ [CallConfig; CallBalance (Js.Str addr)])%list) as Hplain.
  { intros t Ht _. rewrite Ht, Hcalls2, Hcalls1, <- app_assoc. reflexivity. }
  unfold getenv. run_eff.
  destruct (Js.strict_ne_str (Js.env_get (env s2) "MNEE_ENVIRONMENT") "sandbox") eqn:Hmode;
    cbn [negb andb].
  { intros Heq. injection Heq as <-. split; [congruence|].
    exists addr. repeat split; auto. left. apply Hplain; congruence. }
  destruct (Js.num_lt (bal_balance b) (Js.Fin 10)); cbn beta iota.
  2:{ intros Heq. injection Heq as <-. split; [congruence|].
      exists addr. repeat split; auto. left. apply Hplain; congruence. }
  assert (env s !! "MNEE_ENVIRONMENT" = Some "sandbox") as Hsandbox.
  { rewrite Henv2, Henv1 in Hmode. unfold Js.env_get in Hmode.
    destruct (env s !! "MNEE_ENVIRONMENT") as [m|]; [|discriminate].
    unfold Js.strict_ne_str in Hmode. apply negb_false_iff, String.eqb_eq in Hmode.
    rewrite Hmode. reflexivity. }
  assert (requestFromFaucet s2
          = (fst (sdk_faucet c (Js.Str addr) (ext s2)),
             set_ext (snd (sdk_faucet c (Js.Str addr) (ext s2))) (CallFaucet (Js.Str addr)) s2))
    as Hfaucet.
  { destruct (set_truthy (env s2) "MNEE_BOT_ADDRESS" addr) as [Hget Htruthy];
      [congruence|exact Hne|].
    unfold requestFromFaucet, getenv, this_mnee, rail. run_eff.
    rewrite Hmode. cbn. rewrite Htruthy. cbn. rewrite Hc2, Hc, Hget. cbn.
    destruct (sdk_faucet c (Js.Str addr) (ext s2)) as [[v|e] x2]; reflexivity. }
  rewrite Hfaucet.
  destruct (sdk_faucet c (Js.Str addr) (ext s2)) as [[v|e] x2]; cbn;
    intros Heq; injection Heq as <-; cbn; (split; [congruence|]);
    exists addr; repeat split; auto; right; (split; [exact Hsandbox|]);
    rewrite Hcalls2, Hcalls1, <- !app_assoc; reflexivity.
Qed.

(** X13: [initializeMneeService] ends the process, with code 1, only when
    [initialize] or [getBalance] throws: once both have resolved start-up
    goes on, whatever the faucet request does. *)
Theorem faucet_failure_does_not_stop_startup (s s1 s2 : State Ext) (b : Balance) :
  initialize s = (Returned tt, s1) ->
  getBalance s1 = (Returned b, s2) ->
  fst (initializeMneeService s) = Continue.
Proof.
  intros Hinit Hbal. unfold initializeMneeService, or_exit.
  unfold bind at 1. rewrite Hinit. unfold bind at 1. rewrite Hbal.
  unfold getenv. run_eff.
  destruct (negb _ && _); cbn beta iota; [|reflexivity].
  destruct (requestFromFaucet s2) as [[v|e] s3]; reflexivity.
Qed.


End Facts.
End StartupFacts.

(** ** The AuthProvider *)

Module AuthFacts.
Import Auth.

Section Facts.
Context {User A : Type} `{Api User A}.

Lemma is_true_insert_same (st : gmap string string) (key v : string) :
  is_true (<[key := v]> st) key = String.eqb v "true".
Proof. unfold is_true. rewrite lookup_insert_eq. reflexivity. Qed.

Lemma is_true_insert_other (st : gmap string string) (key other v : string) :
  other <> key -> is_true (<[other := v]> st) key = is_true st key.
Proof. intros Hne. unfold is_true. rewrite lookup_insert_ne by exact Hne. reflexivity. Qed.


(** X28: in a browser [exitDemoMode] removes both demo keys from
    [localStorage] and signs the demo user out, and the next [refreshUser]
    goes by the stored token: it asks [api] for it, and without one the
    user stays signed out. *)
Theorem exitDemoMode_forgets_demo (s : State User A) :
  window s = true ->
  let s1 := snd (exitDemoMode s) in
  localStorage s1 !! DEMO_MODE_KEY = None /\ localStorage s1 !! DEMO_ADMIN_KEY = None
  /\ isDemo s1 = false /\ user s1 = None
  /\ exists more,
      api_calls (snd (refreshUser s1)) = (api_calls s ++ GetToken :: more)%list
      /\ (no_token (getToken (api s)) = true ->
          more = [] /\ user (snd (refreshUser s1)) = None).
Proof.
  intros Hw s1. unfold s1, exitDemoMode, setStorage, setIsDemo, setUser. run_eff.
  rewrite Hw. cbn. repeat split.
  - rewrite lookup_delete_ne by discriminate. apply lookup_delete_eq.
  - apply lookup_delete_eq.
  - assert (is_true (delete DEMO_ADMIN_KEY (delete DEMO_MODE_KEY (localStorage s)))
              DEMO_MODE_KEY = false) as Hoff.
    { unfold is_true. rewrite lookup_delete_ne by discriminate.
      rewrite lookup_delete_eq. reflexivity. }
    unfold refreshUser, on_api, setIsDemo, setUser. run_eff. cbn.
    rewrite Hw, !Hoff. cbn.
    destruct (no_token (getToken (api s))); cbn.
    + exists []. split; [reflexivity|]. auto.
    + destruct (getCurrentUser (api s)) as [[u|e] a]; cbn; rewrite <- ?app_assoc; cbn;
        eexists; (split; [reflexivity|discriminate]).
Qed.

(** X29: [logout] never throws, and what it does goes by the [isDemo] of
    the render its function was created in, not by the current state.
    With that [isDemo] true it does exactly what [exitDemoMode] does and
    never calls [api].  With it false it sends the one logout request -
    also when the provider has entered demo mode since that render, and
    demo mode then stays on - and signs the user out only if the request
    resolves: when it rejects, the error is swallowed and the user stays
    as shown. *)
Theorem logout_outcomes (isDemo_at_render : bool) (s : State User A) :
  fst (logout isDemo_at_render s) = Returned tt
  /\ (isDemo_at_render = true ->
      logout isDemo_at_render s = exitDemoMode s
      /\ api_calls (snd (logout isDemo_at_render s)) = api_calls s)
  /\ (isDemo_at_render = false ->
      api_calls (snd (logout isDemo_at_render s)) = (api_calls s ++ [Logout])%list
      /\ isDemo (snd (logout isDemo_at_render s)) = isDemo s
      /\ localStorage (snd (logout isDemo_at_render s)) = localStorage s
      /\ user (snd (logout isDemo_at_render s))
         = match fst (logout_request (api s)) with
           | Returned _ => None
           | Thrown _ => user s
           end).
Proof.
  split; [|split].
  - unfold logout, exitDemoMode, on_api, setStorage, setIsDemo, setUser. run_eff.
    destruct isDemo_at_render; cbn.
    + destruct (window s); reflexivity.
    + destruct (logout_request (api s)) as [[[]|e] a]; reflexivity.
  - intros ->. unfold logout.
    unfold exitDemoMode, setStorage, setIsDemo, setUser. run_eff.
    destruct (window s); split; reflexivity.
  - intros ->. unfold logout, on_api, setUser. run_eff.
    destruct (logout_request (api s)) as [[[]|e] a]; repeat split.
Qed.

(** *** Event by event *)

(** Run without anything coming in between, the two parts of
    [refreshUser] are [refreshUser]. *)
Lemma refreshUser_in_parts (s : State User A) :
  refreshUser s
  = match refreshUser_begin s with
    | (Returned (Some o), s1) => refreshUser_end o s1
    | (_, s1) => (Returned tt, s1)
    end.
Proof.
  unfold refreshUser, refreshUser_begin, refreshUser_end, on_api, setIsDemo, setUser.
  run_eff.
  destruct (window s && _); cbn; [reflexivity|].
  destruct (no_token _); cbn; [reflexivity|].
  destruct (getCurrentUser (api s)) as [[u|e] a]; reflexivity.
Qed.

(** So is [logout] the call of it followed at once by the settling of its
    request. *)
Lemma logout_in_parts (isDemo_at_render : bool) (s : State User A) :
  snd (logout isDemo_at_render s)
  = now (after [LogoutEvent isDemo_at_render; Settle 0] (mkRunning s [])).
Proof.
  destruct isDemo_at_render; cbn [after handle now inflight].
  - unfold logout. run_eff. destruct (exitDemoMode s) as [[[]|e] s1]; reflexivity.
  - unfold logout, on_api, send, setUser. run_eff.
    destruct (logout_request (api s)) as [[[]|e] a]; reflexivity.
Qed.

(** And [login], and the mount effect. *)
Lemma login_in_parts (s : State User A) :
  snd (login s) = now (after [Login; Settle 0] (mkRunning s [])).
Proof.
  cbn [after handle now inflight]. unfold login, on_api, send, assign_href, setHref. run_eff.
  destruct (getAuthUrl (api s)) as [[url|e] a]; cbn; [|reflexivity].
  destruct (window s); reflexivity.
Qed.

Lemma init_in_parts (storage : gmap string string) (w : bool) (a : A) :
  snd (init (mount storage w a)) = now (after [Settle 0] (mounted storage w a)).
Proof.
  unfold init, mounted. run_eff. rewrite refreshUser_in_parts.
  destruct (refreshUser_begin (mount storage w a)) as [[[o|]|e] s1];
    cbn [after handle now inflight]; reflexivity.
Qed.

Lemma resume_same_mode (p : Pending User) (s : State User A) :
  same_mode s (snd (resume p s)).
Proof.
  destruct p as [[u|e] [|]|[url|e]|[[]|e]];
    unfold resume, refreshUser_end, on_api, setUser, setLoading, assign_href, setHref;
    run_eff; try (destruct (window s) eqn:Hw); unfold same_mode; cbn; rewrite ?Hw;
    repeat split.
Qed.

Lemma send_same_mode {B} (c : ApiCall) (f : A -> Outcome B * A) (s : State User A) :
  same_mode s (snd (send c f s)).
Proof. unfold send. destruct (f (api s)); repeat split. Qed.

Lemma refreshUser_begin_mode (s : State User A) :
  window (snd (refreshUser_begin s)) = window s
  /\ demo_flagged (snd (refreshUser_begin s))
     \/ same_mode s (snd (refreshUser_begin s)).
Proof.
  unfold refreshUser_begin, on_api, setIsDemo, setUser. run_eff.
  destruct (window s && is_true (localStorage s) DEMO_MODE_KEY) eqn:Hdemo; cbn.
  - left. apply andb_true_iff in Hdemo as [_ Hflag]. split; [reflexivity|].
    intros _. exact Hflag.
  - right. destruct (no_token _); cbn; [repeat split|].
    destruct (getCurrentUser (api s)) as [[u|e] a]; repeat split.
Qed.

Lemma same_mode_keeps (s s' : State User A) :
  same_mode s s' -> window s = true -> demo_flagged s ->
  window s' = true /\ demo_flagged s'.
Proof.
  intros (Hw & Hd & Hst) Hwin Hs. unfold demo_flagged in *.
  rewrite Hw, Hd, Hst. auto.
Qed.

Lemma exitDemoMode_mode (s : State User A) :
  window (snd (exitDemoMode s)) = window s /\ demo_flagged (snd (exitDemoMode s)).
Proof.
  unfold exitDemoMode, setStorage, setIsDemo, setUser, demo_flagged. run_eff.
  destruct (window s) eqn:Hw; cbn; (split; [auto|discriminate]).
Qed.

Lemma enterDemoMode_mode (asAdmin : bool) (s : State User A) :
  window s = true ->
  window (snd (enterDemoMode asAdmin s)) = true
  /\ demo_flagged (snd (enterDemoMode asAdmin s)).
Proof.
  intros Hw. unfold enterDemoMode, setStorage, setIsDemo, setUser, demo_flagged. run_eff.
  rewrite Hw. cbn. split; [exact Hw|]. intros _.
  rewrite is_true_insert_other by discriminate.
  apply is_true_insert_same.
Qed.

Lemma handle_keeps_flag (ev : Event) (r : Running User A) :
  window (now r) = true -> demo_flagged (now r) ->
  window (now (handle ev r)) = true /\ demo_flagged (now (handle ev r)).
Proof.
  intros Hw Hs. destruct ev as [| |[|]|asAdmin| |i]; cbn [handle].
  - pose proof (refreshUser_begin_mode (now r)) as Hmode.
    destruct (refreshUser_begin (now r)) as [[[o|]|e] s1]; cbn [now snd] in *;
      (destruct Hmode as [[Hw1 Hf1]|Hsame];
       [split; [congruence|exact Hf1]|exact (same_mode_keeps _ _ Hsame Hw Hs)]).
  - pose proof (send_same_mode GetAuthUrl getAuthUrl (now r)) as Hsame.
    destruct (send GetAuthUrl getAuthUrl (now r)) as [o s1]. cbn [now snd] in *.
    exact (same_mode_keeps _ _ Hsame Hw Hs).
  - cbn [now]. destruct (exitDemoMode_mode (now r)) as [Hw1 Hf1].
    split; [congruence|exact Hf1].
  - pose proof (send_same_mode Logout logout_request (now r)) as Hsame.
    destruct (send Logout logout_request (now r)) as [o s1]. cbn [now snd] in *.
    exact (same_mode_keeps _ _ Hsame Hw Hs).
  - cbn [now]. exact (enterDemoMode_mode asAdmin (now r) Hw).
  - cbn [now]. destruct (exitDemoMode_mode (now r)) as [Hw1 Hf1].
    split; [congruence|exact Hf1].
  - destruct (inflight r !! i) as [p|]; [|auto]. cbn [now].
    exact (same_mode_keeps _ _ (resume_same_mode p (now r)) Hw Hs).
Qed.

Lemma mounted_flagged (storage : gmap string string) (a : A) :
  window (now (mounted storage true a)) = true
  /\ demo_flagged (now (mounted storage true a)).
Proof.
  unfold mounted.
  pose proof (refreshUser_begin_mode (mount storage true a)) as Hmode.
  assert (demo_flagged (mount storage true a : State User A)) as Hs
    by (intros Hd; discriminate Hd).
  assert (forall s : State User A,
             window s = true /\ demo_flagged s ->
             window (snd (setLoading false s)) = true
             /\ demo_flagged (snd (setLoading false s))) as Hload.
  { intros s Hs'. exact Hs'. }
  destruct (refreshUser_begin (mount storage true a)) as [[[o|]|e] s1]; cbn [now snd] in *;
    try apply Hload;
    (destruct Hmode as [[Hw1 Hf1]|Hsame];
     [split; [rewrite Hw1; reflexivity|exact Hf1]
     |exact (same_mode_keeps _ _ Hsame eq_refl Hs)]).
Qed.

(** X30: in a browser, from mount on, whatever the consumers call
    ([refreshUser], [login], [logout] from any render, [enterDemoMode],
    [exitDemoMode]), in whatever order the requests in flight settle and
    whatever [api] answers: whenever [isDemo] is true, the demo flag is in
    [localStorage] (which nothing but the provider writes to here).  The
    user shown in demo mode need not be a demo user, though: a
    [refreshUser] that is awaiting the current user when demo mode is
    entered sets the user it fetched once its request resolves, and the
    provider is left in demo mode showing that user. *)
Theorem demo_mode_under_interleaving (evs : list Event) (storage : gmap string string)
    (a : A) :
  demo_flagged (now (after evs (mounted storage true a)))
  /\ forall (s : State User A) (asAdmin : bool) (u : User),
       window s = true ->
       is_true (localStorage s) DEMO_MODE_KEY = false ->
       no_token (getToken (api s)) = false ->
       fst (getCurrentUser (api s)) = Returned u ->
       let r := after [RefreshUser; EnterDemoMode asAdmin; Settle 0] (mkRunning s []) in
       isDemo (now r) = true /\ user (now r) = Some u /\ inflight r = []
       /\ is_true (localStorage (now r)) DEMO_MODE_KEY = true.
Proof.
  split.
  - assert (forall r : Running User A,
               window (now r) = true -> demo_flagged (now r) ->
               demo_flagged (now (after evs r))) as Hgen.
    { induction evs as [|ev evs IH]; intros r Hw Hs; cbn [after]; [exact Hs|].
      destruct (handle_keeps_flag ev r Hw Hs) as [Hw' Hs']. apply IH; assumption. }
    destruct (mounted_flagged storage a) as [Hw Hs]. apply Hgen; assumption.
  - intros s asAdmin u Hw Hflag Htoken Huser r. unfold r. cbn [after handle].
    unfold refreshUser_begin, on_api, setIsDemo, setUser. run_eff. cbn.
    rewrite Hw, Hflag. cbn. rewrite Htoken. cbn.
    destruct (getCurrentUser (api s)) as [o a1]. cbn in Huser. subst o.
    cbn [now inflight app]. unfold enterDemoMode, setStorage, setIsDemo, setUser. run_eff.
    cbn. rewrite Hw. cbn.
    repeat split.
    rewrite is_true_insert_other by discriminate. apply is_true_insert_same.
Qed.

End Facts.
End AuthFacts.

(** ** The further properties on concrete inputs *)

Module MoreExamples.
Import Doubles Fixtures.

#[local] Existing Instance runtime.
#[local] Existing Instance services.
#[local] Existing Instance model.
#[local] Existing Instance escrow.
#[local] Existing Instance api.

Lemma run_outcome {S O : Type} (p : O * S) (o : O) :
  fst p = o -> p = (o, snd p).
Proof. intros <-. destruct p; reflexivity. Qed.

Lemma head_In {A : Type} (l : list A) (d : A) :
  match l with [] => false | _ => true end = true -> In (default d (head l)) l.
Proof. destruct l; [discriminate|]. intros _. left. reflexivity. Qed.

Section DefaultSdk.
#[local] Existing Instance sdk.

(** The payment service after one [initialize] in the configured
    environment. *)
Lemma initialized_service_up :
  Mnee.initialized (Mnee.run [Mnee.OpInitialize] (Mnee.constructor configured_env 0%nat))
  = true.
Proof. vm_compute. reflexivity. Qed.

(** After [initialize], a faucet request that is refused, a second
    [initialize] and a payment leave the flag up. *)
Lemma initialized_stays_up_witness :
  Mnee.initialized
    (Mnee.run [Mnee.OpRequestFromFaucet; Mnee.OpInitialize;
               Mnee.OpSendPayment "1Solver" (Js.Fin 10) "7"]
       (Mnee.run [Mnee.OpInitialize] (Mnee.constructor configured_env 0%nat)))
  = true.
Proof.
  apply (MneeMore.initialized_stays_up
           [Mnee.OpRequestFromFaucet; Mnee.OpInitialize;
            Mnee.OpSendPayment "1Solver" (Js.Fin 10) "7"]
           (Mnee.run [Mnee.OpInitialize] (Mnee.constructor configured_env 0%nat))).
  exact initialized_service_up.
Defined.

(** A payment of 10 MNEE to [1Solver] for bounty 7. *)
Lemma sendPayment_transfers_once_witness :
  let s := Mnee.run [Mnee.OpInitialize] (Mnee.constructor configured_env 0%nat) in
  exists c,
    Mnee.mnee s = Some c
    /\ Mnee.sendPayment "1Solver" (Js.Fin 10) "7" s
       = (match fst (Mnee.sdk_transfer c [("1Solver", Js.Fin 10)] (Js.Str "wif-1")
                       (Mnee.ext s)) with
          | Returned result =>
            Returned (Mnee.mkPayment true (Mnee.transactionId result) (Js.Fin 10)
                        "1Solver" "7")
          | Thrown err => Thrown err
          end,
          Mnee.set_ext (snd (Mnee.sdk_transfer c [("1Solver", Js.Fin 10)] (Js.Str "wif-1")
                               (Mnee.ext s)))
            (Mnee.CallTransfer [("1Solver", Js.Fin 10)] (Js.Str "wif-1")) s).
Proof.
  apply (MneeMore.sendPayment_transfers_once [Mnee.OpInitialize] configured_env 0%nat
           "1Solver" (Js.Fin 10) "7" "wif-1").
  - exact initialized_service_up.
  - vm_compute. reflexivity.
  - discriminate.
Defined.

(** With only the API key configured, the wallet methods fail. *)
Lemma missing_wallet_settings_witness :
  let s := Mnee.run [Mnee.OpInitialize] (Mnee.constructor api_key_only_env 0%nat) in
  (Words.unset (Mnee.env s) "MNEE_BOT_WIF" ->
   forall r a b,
     Mnee.sendPayment r a b s = (Thrown (Js.error "MNEE bot WIF not configured"), s))
  /\ (Words.unset (Mnee.env s) "MNEE_BOT_ADDRESS" ->
      Mnee.getBalance s = (Thrown (Js.error "MNEE bot address not configured"), s)
      /\ (Mnee.env s !! "MNEE_ENVIRONMENT" = Some "sandbox" ->
          Mnee.requestFromFaucet s
          = (Thrown (Js.error "MNEE bot address not configured"), s))).
Proof.
  apply (MneeMore.missing_wallet_settings
           (Mnee.run [Mnee.OpInitialize] (Mnee.constructor api_key_only_env 0%nat))).
  vm_compute. reflexivity.
Defined.


(** Without an API key [initialize] fails and the flag stays down. *)
Lemma failed_initialize_keeps_flag_witness :
  let s := Mnee.constructor (∅ : gmap string string) 0%nat in
  Mnee.initialized (snd (Mnee.initialize s)) = Mnee.initialized s
  /\ Mnee.mneeConfig (snd (Mnee.initialize s)) = Mnee.mneeConfig s
  /\ Mnee.env (snd (Mnee.initialize s)) = Mnee.env s.
Proof.
  apply (MneeMore.failed_initialize_keeps_flag (Mnee.constructor ∅ 0%nat)
           (snd (Mnee.initialize (Mnee.constructor ∅ 0%nat)))
           (Js.error "MNEE_API_KEY not set in environment variables")).
  apply run_outcome. vm_compute. reflexivity.
Defined.

Lemma initialize_without_api_key_witness :
  let s := Mnee.constructor (∅ : gmap string string) 0%nat in
  exists err s',
    Mnee.initialize s = (Thrown err, s')
    /\ (err = Words.sdk_not_loaded
        \/ err = Js.error "MNEE_API_KEY not set in environment variables")
    /\ Mnee.mnee s' = Mnee.mnee s /\ Mnee.mneeConfig s' = Mnee.mneeConfig s
    /\ Mnee.initialized s' = Mnee.initialized s
    /\ Mnee.ext s' = Mnee.ext s /\ Mnee.calls s' = Mnee.calls s.
Proof.
  apply (MneeMore.initialize_without_api_key (Mnee.constructor ∅ 0%nat)).
  left. reflexivity.
Defined.

(** With [MNEE_ENVIRONMENT] unset the client is a sandbox client and the
    faucet is refused. *)
Lemma default_sandbox_has_no_faucet_witness :
  let s := Mnee.constructor configured_env 0%nat in
  (exists key c,
      Mnee.sdk_new (Mnee.mkClient (Js.Str "sandbox") (Js.Str key)) (Mnee.ext s) = Returned c
      /\ Mnee.mnee (snd (Mnee.initialize s)) = Some c)
  /\ Mnee.requestFromFaucet (snd (Mnee.initialize s))
     = (Thrown (Js.error "Faucet is only available in sandbox environment"),
        snd (Mnee.initialize s)).
Proof.
  apply (MneeMore.default_sandbox_has_no_faucet (Mnee.constructor configured_env 0%nat)
           (snd (Mnee.initialize (Mnee.constructor configured_env 0%nat)))).
  - vm_compute. reflexivity.
  - apply run_outcome. vm_compute. reflexivity.
Defined.

(** The fee of an amount that is [NaN]. *)
Lemma calculateFee_without_tier_witness :
  let s := Mnee.run [Mnee.OpInitialize] (Mnee.constructor configured_env 0%nat) in
  Mnee.calculateFee Js.NaN s
  = (Thrown (Js.error ("No fee tier found for amount "
                       ++ Js.NumberToString Js.NaN ++ " MNEE")), s).
Proof.
  apply (MneeMore.calculateFee_without_tier [Mnee.OpInitialize] configured_env 0%nat
           Js.NaN demo_config).
  - vm_compute. reflexivity.
  - right. intros c. reflexivity.
Defined.

(** Start-up in the configured environment, with 50 MNEE in the wallet:
    configuration and balance are fetched, the faucet is not called. *)
Lemma startup_rail_calls_witness :
  let s := Mnee.constructor configured_env 0%nat in
  Mnee.initialized (snd (Startup.initializeMneeService s)) = true
  /\ exists addr,
      Mnee.env s !! "MNEE_BOT_ADDRESS" = Some addr /\ addr <> ""
      /\ (Mnee.calls (snd (Startup.initializeMneeService s))
          = (Mnee.calls s ++ [Mnee.CallConfig; Mnee.CallBalance (Js.Str addr)])%list
          \/ (Mnee.env s !! "MNEE_ENVIRONMENT" = Some "sandbox"
              /\ Mnee.calls (snd (Startup.initializeMneeService s))
                 = (Mnee.calls s ++ [Mnee.CallConfig; Mnee.CallBalance (Js.Str addr);
                                     Mnee.CallFaucet (Js.Str addr)])%list)).
Proof.
  apply (StartupFacts.startup_rail_calls (Mnee.constructor configured_env 0%nat)
           (snd (Startup.initializeMneeService (Mnee.constructor configured_env 0%nat)))).
  apply run_outcome. vm_compute. reflexivity.
Defined.

(** Before [initialize] the wallet-balance route answers 500. *)
Lemma wallet_balance_needs_initialize_witness :
  Reads.get_wallet_balance (Mnee.constructor configured_env 0%nat)
  = (Returned (Routes.mkResponse 500
                 [("error", Js.Str "Failed to get wallet balance");
                  ("message", Js.Str "MNEE payment service not initialized")]),
     Mnee.constructor configured_env 0%nat).
Proof.
  apply (RoutesMore.wallet_balance_needs_initialize (Mnee.constructor configured_env 0%nat)).
  reflexivity.
Defined.

End DefaultSdk.

Section FailingSdks.

(** A package without a default export: [initialize] fails, and still
    fails after other calls. *)
Lemma sdk_without_default_is_permanent_witness :
  let s := Mnee.constructor configured_env 0%nat in
  fst (Mnee.initialize (H := sdk_without_default) s) = Thrown Words.sdk_not_loaded
  /\ Mnee.initialize (H := sdk_without_default)
       (Mnee.run (H := sdk_without_default) [Mnee.OpGetBalance; Mnee.OpInitialize]
          (snd (Mnee.initialize (H := sdk_without_default) s)))
     = (Thrown Words.sdk_not_loaded,
        Mnee.run (H := sdk_without_default) [Mnee.OpGetBalance; Mnee.OpInitialize]
          (snd (Mnee.initialize (H := sdk_without_default) s))).
Proof.
  apply (MneeMore.sdk_without_default_is_permanent (H := sdk_without_default)
           (Mnee.constructor configured_env 0%nat) [Mnee.OpGetBalance; Mnee.OpInitialize]);
    reflexivity.
Defined.

(** In the sandbox with 5 MNEE and a faucet that rejects, start-up goes
    on. *)
Lemma faucet_failure_does_not_stop_startup_witness :
  fst (Startup.initializeMneeService (H := sdk_dry_faucet)
         (Mnee.constructor sandbox_env 0%nat)) = Startup.Continue
  /\ fst (Mnee.requestFromFaucet (H := sdk_dry_faucet)
            (Mnee.run (H := sdk_dry_faucet) [Mnee.OpInitialize]
               (Mnee.constructor sandbox_env 0%nat)))
     = Thrown (Js.error "faucet is dry").
Proof.
  split; [|vm_compute; reflexivity].
  apply (StartupFacts.faucet_failure_does_not_stop_startup (H := sdk_dry_faucet)
           (Mnee.constructor sandbox_env 0%nat)
           (snd (Mnee.initialize (H := sdk_dry_faucet) (Mnee.constructor sandbox_env 0%nat)))
           (snd (Mnee.getBalance (H := sdk_dry_faucet)
                   (snd (Mnee.initialize (H := sdk_dry_faucet)
                           (Mnee.constructor sandbox_env 0%nat)))))
           (Mnee.mkBalance (Js.Str "1BotAddress") (Js.Fin 5) (Js.Fin 0) (Js.Fin (5 + 0)))).
  - apply run_outcome. vm_compute. reflexivity.
  - apply run_outcome. vm_compute. reflexivity.
Defined.

End FailingSdks.

(** *** The ledger schema, further *)

Section Ledger.

Lemma one_bounty_reachable : Db.reachable one_bounty.
Proof.
  apply DbFacts.reachable_insert_default; [apply Db.reach_init|].
  vm_compute. reflexivity.
Qed.



(** What that row holds. *)
Example padded_row_stored :
  let r := default ∅ (last (Db.bounties padded_twice)) in
  Db.cell r "status" = Db.VText ("active" ++ blanks 44)
  /\ Db.cell r "max_amount" = Db.VNumeric 30
  /\ Db.cell r "bounty_id" = Db.VInt 2.
Proof. repeat split; vm_compute; reflexivity. Qed.

(** A row without its repository is refused. *)
Lemma insert_requires_columns_witness :
  Db.insert "bounties" 102 (delete "repository" (bounty_row 2)) one_bounty = None.
Proof.
  apply (DbMore.insert_requires_columns one_bounty 102 (delete "repository" (bounty_row 2))
           "repository").
  - exact one_bounty_reachable.
  - vm_compute. auto 12.
  - left. vm_compute. reflexivity.
Defined.

(** A second row with bounty identifier 1 is refused. *)
Lemma insert_rejects_taken_bounty_id_witness :
  Db.insert "bounties" 102 (bounty_row 1) one_bounty = None.
Proof.
  apply (DbMore.insert_rejects_taken_bounty_id one_bounty 102 (bounty_row 1) stored_row 1).
  - exact one_bounty_reachable.
  - apply head_In. vm_compute. reflexivity.
  - vm_compute. reflexivity.
  - vm_compute. reflexivity.
Defined.

End Ledger.

(** *** The handlers, further *)

Section Handlers.

Lemma created_doc_found :
  Routes.findOne (Js.parseInt "1") (Routes.world after_create) = Returned (Some created_doc).
Proof.
  change (Returned (lookup_doc (Js.Fin 1) (Routes.world after_create))
          = Returned (Some created_doc)).
  apply (f_equal Returned), Examples.some_default. vm_compute. reflexivity.
Qed.

(** A claim on the active bounty 1: the document saved still says
    [active], and the reply is that of the save. *)
Lemma post_claim_after_settlement_witness :
  let result := Routes.mkClaimResult (Js.Number (Js.Fin 10)) (Js.Str "0xreleased") in
  let w1 := snd (Routes.claimBounty (Js.parseInt "1") (Routes.field claim_body "solver")
                   (Routes.field claim_body "paymentTxId") (Routes.world after_create)) in
  let saved := <["pullRequestUrl" := Routes.field claim_body "pullRequestUrl"]> created_doc in
  Routes.field saved "status" = Js.Str "active"
  /\ Routes.post_claim "1" claim_body after_create
     = (Returned
          (match fst (Routes.save saved w1) with
           | Returned _ =>
             Routes.mkResponse 200
               [("success", Js.Boolean true); ("amount", Routes.cl_amount result);
                ("transactionHash", Routes.cl_transactionHash result);
                ("solver", Routes.field claim_body "solver")]
           | Thrown err =>
             Routes.mkResponse 500
               [("error", Js.Str "Failed to claim bounty");
                ("message", Js.Str (Js.err_message err))]
           end),
        Routes.mkHState (snd (Routes.save saved w1))
          (((Routes.invoked after_create ++ [Routes.FindOne (Js.parseInt "1")])
            ++ [Routes.ClaimBounty (Js.parseInt "1") (Routes.field claim_body "solver")
                  (Routes.field claim_body "paymentTxId")])
           ++ [Routes.Save saved])%list).
Proof.
  apply (RoutesMore.post_claim_after_settlement "1" claim_body after_create created_doc
           (Routes.mkClaimResult (Js.Number (Js.Fin 10)) (Js.Str "0xreleased"))).
  - vm_compute. reflexivity.
  - vm_compute. reflexivity.
  - exact created_doc_found.
  - vm_compute. reflexivity.
  - apply run_outcome. vm_compute. reflexivity.
Defined.

(** No bounty 9 was ever created. *)
Lemma unknown_bounty_is_404_witness :
  let not_found :=
    (Returned (Routes.mkResponse 404 [("error", Js.Str "Bounty not found")]),
     Routes.mkHState (Routes.world after_create)
       (Routes.invoked after_create ++ [Routes.FindOne (Js.parseInt "9")])%list) in
  (Js.truthy (Routes.field claim_body "solver") = true ->
   Js.truthy (Routes.field claim_body "pullRequestUrl") = true ->
   Routes.post_claim "9" claim_body after_create = not_found)
  /\ Routes.post_escalate "9" after_create = not_found
  /\ Reads.get_bounty "9" after_create = not_found.
Proof.
  apply (RoutesMore.unknown_bounty_is_404 "9" claim_body after_create).
  vm_compute. reflexivity.
Defined.

(** A request of amount 10 with a [maxAmount] of 1 reaches [createBounty]
    with that maximum. *)
Lemma post_create_cap_choice_witness :
  exists p,
    Routes.invoked (snd (Routes.post_create creation_with_low_cap fresh))
    = (Routes.invoked fresh ++ [Routes.CreateBounty p])%list
    /\ Routes.cp_amount p = Routes.field creation_with_low_cap "amount"
    /\ Routes.cp_maxAmount p
       = (if Js.truthy (Routes.field creation_with_low_cap "maxAmount")
          then Routes.field creation_with_low_cap "maxAmount"
          else Js.mul (Routes.field creation_with_low_cap "amount") (Js.Number (Js.Fin 3))).
Proof.
  apply (RoutesMore.post_create_cap_choice creation_with_low_cap fresh);
    vm_compute; reflexivity.
Defined.

Lemma returned_or {A : Type} (o : Outcome A) (d : A) :
  match o with Returned _ => true | Thrown _ => false end = true ->
  o = Returned (match o with Returned a => a | Thrown _ => d end).
Proof. destruct o; [reflexivity|discriminate]. Qed.

(** One active bounty, pages of two: one page. *)
Lemma list_bounties_pagination_witness :
  exists n,
    Reads.list_bounties "octo" "repo" first_page_of_two after_create
    = (Returned (Reads.mkListResponse 200
                   (Reads.Listing (map Reads.toJSON found_page)
                      (Reads.mkPagination (Js.Fin (inject_Z 1)) (Js.Fin (inject_Z 2)) 1
                         (Reads.Finite n)))), after_create)
    /\ ((n - 1) * 2 < Z.of_nat 1 <= n * 2)%Z
    /\ ((Z.abs (1 - 1) <= 2 ^ 53)%Z -> (Z.abs ((1 - 1) * 2) <= 2 ^ 53)%Z ->
        Js.num_mul (Reads.num_sub (Js.Fin (inject_Z 1)) (Js.Fin 1)) (Js.Fin (inject_Z 2))
        = Js.Fin (inject_Z ((1 - 1) * 2))).
Proof.
  apply (RoutesMore.list_bounties_pagination "octo" "repo" first_page_of_two after_create
           2 1 found_page 1).
  - vm_compute. reflexivity.
  - vm_compute. reflexivity.
  - lia.
  - apply returned_or. vm_compute. reflexivity.
  - vm_compute. reflexivity.
Defined.

(** A page size of 0 is answered 200 with a page count that is no finite
    number. *)
Lemma list_bounties_unusable_limit_witness :
  let r := Reads.mkListResponse 200
             (Reads.Listing [] (Reads.mkPagination (Js.Fin 1) (Js.Fin 0) 0 Reads.NotFinite)) in
  Reads.l_status r = 500%nat
  \/ exists docs pagination,
      r = Reads.mkListResponse 200 (Reads.Listing docs pagination)
      /\ Reads.pg_pages pagination = Reads.NotFinite.
Proof.
  apply (RoutesMore.list_bounties_unusable_limit "octo" "repo" page_size_zero fresh
           (Reads.mkListResponse 200
              (Reads.Listing [] (Reads.mkPagination (Js.Fin 1) (Js.Fin 0) 0 Reads.NotFinite)))
           fresh).
  - right. vm_compute. reflexivity.
  - vm_compute. reflexivity.
Defined.

End Handlers.

(** *** The AuthProvider *)

Section Provider.


(** Leaving that demo mode. *)
Lemma exitDemoMode_forgets_demo_witness :
  let s := snd (Auth.enterDemoMode true signed_in_browser) in
  let s1 := snd (Auth.exitDemoMode s) in
  Auth.localStorage s1 !! Auth.DEMO_MODE_KEY = None
  /\ Auth.localStorage s1 !! Auth.DEMO_ADMIN_KEY = None
  /\ Auth.isDemo s1 = false /\ Auth.user s1 = None
  /\ exists more,
      Auth.api_calls (snd (Auth.refreshUser s1))
      = (Auth.api_calls s ++ Auth.GetToken :: more)%list
      /\ (Auth.no_token (Auth.getToken (Auth.api s)) = true ->
          more = [] /\ Auth.user (snd (Auth.refreshUser s1)) = None).
Proof.
  apply (AuthFacts.exitDemoMode_forgets_demo
           (snd (Auth.enterDemoMode true signed_in_browser))).
  vm_compute. reflexivity.
Defined.

(** With the token of [alice] stored: a refresh is awaiting the current
    user when demo mode is entered as admin; once the request resolves
    the provider is in demo mode and shows [alice]. *)
Lemma demo_mode_under_interleaving_witness :
  let r := Auth.after [Auth.RefreshUser; Auth.EnterDemoMode true; Auth.Settle 0]
             (Auth.mkRunning signed_in_browser []) in
  Auth.isDemo (Auth.now r) = true /\ Auth.user (Auth.now r) = Some "alice"
  /\ Auth.inflight r = []
  /\ Auth.is_true (Auth.localStorage (Auth.now r)) Auth.DEMO_MODE_KEY = true.
Proof.
  apply (proj2 (AuthFacts.demo_mode_under_interleaving [] ∅ (Some "good"))
           signed_in_browser true "alice");
    vm_compute; reflexivity.
Defined.

(** The same from mount on: demo mode entered while the refresh of the
    mount effect is in flight. *)
Example demo_entered_during_mount_refresh :
  let r := Auth.after [Auth.EnterDemoMode true; Auth.Settle 0]
             (Auth.mounted ∅ true (Some "good")) in
  Auth.isDemo (Auth.now r) = true /\ Auth.user (Auth.now r) = Some "alice"
  /\ Auth.loading (Auth.now r) = false /\ Auth.inflight r = [].
Proof. repeat split; vm_compute; reflexivity. Qed.

(** A [logout] taken from a render before demo mode was entered calls
    [api] although the provider is in demo mode, and demo mode stays on. *)
Example stale_logout_in_demo_mode :
  let s := snd (Auth.enterDemoMode false signed_in_browser) in
  Auth.isDemo s = true
  /\ Auth.api_calls (snd (Auth.logout false s)) = [Auth.Logout]
  /\ Auth.isDemo (snd (Auth.logout false s)) = true
  /\ Auth.user (snd (Auth.logout false s)) = None.
Proof. repeat split; vm_compute; reflexivity. Qed.

End Provider.

End MoreExamples.
